(** * Knowledge distillation notebook: losses, RankGauss scaler, k-fold
      training loop and inference

    A shallow embedding of
    [distillation/knowledge-distillation-with-nn-rankgauss-pytorch.ipynb].

    Conventions of the embedding.
    - Floating-point numbers are idealised as real numbers ([R]); rounding
      is outside the model.  Where the notebook's arithmetic leaves the
      finite numbers it is modelled with the type [xfloat], which has the
      special values of IEEE 754: the initial best validation loss
      [float('inf')], the NaN that NumPy gives for an empty mean, and the
      body of [focal_loss] without its clamping line, where [log 0] is
      [-inf] and [0 * inf] is NaN.
    - A two-dimensional tensor or array is the list of its rows.
    - Python exceptions are values of type [exn]; a computation that may
      raise returns a [result].
    - Library primitives whose code is not part of the notebook (BCELoss,
      erfinv, argsort, KFold, the optimiser, the random generators) are
      variables of a section or fields of the class [Backend]; the theorems
      hold for all of them, under the hypotheses that they state.
    - Printing, the choice of the device and garbage collection are left
      out. *)

From Stdlib Require Import String Ascii DecimalString DecimalNat.
From Stdlib Require Import Reals Lra Lia Bool Arith.
From Stdlib Require Import List Permutation Sorted.
Import ListNotations.

Open Scope R_scope.

(** ** Python exceptions and results

    IndexError and RuntimeError carry no message: the messages of NumPy and
    PyTorch for them name the sizes at hand, and no theorem reads them. *)

Inductive exn : Type :=
| NameError (name : string)
| AttributeError (attr : string)
| TypeError (msg : string)
| ValueError (msg : string)
| AssertionError
| IndexError
| RuntimeError
| FileNotFoundError (path : string).

Inductive result (A : Type) : Type :=
| Ok (a : A)
| Raise (e : exn).
Arguments Ok {A} a.
Arguments Raise {A} e.

Definition bind {A B} (r : result A) (k : A -> result B) : result B :=
  match r with
  | Ok a => k a
  | Raise e => Raise e
  end.

Notation "x <- c ;; k" := (bind c (fun x => k))
  (at level 61, c at next level, right associativity).

(** ** Tensors *)

Definition tensor := list (list R).

Fixpoint zip_with {A B C} (f : A -> B -> C) (l1 : list A) (l2 : list B)
  : list C :=
  match l1, l2 with
  | a :: l1', b :: l2' => f a b :: zip_with f l1' l2'
  | _, _ => []
  end.

Definition tmap (f : R -> R) (t : tensor) : tensor := map (map f) t.

Definition tmap2 (f : R -> R -> R) (a b : tensor) : tensor :=
  zip_with (zip_with f) a b.

Definition Rsum (l : list R) : R := fold_right Rplus 0 l.

Definition numel (t : tensor) : nat := length (concat t).

(** [torch.mean]: the sum of all the elements over their number. *)
Definition torch_mean (t : tensor) : R := Rsum (concat t) / INR (numel t).

Definition same_shape (a b : tensor) : Prop :=
  Forall2 (fun r1 r2 => length r1 = length r2) a b.

(** [torch.clamp(x, lo, hi)] *)
Definition clamp (lo hi x : R) : R := Rmin (Rmax x lo) hi.

(** [x ** g] for a base that is not negative: [0 ** g] is [0] for a positive
    exponent and [1] for the exponent [0]; a positive base follows
    [exp (g * ln x)]. *)
Definition float_pow (x g : R) : R :=
  if Req_dec_T x 0 then (if Req_dec_T g 0 then 1 else 0) else Rpower x g.

(** ** Loss functions (notebook lines 88-108) *)

Definition focal_epsilon : R := 1e-7.
Definition default_gamma : R := 2.
Definition default_beta : R := 0.1.

Definition focal_loss (y_true y_pred : tensor) (gamma : R) : R :=
  let epsilon := focal_epsilon in
  let y_pred := tmap (clamp epsilon (1 - epsilon)) y_pred in
  let cross_entropy := tmap2 Rmult (tmap Ropp y_true) (tmap ln y_pred) in
  let focal_weight := tmap (fun p => float_pow (1 - p) gamma) y_pred in
  torch_mean (tmap2 Rmult focal_weight cross_entropy).

(** [t[:, :1]] and [t[:, 1:]] *)
Definition slice_to_1 (t : tensor) : tensor := map (firstn 1) t.
Definition slice_from_1 (t : tensor) : tensor := map (skipn 1) t.

(** Column [k] of a tensor, as a tensor with one column. *)
Definition col (k : nat) (t : tensor) : tensor :=
  map (fun r => [nth k r 0]) t.

Section Losses.

(** [nn.BCELoss()(input, target)] *)
Variable BCELoss : tensor -> tensor -> R.

Definition knowledge_distillation_loss (y_true y_pred : tensor) (beta : R)
  : R :=
  let true_labels := slice_to_1 y_true in
  let teacher_preds := slice_from_1 y_true in
  let student_preds1 := slice_to_1 y_pred in
  let student_preds2 := slice_from_1 y_pred in
  let fl_loss := focal_loss true_labels student_preds1 default_gamma in
  let distill_loss := BCELoss student_preds2 teacher_preds in
  beta * fl_loss + (1 - beta) * distill_loss.

End Losses.

(** ** NumPy helpers *)

Definition matrix := list (list R).
Definition int_matrix := list (list nat).

Definition ncols {A} (X : list (list A)) : nat :=
  match X with
  | [] => 0%nat
  | r :: _ => length r
  end.

Definition column {A} (d : A) (c : nat) (X : list (list A)) : list A :=
  map (fun r => nth c r d) X.

Definition columns {A} (d : A) (X : list (list A)) : list (list A) :=
  map (fun c => column d c X) (seq 0 (ncols X)).

(** The array with [n] rows whose columns are [cols]. *)
Definition from_columns {A} (d : A) (n : nat) (cols : list (list A))
  : list (list A) :=
  map (fun r => map (fun cl => nth r cl d) cols) (seq 0 n).

(** The elements of [a] at the positions [idx], for positions within
    [a]. *)
Definition take {A} (d : A) (a : list A) (idx : list nat) : list A :=
  map (fun i => nth i a d) idx.

(** [a[idx]] for an index array [idx]: NumPy raises IndexError when an
    index is past the end of [a]. *)
Definition getitem {A} (d : A) (a : list A) (idx : list nat)
  : result (list A) :=
  if forallb (fun i => (i <? length a)%nat) idx then Ok (take d a idx)
  else Raise IndexError.

(** [np.column_stack([u, v])] for two vectors *)
Definition column_stack (u v : list R) : matrix :=
  zip_with (fun a b => [a; b]) u v.

(** [a.min()] and [a.max()] over all the elements of an integer array; NumPy
    raises ValueError on an array without elements. *)
Definition array_min (a : int_matrix) : result nat :=
  match concat a with
  | [] =>
      Raise (ValueError
        "zero-size array to reduction operation minimum which has no identity")
  | x :: l => Ok (fold_left Nat.min l x)
  end.

Definition array_max (a : int_matrix) : result nat :=
  match concat a with
  | [] =>
      Raise (ValueError
        "zero-size array to reduction operation maximum which has no identity")
  | x :: l => Ok (fold_left Nat.max l x)
  end.

(** Floats with the special values of IEEE 754: the best validation loss
    starts at [float('inf')], [np.mean] of an empty list is NaN, and the
    logarithm of 0 is [-inf]. *)
Inductive xfloat : Type :=
| Finite (r : R)
| PInf
| NInf
| NaN.

(** [a < b]: every comparison with NaN is false. *)
Definition xlt (a b : xfloat) : bool :=
  match a, b with
  | Finite x, Finite y => if Rlt_dec x y then true else false
  | Finite _, PInf => true
  | NInf, Finite _ => true
  | NInf, PInf => true
  | _, _ => false
  end.

Definition is_nan (a : xfloat) : bool :=
  match a with NaN => true | _ => false end.
Definition is_pinf (a : xfloat) : bool :=
  match a with PInf => true | _ => false end.
Definition is_ninf (a : xfloat) : bool :=
  match a with NInf => true | _ => false end.
Definition finite_part (a : xfloat) : R :=
  match a with Finite r => r | _ => 0 end.

(** [- a] *)
Definition xneg (a : xfloat) : xfloat :=
  match a with
  | Finite r => Finite (- r)
  | PInf => NInf
  | NInf => PInf
  | NaN => NaN
  end.

(** An infinity of the sign of [positive]. *)
Definition infinity (positive : bool) : xfloat :=
  match positive with true => PInf | false => NInf end.

(** The product of the finite number [x] and an infinity: [0 * inf] is
    NaN. *)
Definition scale_infinity (x : R) (positive : bool) : xfloat :=
  match Rlt_dec 0 x with
  | left _ => infinity positive
  | right _ =>
      match Rlt_dec x 0 with
      | left _ => infinity (negb positive)
      | right _ => NaN
      end
  end.

(** [a * b] *)
Definition xmul (a b : xfloat) : xfloat :=
  match a, b with
  | NaN, _ | _, NaN => NaN
  | Finite x, Finite y => Finite (x * y)
  | Finite x, PInf | PInf, Finite x => scale_infinity x true
  | Finite x, NInf | NInf, Finite x => scale_infinity x false
  | PInf, PInf | NInf, NInf => PInf
  | PInf, NInf | NInf, PInf => NInf
  end.

(** [a + b]: [inf - inf] is NaN. *)
Definition xadd (a b : xfloat) : xfloat :=
  match a, b with
  | NaN, _ | _, NaN => NaN
  | Finite x, Finite y => Finite (x + y)
  | PInf, NInf | NInf, PInf => NaN
  | PInf, _ | _, PInf => PInf
  | NInf, _ | _, NInf => NInf
  end.

(** [torch.log]: [-inf] at 0 and NaN below 0. *)
Definition xlog (a : xfloat) : xfloat :=
  match a with
  | Finite x =>
      match Rlt_dec 0 x with
      | left _ => Finite (ln x)
      | right _ =>
          match Rlt_dec x 0 with
          | left _ => NaN
          | right _ => NInf
          end
      end
  | PInf => PInf
  | NInf => NaN
  | NaN => NaN
  end.

(** [torch.mean] of elements that may be special values: the sum over the
    number of elements, NaN for a tensor without elements. *)
Definition torch_mean_x (l : list xfloat) : xfloat :=
  match l with
  | [] => NaN
  | _ =>
      match fold_right xadd (Finite 0) l with
      | Finite total => Finite (total / INR (length l))
      | special => special
      end
  end.

(** The body of [focal_loss] with its clamping line (line 90) left out, for
    predictions that are not above 1 (so that the base of the power is not
    negative).  The logarithm then meets 0, and the arithmetic is that of
    the floats with their special values. *)
Definition focal_loss_noclamp (y_true y_pred : tensor) (gamma : R)
  : xfloat :=
  let x_true := map (map Finite) y_true in
  let x_pred := map (map Finite) y_pred in
  let cross_entropy :=
    zip_with (zip_with xmul) (map (map xneg) x_true)
             (map (map xlog) x_pred) in
  let focal_weight :=
    map (map (fun p => Finite (float_pow (1 - p) gamma))) y_pred in
  torch_mean_x (concat (zip_with (zip_with xmul) focal_weight
                                 cross_entropy)).

(** [np.mean] of a list of finite floats *)
Definition np_mean (l : list R) : xfloat :=
  match l with
  | [] => NaN
  | _ => Finite (Rsum l / INR (length l))
  end.

(** [np.mean] of a list whose entries may be special values *)
Definition np_mean_x (l : list xfloat) : xfloat :=
  match l with
  | [] => NaN
  | _ =>
      if existsb is_nan l then NaN
      else if existsb is_pinf l then
             (if existsb is_ninf l then NaN else PInf)
      else if existsb is_ninf l then NInf
      else Finite (Rsum (map finite_part l) / INR (length l))
  end.

(** [np.mean(arrays, axis=0)] for a list of vectors of length [n] *)
Definition mean_axis0 (n : nat) (arrays : list (list R)) : list R :=
  map (fun r => Rsum (map (fun a => nth r a 0) arrays) / INR (length arrays))
      (seq 0 n).

(** The batches of a [DataLoader] with a batch size of at least 1 (the
    constructor, [DataLoader_new] below, refuses any other): consecutive
    runs of [batch_size] items, the last one possibly shorter. *)
Fixpoint batches_fuel {A} (fuel batch_size : nat) (l : list A)
  : list (list A) :=
  match fuel with
  | O => []
  | S fuel' =>
      match l with
      | [] => []
      | _ => firstn batch_size l
               :: batches_fuel fuel' batch_size (skipn batch_size l)
      end
  end.

Definition batches {A} (batch_size : nat) (l : list A) : list (list A) :=
  batches_fuel (length l) batch_size l.

(** [DataLoader(dataset, batch_size=batch_size)]: the constructor refuses a
    batch size that is not positive. *)
Definition DataLoader_new (batch_size : nat) : result nat :=
  match batch_size with
  | O =>
      Raise (ValueError
        "batch_size should be a positive integer value, but got batch_size=0")
  | S _ => Ok batch_size
  end.

(** A stable argsort by insertion, used to run the scaler on examples.
    Indices are inserted from the last to the first, each before the first
    index whose key is not smaller. *)
Section StableArgsort.
Context {A : Type} (leb : A -> A -> bool) (d : A).

Fixpoint insert_index (a : list A) (i : nat) (sorted : list nat)
  : list nat :=
  match sorted with
  | [] => [i]
  | k :: rest =>
      if leb (nth i a d) (nth k a d) then i :: k :: rest
      else k :: insert_index a i rest
  end.

Definition stable_argsort (a : list A) : list nat :=
  fold_right (insert_index a) [] (seq 0 (length a)).
End StableArgsort.

Definition Rleb (x y : R) : bool := if Rle_dec x y then true else false.

(** ** Global names of the notebook *)

(** Names bound by the import cell (lines 26-38). *)
Definition notebook_imports : list string :=
  ["torch"; "nn"; "optim"; "Dataset"; "DataLoader"; "np"; "pd"; "KFold";
   "StandardScaler"; "QuantileTransformer"; "plt"; "tqdm"; "gc"; "os";
   "warnings"]%string.

(** Names bound by the definitions and assignments of the code cells (lines
    57-467), whichever of them have run. *)
Definition notebook_bindings : list string :=
  ["StudentModel"; "focal_loss"; "knowledge_distillation_loss";
   "CustomDataset"; "train_model"; "GaussRankScaler"; "train"; "test";
   "lgb_train"; "add_features"; "feature_cols"; "X"; "y"; "X_test";
   "teacher_preds"; "scaler"; "params"; "train_simple_nn"; "exp1_score";
   "exp2_score"; "exp3_score"; "exp4_score"; "results"; "predict"; "device";
   "test_preds"; "fold"; "model"; "test_dataset"; "test_loader";
   "fold_preds"; "final_preds"; "submission"]%string.

Definition notebook_globals : list string :=
  notebook_imports ++ notebook_bindings.

(** Looking a global name up: NameError when it is not bound. *)
Definition lookup_global (globals : list string) (name : string)
  : result unit :=
  if existsb (String.eqb name) globals then Ok tt
  else Raise (NameError name).

(** ** RankGauss scaler (notebook lines 228-249) *)

(** The instance attributes of a [GaussRankScaler]; [divider] is bound by
    [fit_transform] only. *)
Record GaussRankScaler : Type := {
  epsilon : R;
  lower : R;
  upper : R;
  range : R;
  divider : option R
}.

(** [__init__] (lines 229-233) *)
Definition GaussRankScaler_init : GaussRankScaler :=
  let epsilon := 1e-9 in
  let lower := -1 + epsilon in
  let upper := 1 - epsilon in
  {| epsilon := epsilon; lower := lower; upper := upper;
     range := upper - lower; divider := None |}.

Definition set_divider (self : GaussRankScaler) (v : R) : GaussRankScaler :=
  {| epsilon := epsilon self; lower := lower self; upper := upper self;
     range := range self; divider := Some v |}.

(** Reading [self.divider] *)
Definition get_divider (self : GaussRankScaler) : result R :=
  match divider self with
  | Some v => Ok v
  | None => Raise (AttributeError "divider")
  end.

(** The methods that the class statement defines. *)
Inductive scaler_method : Type :=
| method_init
| method_fit_transform.

Definition GaussRankScaler_methods : list (string * scaler_method) :=
  [("__init__"%string, method_init);
   ("fit_transform"%string, method_fit_transform)].

Definition instance_attributes (self : GaussRankScaler) : list string :=
  ["epsilon"; "lower"; "upper"; "range"]%string
    ++ match divider self with
       | Some _ => ["divider"%string]
       | None => []
       end.

(** Attribute lookup for a method call [scaler.name(...)]: the instance
    attributes hold floats, which are not callable; then the class; then
    AttributeError. *)
Definition lookup_method (self : GaussRankScaler) (name : string)
  : result scaler_method :=
  if existsb (String.eqb name) (instance_attributes self)
  then Raise (TypeError "'float' object is not callable")
  else
    match find (fun nm => String.eqb name (fst nm)) GaussRankScaler_methods
    with
    | Some (_, m) => Ok m
    | None => Raise (AttributeError name)
    end.

Section Scaler.

(** [np.argsort] of a float vector and of an integer vector *)
Variable argsort_float : list R -> list nat.
Variable argsort_int : list nat -> list nat.
(** [scipy.special.erfinv] *)
Variable erfinv : R -> R.
(** The global names bound when the method runs. *)
Variable globals : list string.

(** [np.argsort(X, axis=0)] *)
Definition argsort_axis0_float (X : matrix) : int_matrix :=
  from_columns 0%nat (length X) (map argsort_float (columns 0 X)).

Definition argsort_axis0_int (X : int_matrix) : int_matrix :=
  from_columns 0%nat (length X) (map argsort_int (columns 0%nat X)).

(** [fit_transform] (lines 235-249): the scaler after the call, and the
    value returned or the exception raised. *)
Definition fit_transform (self : GaussRankScaler) (X : matrix)
  : GaussRankScaler * result matrix :=
  let i := argsort_axis0_float X in
  let j := argsort_axis0_int i in
  match array_min j with
  | Raise e => (self, Raise e)
  | Ok jmin =>
  if negb (jmin =? 0)%nat then (self, Raise AssertionError) else
  match array_max j with
  | Raise e => (self, Raise e)
  | Ok jmax =>
  if negb (jmax =? length j - 1)%nat then (self, Raise AssertionError) else
  let j_range := (length j - 1)%nat in
  let self := set_divider self (INR j_range / range self) in
  match get_divider self with
  | Raise e => (self, Raise e)
  | Ok dv =>
  let transformed := map (map (fun r => INR r / dv)) j in
  let transformed := tmap (fun t => t - upper self) transformed in
  match lookup_global globals "scipy" with
  | Raise e => (self, Raise e)
  | Ok _ =>
  let transformed := tmap erfinv transformed in
  (self, Ok transformed)
  end end end end.

(** A method call [scaler.name(X)] with one array argument. *)
Definition call_method (self : GaussRankScaler) (name : string)
           (X : matrix) : GaussRankScaler * result matrix :=
  match lookup_method self name with
  | Raise e => (self, Raise e)
  | Ok method_fit_transform => fit_transform self X
  | Ok method_init =>
      (self,
       Raise (TypeError "__init__() takes 1 positional argument but 2 were given"))
  end.

(** Lines 283-285: [scaler = GaussRankScaler()],
    [X = scaler.fit_transform(X)], [X_test = scaler.transform(X_test)]. *)
Definition normalize_cell (X X_test : matrix) : result (matrix * matrix) :=
  let scaler := GaussRankScaler_init in
  let '(scaler, r) := call_method scaler "fit_transform" X in
  X' <- r ;;
  let '(scaler, r) := call_method scaler "transform" X_test in
  X_test' <- r ;;
  Ok (X', X_test').

End Scaler.

(** The rank transform that [fit_transform] is written to compute, in closed
    form: rank [r] among [n] values goes to
    [erfinv (r * range / (n - 1) - upper)]. *)
Definition rank_to_gauss (erfinv : R -> R) (self : GaussRankScaler)
           (n r : nat) : R :=
  erfinv (INR r / (INR (n - 1) / range self) - upper self).

(** ** Student model (notebook lines 57-70) *)

(** [nn.Linear]: a weight matrix with one row per output and a bias. *)
Record Linear : Type := {
  weight : list (list R);
  bias : list R
}.

Definition dot (w x : list R) : R := Rsum (zip_with Rmult w x).

Definition linear (l : Linear) (x : list R) : list R :=
  zip_with (fun w b => dot w x + b) (weight l) (bias l).

Definition relu (x : R) : R := Rmax 0 x.

Definition sigmoid (x : R) : R := 1 / (1 + exp (- x)).

(** The parameters of a [StudentModel], which are also what its
    [state_dict()] holds. *)
Record StudentModel : Type := {
  layer1 : Linear;
  output : Linear
}.

(** [forward] on one row of the batch; [nn.Flatten] leaves a row as it is. *)
Definition forward_row (m : StudentModel) (x : list R) : list R :=
  let x := map relu (linear (layer1 m) x) in
  map sigmoid (linear (output m) x).

Definition forward (m : StudentModel) (batch : tensor) : tensor :=
  map (forward_row m) batch.

(** The shapes that [StudentModel(input_shape)] gives its layers: 16 hidden
    units over [input_shape] features, 2 outputs over the 16 hidden units. *)
Definition layer_shape (l : Linear) (n_in n_out : nat) : Prop :=
  length (weight l) = n_out
  /\ length (bias l) = n_out
  /\ Forall (fun w => length w = n_in) (weight l).

Definition model_shape (m : StudentModel) (input_shape : nat) : Prop :=
  layer_shape (layer1 m) input_shape 16
  /\ layer_shape (output m) 16 2.

Definition has_layer_shape (l : Linear) (n_in n_out : nat) : bool :=
  (length (weight l) =? n_out)%nat
  && (length (bias l) =? n_out)%nat
  && forallb (fun w => (length w =? n_in)%nat) (weight l).

Definition has_model_shape (m : StudentModel) (input_shape : nat) : bool :=
  has_layer_shape (layer1 m) input_shape 16
  && has_layer_shape (output m) 16 2.

(** [model.load_state_dict(state)] for [model = StudentModel(input_shape)]:
    the loading is strict, and a tensor whose shape is not that of the
    model's raises RuntimeError.  The state dict of a [StudentModel] always
    has the four keys. *)
Definition load_state_dict (input_shape : nat) (state : StudentModel)
  : result StudentModel :=
  if has_model_shape state input_shape then Ok state else Raise RuntimeError.

(** [model(batch_X)] for a model of [input_shape] features: the product with
    the weights of the first layer raises RuntimeError for rows of another
    width. *)
Definition model_call (input_shape : nat) (model : StudentModel)
           (batch_X : tensor) : result tensor :=
  if forallb (fun x => (length x =? input_shape)%nat) batch_X
  then Ok (forward model batch_X)
  else Raise RuntimeError.

(** ** Checkpoint files *)

(** The files written by [torch.save]: a path holds a state dict or does not
    exist. *)
Definition filesystem := string -> option StudentModel.

Definition fs_write (fs : filesystem) (path : string) (m : StudentModel)
  : filesystem :=
  fun p => if String.eqb p path then Some m else fs p.

Definition fs_remove (fs : filesystem) (path : string) : filesystem :=
  fun p => if String.eqb p path then None else fs p.

(** [torch.load] *)
Definition fs_load (fs : filesystem) (path : string) : result StudentModel :=
  match fs path with
  | Some m => Ok m
  | None => Raise (FileNotFoundError path)
  end.

Definition string_of_nat (n : nat) : string :=
  NilEmpty.string_of_uint (Nat.to_uint n).

(** [f'best_model_fold_{fold}.pt'] *)
Definition checkpoint_path (fold : nat) : string :=
  ("best_model_fold_" ++ string_of_nat fold ++ ".pt")%string.

(** ** Training loop (notebook lines 153-210) *)

(** The library primitives that the training loop calls. *)
Class Backend : Type := {
  (** [nn.BCELoss()(input, target)] *)
  BCELoss : tensor -> tensor -> R;
  (** The state of the random generators of NumPy and PyTorch. *)
  rng : Type;
  (** [KFold(n_splits, shuffle=True).split(X)] on [n] rows, for the
      arguments that scikit-learn accepts ([2 <= n_splits <= n], see
      [train_model]): the pairs [(train_idx, val_idx)], in order. *)
  KFold_split : nat -> nat -> rng -> list (list nat * list nat) * rng;
  (** [StudentModel(input_shape)]: freshly initialised parameters. *)
  StudentModel_new : nat -> rng -> StudentModel * rng;
  (** The state of [optim.Adam] and its constructor. *)
  optimizer : Type;
  Adam : StudentModel -> optimizer;
  (** [optimizer.zero_grad(); loss.backward(); optimizer.step()] for the
      distillation loss of the batch. *)
  backward_step :
    StudentModel -> optimizer -> tensor -> tensor -> StudentModel * optimizer;
  (** The index order drawn by a [DataLoader] with [shuffle=True]. *)
  randperm : nat -> rng -> list nat * rng
}.

(** The ValueError of [KFold(n_splits=...)] for fewer than two splits, and
    that of [kfold.split(X)] for more splits than rows, in the wording of
    scikit-learn 1.x.  The theorems read the class of these exceptions, not
    their wording. *)
Definition KFold_too_few (n_splits : nat) : exn :=
  ValueError
    ("k-fold cross-validation requires at least one train/test split by "
       ++ "setting n_splits=2 or more, got n_splits="
       ++ string_of_nat n_splits ++ ".")%string.

Definition KFold_too_many (n_splits n_samples : nat) : exn :=
  ValueError
    ("Cannot have number of splits n_splits=" ++ string_of_nat n_splits
       ++ " greater than the number of samples: n_samples="
       ++ string_of_nat n_samples ++ ".")%string.

Section Training.

Context {B : Backend}.

(** What a call of [train_model] reads and writes outside its arguments. *)
Record world : Type := {
  w_rng : rng;
  w_fs : filesystem
}.

(** The variables of one fold's epoch loop. *)
Record fold_state : Type := {
  st_model : StudentModel;
  st_optimizer : optimizer;
  st_best_val_loss : xfloat;
  st_world : world
}.

Definition kd_loss (y_true y_pred : tensor) : R :=
  knowledge_distillation_loss BCELoss y_true y_pred default_beta.

(** One iteration of the training batches (lines 183-188). *)
Definition train_batch
           (acc : StudentModel * optimizer * list R)
           (batch : tensor * tensor)
  : StudentModel * optimizer * list R :=
  let '(model, opt, train_losses) := acc in
  let '(batch_X, batch_y) := batch in
  let outputs := forward model batch_X in
  let loss := kd_loss batch_y outputs in
  let '(model, opt) := backward_step model opt batch_X batch_y in
  (model, opt, train_losses ++ [loss]).

(** The batches of the shuffled training loader for one epoch; the order
    that the sampler draws is a permutation of the positions, so that every
    item it asks of the dataset exists. *)
Definition train_loader (batch_size : nat) (X_train y_train : tensor)
           (g : rng) : list (tensor * tensor) * rng :=
  let '(order, g) := randperm (length X_train) g in
  (combine (batches batch_size (take [] X_train order))
           (batches batch_size (take [] y_train order)), g).

Definition val_loader (batch_size : nat) (X_val y_val : tensor)
  : list (tensor * tensor) :=
  combine (batches batch_size X_val) (batches batch_size y_val).

(** Lines 179-188: the training pass of an epoch. *)
Definition train_pass (batch_size : nat) (X_train y_train : tensor)
           (model : StudentModel) (opt : optimizer) (g : rng)
  : StudentModel * optimizer * list R * rng :=
  let '(loader, g) := train_loader batch_size X_train y_train g in
  let '(model, opt, train_losses) :=
    fold_left train_batch loader (model, opt, []) in
  (model, opt, train_losses, g).

(** Lines 191-200: the validation pass, which only evaluates the model. *)
Definition validation_pass (batch_size : nat) (X_val y_val : tensor)
           (model : StudentModel) : xfloat :=
  let val_losses :=
    map (fun b : tensor * tensor =>
           let '(batch_X, batch_y) := b in
           kd_loss batch_y (forward model batch_X))
        (val_loader batch_size X_val y_val) in
  np_mean val_losses.

(** Lines 179-203: one epoch of fold [fold]. *)
Definition run_epoch (fold batch_size : nat)
           (X_train y_train X_val y_val : tensor) (s : fold_state)
  : fold_state :=
  let '(model, opt, _, g) :=
    train_pass batch_size X_train y_train
               (st_model s) (st_optimizer s) (w_rng (st_world s)) in
  let avg_val_loss := validation_pass batch_size X_val y_val model in
  if xlt avg_val_loss (st_best_val_loss s) then
    {| st_model := model; st_optimizer := opt;
       st_best_val_loss := avg_val_loss;
       st_world := {| w_rng := g;
                      w_fs := fs_write (w_fs (st_world s))
                                       (checkpoint_path fold) model |} |}
  else
    {| st_model := model; st_optimizer := opt;
       st_best_val_loss := st_best_val_loss s;
       st_world := {| w_rng := g; w_fs := w_fs (st_world s) |} |}.

(** [for epoch in range(epochs)] *)
Fixpoint epoch_loop (epochs fold batch_size : nat)
         (X_train y_train X_val y_val : tensor) (s : fold_state)
  : fold_state :=
  match epochs with
  | O => s
  | S epochs' =>
      epoch_loop epochs' fold batch_size X_train y_train X_val y_val
                 (run_epoch fold batch_size X_train y_train X_val y_val s)
  end.

(** [teacher_preds[idx]], where [teacher_preds] may be [None]. *)
Definition index_teacher (teacher_preds : option (list R))
           (idx : list nat) : result (list R) :=
  match teacher_preds with
  | Some t => getitem 0 t idx
  | None => Raise (TypeError "'NoneType' object is not subscriptable")
  end.

(** Lines 162-177: the data, the loaders, the model and the optimiser of a
    fold, in the order of the notebook. *)
Definition fold_setup (X : matrix) (y : list R)
           (teacher_preds : option (list R))
           (train_idx val_idx : list nat) (batch_size : nat) (w : world)
  : result (tensor * tensor * tensor * tensor * fold_state) :=
  X_train <- getitem [] X train_idx ;;
  X_val <- getitem [] X val_idx ;;
  l_train <- getitem 0 y train_idx ;;
  t_train <- index_teacher teacher_preds train_idx ;;
  let y_train := column_stack l_train t_train in
  l_val <- getitem 0 y val_idx ;;
  t_val <- index_teacher teacher_preds val_idx ;;
  let y_val := column_stack l_val t_val in
  _ <- DataLoader_new batch_size ;;
  _ <- DataLoader_new batch_size ;;
  let '(model, g) := StudentModel_new (ncols X) (w_rng w) in
  let opt := Adam model in
  Ok (X_train, y_train, X_val, y_val,
      {| st_model := model; st_optimizer := opt;
         st_best_val_loss := PInf;
         st_world := {| w_rng := g; w_fs := w_fs w |} |}).

(** Lines 158-208: the loop over the folds, [fold] counting from the index
    of the first split of [splits]. *)
Fixpoint fold_loop (X : matrix) (y : list R)
         (teacher_preds : option (list R)) (epochs batch_size : nat)
         (fold : nat) (splits : list (list nat * list nat))
         (fold_scores : list xfloat) (w : world)
  : result (list xfloat) * world :=
  match splits with
  | [] => (Ok fold_scores, w)
  | (train_idx, val_idx) :: splits' =>
      match fold_setup X y teacher_preds train_idx val_idx batch_size w with
      | Raise e => (Raise e, w)
      | Ok (X_train, y_train, X_val, y_val, s) =>
          let s := epoch_loop epochs fold batch_size
                              X_train y_train X_val y_val s in
          fold_loop X y teacher_preds epochs batch_size (S fold) splits'
                    (fold_scores ++ [st_best_val_loss s]) (st_world s)
      end
  end.

(** [train_model(X, y, teacher_preds, n_splits, epochs, batch_size)].
    [KFold(n_splits=...)] (line 155) raises ValueError for fewer than two
    splits, and [kfold.split(X)] (line 158) for more splits than rows, both
    before the first fold; otherwise the partition is drawn and the folds
    run. *)
Definition train_model (X : matrix) (y : list R)
           (teacher_preds : option (list R))
           (n_splits epochs batch_size : nat) (w : world)
  : result xfloat * world :=
  if (n_splits <? 2)%nat then (Raise (KFold_too_few n_splits), w)
  else if (length X <? n_splits)%nat
  then (Raise (KFold_too_many n_splits (length X)), w)
  else
    let '(splits, g) := KFold_split n_splits (length X) (w_rng w) in
    let w := {| w_rng := g; w_fs := w_fs w |} in
    match fold_loop X y teacher_preds epochs batch_size 0 splits [] w with
    | (Ok fold_scores, w) => (Ok (np_mean_x fold_scores), w)
    | (Raise e, w) => (Raise e, w)
    end.

(** *** Calls of [train_model] (lines 312-399) *)

(** The loss functions that the experiment cells pass as [criterion]. *)
Inductive criterion : Type :=
| criterion_BCELoss
| criterion_focal_loss
| criterion_knowledge_distillation_loss.

Inductive kwarg_value : Type :=
| KwInt (n : nat)
| KwCriterion (c : criterion).

(** The parameters of [train_model] that have defaults (line 153). *)
Record train_options : Type := {
  n_splits : nat;
  epochs : nat;
  batch_size : nat
}.

Definition default_options : train_options :=
  {| n_splits := 5; epochs := 100; batch_size := 32 |}.

Definition unexpected_keyword (name : string) : exn :=
  TypeError ("train_model() got an unexpected keyword argument '"
               ++ name ++ "'")%string.

(** Binding the keyword arguments of a call to the signature of line 153:
    a keyword that names no parameter raises TypeError before the body
    runs.  (A loss function bound to one of the integer parameters would
    be refused by the first use of that parameter; the model refuses it
    here.) *)
Fixpoint bind_keywords (kwargs : list (string * kwarg_value))
         (o : train_options) : result train_options :=
  match kwargs with
  | [] => Ok o
  | (name, v) :: kwargs' =>
      if String.eqb name "n_splits" then
        match v with
        | KwInt n =>
            bind_keywords kwargs'
              {| n_splits := n; epochs := epochs o;
                 batch_size := batch_size o |}
        | KwCriterion _ => Raise (TypeError "n_splits must be an integer")
        end
      else if String.eqb name "epochs" then
        match v with
        | KwInt n =>
            bind_keywords kwargs'
              {| n_splits := n_splits o; epochs := n;
                 batch_size := batch_size o |}
        | KwCriterion _ => Raise (TypeError "epochs must be an integer")
        end
      else if String.eqb name "batch_size" then
        match v with
        | KwInt n =>
            bind_keywords kwargs'
              {| n_splits := n_splits o; epochs := epochs o;
                 batch_size := n |}
        | KwCriterion _ =>
            Raise (TypeError "batch_size must be an integer")
        end
      else Raise (unexpected_keyword name)
  end.

(** A call [train_model(X, y, teacher_preds, **kwargs)]. *)
Definition call_train_model (X : matrix) (y : list R)
           (teacher_preds : option (list R))
           (kwargs : list (string * kwarg_value)) (w : world)
  : result xfloat * world :=
  match bind_keywords kwargs default_options with
  | Raise e => (Raise e, w)
  | Ok o =>
      train_model X y teacher_preds (n_splits o) (epochs o) (batch_size o) w
  end.

(** The [params] dictionary (lines 305-310). *)
Definition params_n_splits : nat := 5.
Definition params_epochs : nat := 100.
Definition params_batch_size : nat := 1024.

Definition params_kwargs : list (string * kwarg_value) :=
  [("n_splits"%string, KwInt params_n_splits);
   ("epochs"%string, KwInt params_epochs);
   ("batch_size"%string, KwInt params_batch_size)].

(** Experiment 1 (lines 312-323) *)
Definition experiment1 (X : matrix) (y : list R) :=
  call_train_model X y None
    (params_kwargs ++ [("criterion"%string, KwCriterion criterion_BCELoss)]).

(** Experiment 2 (lines 343-348) *)
Definition experiment2 (X : matrix) (y teacher_preds : list R) :=
  call_train_model X y (Some teacher_preds) params_kwargs.

(** Experiment 3 (lines 367-373) *)
Definition experiment3 (X : matrix) (y : list R) :=
  call_train_model X y None
    (params_kwargs
       ++ [("criterion"%string, KwCriterion criterion_focal_loss)]).

(** Experiment 4 (lines 392-398) *)
Definition experiment4 (X : matrix) (y teacher_preds : list R) :=
  call_train_model X y (Some teacher_preds)
    (params_kwargs
       ++ [("criterion"%string,
            KwCriterion criterion_knowledge_distillation_loss)]).

(** The four experiment cells in the order of the notebook; a cell that
    raises leaves the world as it is when the exception is raised. *)
Definition experiment_cells (X : matrix) (y teacher_preds : list R)
           (w : world) : world :=
  let w := snd (experiment1 X y w) in
  let w := snd (experiment2 X y teacher_preds w) in
  let w := snd (experiment3 X y w) in
  snd (experiment4 X y teacher_preds w).

End Training.

(** ** Inference and submission (notebook lines 433-467) *)

(** [outputs[:, 0]] *)
Fixpoint first_column (outputs : tensor) : result (list R) :=
  match outputs with
  | [] => Ok []
  | row :: outputs' =>
      match row with
      | [] => Raise IndexError
      | v :: _ =>
          rest <- first_column outputs' ;;
          Ok (v :: rest)
      end
  end.

(** Lines 445-448: the predictions of one model, batch by batch. *)
Fixpoint predict_batches (input_shape : nat) (model : StudentModel)
         (loader : list tensor) : result (list (list R)) :=
  match loader with
  | [] => Ok []
  | batch_X :: loader' =>
      outputs <- model_call input_shape model batch_X ;;
      p <- first_column outputs ;;
      rest <- predict_batches input_shape model loader' ;;
      Ok (p :: rest)
  end.

(** [np.concatenate], which refuses an empty list of arrays. *)
Definition np_concatenate (arrays : list (list R)) : result (list R) :=
  match arrays with
  | [] => Raise (ValueError "need at least one array to concatenate")
  | _ => Ok (concat arrays)
  end.

(** Lines 437-451: the body of the loop over the folds, for a model of
    [input_shape] features ([X.shape[1]]). *)
Definition predict_fold (fs : filesystem) (input_shape batch_size : nat)
           (X_test : matrix) (fold : nat) : result (list R) :=
  state <- fs_load fs (checkpoint_path fold) ;;
  model <- load_state_dict input_shape state ;;
  batch_size <- DataLoader_new batch_size ;;
  let test_loader := batches batch_size X_test in
  fold_preds <- predict_batches input_shape model test_loader ;;
  np_concatenate fold_preds.

(** Lines 436-451: [for fold in range(n_splits)], from fold [fold] on. *)
Fixpoint predict_folds (fs : filesystem) (input_shape batch_size : nat)
         (X_test : matrix) (folds : list nat) (test_preds : list (list R))
  : result (list (list R)) :=
  match folds with
  | [] => Ok test_preds
  | fold :: folds' =>
      fold_preds <- predict_fold fs input_shape batch_size X_test fold ;;
      predict_folds fs input_shape batch_size X_test folds'
                    (test_preds ++ [fold_preds])
  end.

(** [pd.DataFrame({'id': ids, 'target': final_preds})] for the column
    [ids] of the test frame: the array of predictions must have the length
    of that column. *)
Definition make_submission (ids : list nat) (final_preds : list R)
  : result (list (nat * R)) :=
  if (length ids =? length final_preds)%nat then Ok (combine ids final_preds)
  else Raise (ValueError
                ("array length " ++ string_of_nat (length final_preds)
                   ++ " does not match index length "
                   ++ string_of_nat (length ids))%string).

(** Lines 436-461: the rows written to [submission.csv], for the width
    [input_shape] of the training matrix ([X.shape[1]]), the test
    identifiers [ids] and the test features [X_test].  The notebook runs it
    with [n_splits = 5]; the model follows NumPy for at least one fold. *)
Definition inference (fs : filesystem) (input_shape n_splits batch_size : nat)
           (ids : list nat) (X_test : matrix) : result (list (nat * R)) :=
  test_preds <-
    predict_folds fs input_shape batch_size X_test (seq 0 n_splits) [] ;;
  let final_preds := mean_axis0 (length (hd [] test_preds)) test_preds in
  make_submission ids final_preds.

(** ** Specification-level definitions

    These follow the words of the specification; the theorems below compare
    them with the definitions taken from the notebook. *)

(** A prediction clamped into [[epsilon, 1 - epsilon]]. *)
Definition clamped (p : R) : R :=
  clamp focal_epsilon (1 - focal_epsilon) p.

(** [(1 - p')^gamma * (- y * log p')] for the clamped prediction [p']. *)
Definition focal_term (gamma y p : R) : R :=
  Rpower (1 - clamped p) gamma * (- y * ln (clamped p)).

(** The mean of the focal terms over all the elements. *)
Definition focal_loss_spec (y p : tensor) (gamma : R) : R :=
  Rsum (zip_with (focal_term gamma) (concat y) (concat p)) / INR (numel p).

(** A label is binary. *)
Definition binary (y : R) : Prop := y = 0 \/ y = 1.

(** A relation that holds between the elements of three tensors, position
    by position. *)
Inductive Forall3 {A B C} (P : A -> B -> C -> Prop)
  : list A -> list B -> list C -> Prop :=
| Forall3_nil : Forall3 P [] [] []
| Forall3_cons a b c la lb lc :
    P a b c -> Forall3 P la lb lc ->
    Forall3 P (a :: la) (b :: lb) (c :: lc).

(** For the label [y], the prediction [q] is at least as far from [y] as
    the prediction [p]; both predictions are probabilities. *)
Definition not_closer (y p q : R) : Prop :=
  binary y /\ 0 <= p <= 1 /\ 0 <= q <= 1 /\ Rabs (p - y) <= Rabs (q - y).

(** The term of one element in the body of [focal_loss] without its
    clamping line: [(1 - p) ** gamma * (-y * log p)] in the arithmetic of
    the floats. *)
Definition noclamp_term (gamma y p : R) : xfloat :=
  xmul (Finite (float_pow (1 - p) gamma))
       (xmul (xneg (Finite y)) (xlog (Finite p))).

(** [a <= b] for floats: false when one of them is NaN. *)
Definition xle (a b : xfloat) : Prop :=
  match a, b with
  | NaN, _ | _, NaN => False
  | _, _ => xlt b a = false
  end.

(** A loss that is a number not below 0, or [inf]. *)
Definition loss_value (a : xfloat) : Prop :=
  a = PInf \/ exists u, a = Finite u /\ 0 <= u.

(** [a <= b] between such losses. *)
Definition loss_le (a b : xfloat) : Prop :=
  loss_value a
  /\ (b = PInf \/ exists u v, a = Finite u /\ b = Finite v /\ u <= v).

(** A reference [BCELoss], after the documentation of PyTorch: the mean of
    [- (t * log x + (1 - t) * log (1 - x))], each logarithm bounded below by
    [-100].  It instantiates the section variable in closed examples. *)
Definition reference_BCELoss (input target : tensor) : R :=
  torch_mean
    (tmap2 (fun x t => - (t * Rmax (ln x) (-100)
                          + (1 - t) * Rmax (ln (1 - x)) (-100)))
           input target).

(** The rank vector of a column: the argsort of its argsort. *)
Definition rank_vector (argsort_float : list R -> list nat)
           (argsort_int : list nat -> list nat) (xs : list R) : list nat :=
  argsort_int (argsort_float xs).

(** The matrix that [fit_transform] is written to return: entry [(r, c)] is
    the Gaussian score of the rank of [X[r][c]] in column [c]. *)
Definition rank_gauss_matrix (argsort_float : list R -> list nat)
           (argsort_int : list nat -> list nat) (erfinv : R -> R)
           (X : matrix) : matrix :=
  map (fun r =>
         map (fun c =>
                rank_to_gauss erfinv GaussRankScaler_init (length X)
                  (nth r (rank_vector argsort_float argsort_int
                                      (column 0 c X)) 0%nat))
             (seq 0 (ncols X)))
      (seq 0 (length X)).

(** The contract of [np.argsort]: a permutation of the positions that lists
    the values in ascending order. *)
Definition sorts_float (argsort : list R -> list nat) : Prop :=
  forall l,
    Permutation (argsort l) (seq 0 (length l))
    /\ StronglySorted (fun a b => nth a l 0 <= nth b l 0) (argsort l).

Definition sorts_int (argsort : list nat -> list nat) : Prop :=
  forall l,
    Permutation (argsort l) (seq 0 (length l))
    /\ StronglySorted (fun a b => (nth a l 0 <= nth b l 0)%nat) (argsort l).

(** What the scaler needs of [erfinv]: it is strictly increasing on
    [(-1, 1)], and odd. *)
Definition increasing_on_unit (f : R -> R) : Prop :=
  forall x y, -1 < x -> x < y -> y < 1 -> f x < f y.

Definition odd_function (f : R -> R) : Prop :=
  forall x, f (- x) = - f x.

(** The smaller of a running minimum [a] and a new value [b]; a NaN never
    replaces the minimum. *)
Definition xmin (a b : xfloat) : xfloat := if xlt b a then b else a.

(** The minimum of a list of losses, [inf] for the empty list. *)
Definition minimum (l : list xfloat) : xfloat := fold_left xmin l PInf.

(** The index arrays of a split stay below [n]. *)
Definition split_in_range (n : nat) (s : list nat * list nat) : Prop :=
  Forall (fun i => (i < n)%nat) (fst s)
  /\ Forall (fun i => (i < n)%nat) (snd s).

Section TrainingSpec.

Context {B : Backend}.

(** The contract of [KFold.split] for [2 <= n_splits <= n]: it yields
    [n_splits] pairs of index arrays, none of them empty, with every index
    below [n]. *)
Definition KFold_contract : Prop :=
  forall n_splits n g,
    (2 <= n_splits)%nat -> (n_splits <= n)%nat ->
    let splits := fst (KFold_split n_splits n g) in
    length splits = n_splits
    /\ Forall (fun s : list nat * list nat =>
                 fst s <> [] /\ snd s <> []
                 /\ Forall (fun i => (i < n)%nat) (fst s)
                 /\ Forall (fun i => (i < n)%nat) (snd s))
              splits.



(** The mean validation loss of a model: the mean, over the batches of the
    validation rows in their own order, of the distillation loss of the
    outputs of the model. *)
Definition mean_validation_loss (batch_size : nat) (X_val y_val : tensor)
           (model : StudentModel) : xfloat :=
  np_mean
    (zip_with (fun batch_X batch_y =>
                 knowledge_distillation_loss BCELoss batch_y
                                             (forward model batch_X)
                                             default_beta)
              (batches batch_size X_val) (batches batch_size y_val)).

Section OneFold.
Variables (fold batch_size : nat) (X_train y_train X_val y_val : tensor).
Variable s0 : fold_state.

(** The variables of the fold after [e] epochs. *)
Definition state_after (e : nat) : fold_state :=
  epoch_loop e fold batch_size X_train y_train X_val y_val s0.

(** The mean validation loss of epoch [e] (the first epoch is 0): the
    loss of the model that the training pass of that epoch leaves. *)
Definition epoch_val_loss (e : nat) : xfloat :=
  mean_validation_loss batch_size X_val y_val (st_model (state_after (S e))).

(** The mean validation losses of the first [n] epochs. *)
Definition val_losses (n : nat) : list xfloat :=
  map epoch_val_loss (seq 0 n).
End OneFold.

(** One fold of a run of [train_model]: its index, the world it starts
    from, its data and the variables of its epoch loop at the start. *)
Record fold_run : Type := {
  run_fold : nat;
  run_world : world;
  run_X_train : tensor;
  run_y_train : tensor;
  run_X_val : tensor;
  run_y_val : tensor;
  run_init : fold_state
}.

Definition run_final (epochs batch_size : nat) (r : fold_run)
  : fold_state :=
  state_after (run_fold r) batch_size (run_X_train r) (run_y_train r)
              (run_X_val r) (run_y_val r) (run_init r) epochs.

Definition run_val_losses (epochs batch_size : nat) (r : fold_run)
  : list xfloat :=
  val_losses (run_fold r) batch_size (run_X_train r) (run_y_train r)
             (run_X_val r) (run_y_val r) (run_init r) epochs.

(** The folds of a run, each starting from the world that the fold before
    it leaves. *)
Fixpoint fold_runs (X : matrix) (y teacher_preds : list R)
         (epochs batch_size fold : nat)
         (splits : list (list nat * list nat)) (w : world)
  : list fold_run :=
  match splits with
  | [] => []
  | (train_idx, val_idx) :: splits' =>
      match fold_setup X y (Some teacher_preds) train_idx val_idx
                       batch_size w with
      | Raise _ => []
      | Ok (X_train, y_train, X_val, y_val, s) =>
          let r := {| run_fold := fold; run_world := w;
                      run_X_train := X_train; run_y_train := y_train;
                      run_X_val := X_val; run_y_val := y_val;
                      run_init := s |} in
          r :: fold_runs X y teacher_preds epochs batch_size (S fold)
                         splits'
                         (st_world (run_final epochs batch_size r))
      end
  end.





(** The world that the last of the folds leaves. *)
Definition world_after (epochs batch_size : nat) (runs : list fold_run)
           (w : world) : world :=
  fold_left (fun _ r => st_world (run_final epochs batch_size r)) runs w.

End TrainingSpec.

(** ** Checkpoint writes as a log *)

(** The file system after the writes [ws], in order. *)
Definition apply_writes (ws : list (string * StudentModel))
           (fs : filesystem) : filesystem :=
  fold_left (fun fs w => fs_write fs (fst w) (snd w)) ws fs.

(** The model that the last write to [p] in [ws] leaves there. *)
Fixpoint last_write (ws : list (string * StudentModel)) (p : string)
  : option StudentModel :=
  match ws with
  | [] => None
  | (q, m) :: ws' =>
      match last_write ws' p with
      | Some m' => Some m'
      | None => if String.eqb p q then Some m else None
      end
  end.

(** ** A stand-in for the libraries

    A deterministic [Backend] for closed examples: interleaved folds, weights
    initialised to zero, an optimiser that leaves the model as it is, and a
    loader that reverses the order of the rows. *)

Definition interleaved_folds (k n : nat) : list (list nat * list nat) :=
  map (fun f =>
         (filter (fun i => negb (i mod k =? f)%nat) (seq 0 n),
          filter (fun i => (i mod k =? f)%nat) (seq 0 n)))
      (seq 0 k).

Definition zero_model (input_shape : nat) : StudentModel :=
  {| layer1 := {| weight := repeat (repeat 0 input_shape) 16;
                  bias := repeat 0 16 |};
     output := {| weight := repeat (repeat 0 16%nat) 2;
                  bias := repeat 0 2 |} |}.

Definition test_backend : Backend := {|
  BCELoss := reference_BCELoss;
  rng := nat;
  KFold_split := fun k n g => (interleaved_folds k n, S g);
  StudentModel_new := fun d g => (zero_model d, S g);
  optimizer := unit;
  Adam := fun _ => tt;
  backward_step := fun m o _ _ => (m, o);
  randperm := fun n g => (rev (seq 0 n), S g)
|}.

Definition empty_fs : filesystem := fun _ => None.

(** ** Inference, in the words of the specification *)

(** The value of the unit [k] of a linear layer on the row [x]: the sum over
    the features of weight times feature, plus the bias of the unit. *)
Definition unit_value (l : Linear) (k : nat) (x : list R) : R :=
  Rsum (map (fun i => nth i (nth k (weight l) []) 0 * nth i x 0)
            (seq 0 (length x)))
  + nth k (bias l) 0.

(** The first output of a [StudentModel] for the row [x]: the sigmoid of
    the first output unit over the 16 rectified hidden units. *)
Definition first_probability (m : StudentModel) (x : list R) : R :=
  let hidden :=
    map (fun j => Rmax 0 (unit_value (layer1 m) j x)) (seq 0 16) in
  1 / (1 + exp (- unit_value (output m) 0 hidden)).

(** The average over the folds [0 .. n_splits-1] of the first outputs of
    the checkpointed models. *)
Definition average_probability (fs : filesystem) (n_splits : nat)
           (x : list R) : R :=
  Rsum (map (fun fold =>
               match fs (checkpoint_path fold) with
               | Some m => first_probability m x
               | None => 0
               end)
            (seq 0 n_splits))
  / INR n_splits.

(** The output layer of the model has at least one unit. *)
Definition has_output (m : StudentModel) : Prop :=
  weight (output m) <> [] /\ bias (output m) <> [].

(** The first output of the model for the row [x]. *)
Definition first_output (m : StudentModel) (x : list R) : R :=
  nth 0 (forward_row m x) 0.

(** The prediction for the row [x] of the model checkpointed for the fold
    [fold]. *)
Definition fold_prediction (fs : filesystem) (fold : nat) (x : list R) : R :=
  match fs (checkpoint_path fold) with
  | Some m => first_output m x
  | None => 0
  end.

(** The average of the predictions of the folds [0 .. n_splits-1]. *)
Definition average_prediction (fs : filesystem) (n_splits : nat)
           (x : list R) : R :=
  Rsum (map (fun fold => fold_prediction fs fold x) (seq 0 n_splits))
  / INR n_splits.

(** An argsort is stable when positions that hold equal values come out in
    ascending order. *)
Definition stable_float (argsort : list R -> list nat) : Prop :=
  forall l p q,
    (p < q)%nat -> (q < length l)%nat ->
    nth (nth p (argsort l) 0%nat) l 0 = nth (nth q (argsort l) 0%nat) l 0 ->
    (nth p (argsort l) 0 < nth q (argsort l) 0)%nat.

(** [M[r, c]] *)
Definition entry {A} (d : A) (M : list (list A)) (r c : nat) : A :=
  nth c (nth r M []) d.

(** ** Datasets and loaders (notebook lines 126-135) *)

(** [CustomDataset]: the two tensors that [__init__] stores. *)
Record CustomDataset : Type := {
  features : tensor;
  targets : tensor
}.

(** [__len__] *)
Definition CustomDataset_len (ds : CustomDataset) : nat :=
  length (features ds).

(** [__getitem__] for an index that is not negative: indexing a tensor
    past its end raises IndexError. *)
Definition CustomDataset_getitem (ds : CustomDataset) (idx : nat)
  : result (list R * list R) :=
  match nth_error (features ds) idx with
  | None => Raise IndexError
  | Some f =>
      match nth_error (targets ds) idx with
      | None => Raise IndexError
      | Some t => Ok (f, t)
      end
  end.

(** The items of one batch of indices, fetched in order. *)
Fixpoint fetch_items (ds : CustomDataset) (idxs : list nat)
  : result (list (list R * list R)) :=
  match idxs with
  | [] => Ok []
  | i :: idxs' =>
      item <- CustomDataset_getitem ds i ;;
      rest <- fetch_items ds idxs' ;;
      Ok (item :: rest)
  end.

(** The default collation: the features and the targets of the items are
    stacked. *)
Definition collate (items : list (list R * list R)) : tensor * tensor :=
  (map fst items, map snd items).

Fixpoint load_batches (ds : CustomDataset) (index_batches : list (list nat))
  : result (list (tensor * tensor)) :=
  match index_batches with
  | [] => Ok []
  | idxs :: rest =>
      items <- fetch_items ds idxs ;;
      more <- load_batches ds rest ;;
      Ok (collate items :: more)
  end.

(** Iterating [DataLoader(ds, batch_size)] with the sampler order [order]:
    [0 .. len-1] without shuffling, a permutation of it with. *)
Definition DataLoader_iter (ds : CustomDataset) (batch_size : nat)
           (order : list nat) : result (list (tensor * tensor)) :=
  batch_size <- DataLoader_new batch_size ;;
  load_batches ds (batches batch_size order).

(** ** [predict] (notebook lines 425-430) *)

(** The model refuses rows whose width is not the number of input features
    of its first layer, [layer1.weight.shape[1]]. *)
Definition predict (model : StudentModel) (X : matrix) : result matrix :=
  model_call (ncols (weight (layer1 model))) model X.

(** ** Data frames and feature engineering (notebook lines 264-276) *)

(** A data frame: its columns in order, each a name and its values. *)
Definition DataFrame := list (string * list R).

Inductive key_error : Type :=
| KeyError (key : string).

(** [df[c]] *)
Fixpoint df_get (df : DataFrame) (c : string) : key_error + list R :=
  match df with
  | [] => inl (KeyError c)
  | (name, values) :: df' =>
      if String.eqb name c then inr values else df_get df' c
  end.

(** [df[c] = values]: an existing column keeps its place, a new one goes
    last. *)
Fixpoint df_set (df : DataFrame) (c : string) (values : list R)
  : DataFrame :=
  match df with
  | [] => [(c, values)]
  | (name, old) :: df' =>
      if String.eqb name c then (name, values) :: df'
      else (name, old) :: df_set df' c values
  end.

Definition df_columns (df : DataFrame) : list string := map fst df.

(** [np.log1p], for arguments above -1. *)
Definition log1p (x : R) : R := ln (1 + x).

(** [add_features] (lines 264-267).  The frame is changed in place: the
    first component is the frame after the call, also when the call raises;
    the second is the exception, if any (the call returns the frame). *)
Definition add_features (df : DataFrame) : DataFrame * option key_error :=
  match df_get df "f_2" with
  | inl e => (df, Some e)
  | inr f_2 =>
      let df := df_set df "f_2_log" (map log1p f_2) in
      match df_get df "f_28" with
      | inl e => (df, Some e)
      | inr f_28 =>
          let df := df_set df "f_28_log" (map log1p f_28) in
          (df, None)
      end
  end.

(** [[col for col in df.columns if col.startswith('f_')]] (line 273) *)
Definition feature_cols (df : DataFrame) : list string :=
  filter (String.prefix "f_") (df_columns df).

(** The columns [cols] of the frame, in that order. *)
Fixpoint df_select (df : DataFrame) (cols : list string)
  : key_error + list (list R) :=
  match cols with
  | [] => inr []
  | c :: cols' =>
      match df_get df c with
      | inl e => inl e
      | inr v =>
          match df_select df cols' with
          | inl e => inl e
          | inr vs => inr (v :: vs)
          end
      end
  end.

Definition df_nrows (df : DataFrame) : nat :=
  match df with
  | [] => 0%nat
  | (_, values) :: _ => length values
  end.

(** [df[cols].values]: the matrix with one row per row of the frame. *)
Definition df_values (df : DataFrame) (cols : list string)
  : key_error + matrix :=
  match df_select df cols with
  | inl e => inl e
  | inr columns => inr (from_columns 0 (df_nrows df) columns)
  end.

(** ** Clean-up (notebook lines 465-466) *)

(** [os.remove]: a missing file raises FileNotFoundError. *)
Definition os_remove (fs : filesystem) (path : string) : result filesystem :=
  match fs path with
  | Some _ => Ok (fs_remove fs path)
  | None => Raise (FileNotFoundError path)
  end.

(** [for fold in ...: os.remove(checkpoint)]: the files after the loop, also
    when it raises, and the exception if any. *)
Fixpoint cleanup_loop (fs : filesystem) (folds : list nat)
  : filesystem * option exn :=
  match folds with
  | [] => (fs, None)
  | fold :: folds' =>
      match os_remove fs (checkpoint_path fold) with
      | Raise e => (fs, Some e)
      | Ok fs' => cleanup_loop fs' folds'
      end
  end.

Definition cleanup (fs : filesystem) (n_splits : nat)
  : filesystem * option exn :=
  cleanup_loop fs (seq 0 n_splits).

(** * Proofs *)

(** ** Facts on tensors *)

Lemma zip_with_length {A B C} (f : A -> B -> C) l1 l2 :
  length l1 = length l2 -> length (zip_with f l1 l2) = length l1.
Proof.
  revert l2; induction l1 as [|a l1 IH]; intros [|b l2] H; simpl in *;
    try discriminate; auto.
Qed.

Lemma zip_with_app {A B C} (f : A -> B -> C) l1 l2 m1 m2 :
  length l1 = length l2 ->
  zip_with f (l1 ++ m1) (l2 ++ m2) = zip_with f l1 l2 ++ zip_with f m1 m2.
Proof.
  revert l2; induction l1 as [|a l1 IH]; intros [|b l2] H; simpl in *;
    try discriminate; auto.
  f_equal; auto.
Qed.

Lemma zip_with_map_l {A A' B C} (f : A' -> B -> C) (g : A -> A') l1 l2 :
  zip_with f (map g l1) l2 = zip_with (fun a b => f (g a) b) l1 l2.
Proof.
  revert l2; induction l1 as [|a l1 IH]; intros [|b l2]; simpl; auto.
  f_equal; auto.
Qed.

Lemma zip_with_map_r {A B B' C} (f : A -> B' -> C) (g : B -> B') l1 l2 :
  zip_with f l1 (map g l2) = zip_with (fun a b => f a (g b)) l1 l2.
Proof.
  revert l2; induction l1 as [|a l1 IH]; intros [|b l2]; simpl; auto.
  f_equal; auto.
Qed.

Lemma zip_with_zip_with_r {A B C D} (f : A -> D -> C) (g : A -> B -> D)
      (l1 : list A) (l2 : list B) :
  zip_with f l1 (zip_with g l1 l2)
  = zip_with (fun a b => f a (g a b)) l1 l2.
Proof.
  revert l2; induction l1 as [|a l1 IH]; intros [|b l2]; simpl; auto.
  f_equal; auto.
Qed.

Lemma concat_tmap2 (f : R -> R -> R) (a b : tensor) :
  same_shape a b ->
  concat (tmap2 f a b) = zip_with f (concat a) (concat b).
Proof.
  unfold tmap2.
  induction 1 as [|r1 r2 a b Hr Hab IH]; simpl; auto.
  rewrite zip_with_app by assumption. now rewrite IH.
Qed.

Lemma concat_tmap (f : R -> R) (t : tensor) :
  concat (tmap f t) = map f (concat t).
Proof. unfold tmap. now rewrite concat_map. Qed.

Lemma same_shape_numel a b : same_shape a b -> numel a = numel b.
Proof.
  unfold numel. induction 1 as [|r1 r2 a b Hr Hab IH]; simpl; auto.
  rewrite !length_app. congruence.
Qed.

Lemma same_shape_concat_length a b :
  same_shape a b -> length (concat a) = length (concat b).
Proof. apply same_shape_numel. Qed.

Lemma same_shape_refl a : same_shape a a.
Proof. induction a; constructor; auto. Qed.


Lemma same_shape_tmap_l f a b : same_shape a b -> same_shape (tmap f a) b.
Proof.
  unfold same_shape, tmap. induction 1; simpl; constructor; auto.
  now rewrite length_map.
Qed.

Lemma same_shape_sym a b : same_shape a b -> same_shape b a.
Proof. unfold same_shape. induction 1; constructor; auto. Qed.

Lemma same_shape_trans a b c :
  same_shape a b -> same_shape b c -> same_shape a c.
Proof.
  unfold same_shape. intros H; revert c.
  induction H; intros c Hc; inversion Hc; subst; constructor; auto.
  congruence.
Qed.

Lemma same_shape_tmap2 f a b : same_shape a b -> same_shape (tmap2 f a b) a.
Proof.
  unfold same_shape, tmap2. induction 1; simpl; constructor; auto.
  now apply zip_with_length.
Qed.

Lemma Rsum_app l1 l2 : Rsum (l1 ++ l2) = Rsum l1 + Rsum l2.
Proof. unfold Rsum. induction l1; simpl; lra. Qed.

(** The three element-wise passes of [focal_loss] fuse into one. *)
Lemma zip_with_focal_fuse (f g : R -> R) (Y P : list R) :
  zip_with Rmult (map f P) (zip_with Rmult (map Ropp Y) (map g P))
  = zip_with (fun y p => f p * (- y * g p)) Y P.
Proof.
  revert P; induction Y as [|y Y IH]; intros [|p P]; simpl; auto.
  f_equal; auto.
Qed.

Lemma zip_with_ext_in {A B C} (f g : A -> B -> C) l1 l2 :
  (forall a b, In a l1 -> In b l2 -> f a b = g a b) ->
  zip_with f l1 l2 = zip_with g l1 l2.
Proof.
  revert l2; induction l1 as [|a l1 IH]; intros [|b l2] H; simpl; auto.
  f_equal; [apply H; simpl; auto | apply IH; intros; apply H; simpl; auto].
Qed.

Lemma focal_epsilon_pos : 0 < focal_epsilon < 1 - focal_epsilon.
Proof. unfold focal_epsilon; lra. Qed.

Lemma clamped_bounds p :
  focal_epsilon <= clamped p <= 1 - focal_epsilon.
Proof.
  pose proof focal_epsilon_pos as He.
  unfold clamped, clamp, Rmin, Rmax.
  destruct (Rle_dec p focal_epsilon); destruct (Rle_dec _ _); lra.
Qed.

Lemma clamped_inside p :
  focal_epsilon <= p <= 1 - focal_epsilon -> clamped p = p.
Proof.
  pose proof focal_epsilon_pos as He.
  unfold clamped, clamp, Rmin, Rmax.
  destruct (Rle_dec p focal_epsilon); destruct (Rle_dec _ _); lra.
Qed.

Lemma clamped_mono p q : p <= q -> clamped p <= clamped q.
Proof.
  pose proof focal_epsilon_pos as He.
  unfold clamped, clamp, Rmin, Rmax.
  repeat destruct (Rle_dec _ _); lra.
Qed.

Lemma float_pow_pos x g : 0 < x -> float_pow x g = Rpower x g.
Proof. intros Hx. unfold float_pow. destruct (Req_dec_T x 0); [lra|auto]. Qed.

(** The element-wise passes of [focal_loss], from the predictions [p] that
    reach the logarithm. *)
Lemma focal_passes_fuse y p gamma :
  same_shape y p ->
  torch_mean
    (tmap2 Rmult (tmap (fun q => float_pow (1 - q) gamma) p)
           (tmap2 Rmult (tmap Ropp y) (tmap ln p)))
  = Rsum (zip_with (fun yi pi => float_pow (1 - pi) gamma * (- yi * ln pi))
                   (concat y) (concat p))
    / INR (numel p).
Proof.
  intros Hs. unfold torch_mean.
  assert (Hyl : same_shape (tmap Ropp y) (tmap ln p)).
  { apply same_shape_tmap_l, same_shape_sym, same_shape_tmap_l,
      same_shape_sym, Hs. }
  assert (Hce : same_shape (tmap2 Rmult (tmap Ropp y) (tmap ln p)) p).
  { eapply same_shape_trans; [apply same_shape_tmap2, Hyl|].
    now apply same_shape_tmap_l. }
  assert (Hfw : same_shape (tmap (fun q => float_pow (1 - q) gamma) p)
                           (tmap2 Rmult (tmap Ropp y) (tmap ln p))).
  { apply same_shape_tmap_l, same_shape_sym, Hce. }
  f_equal.
  - rewrite (concat_tmap2 _ _ _ Hfw), (concat_tmap2 _ _ _ Hyl).
    rewrite !concat_tmap.
    now rewrite (zip_with_focal_fuse (fun q => float_pow (1 - q) gamma) ln).
  - f_equal.
    rewrite (same_shape_numel _ _ (same_shape_tmap2 _ _ _ Hfw)).
    apply same_shape_numel, same_shape_tmap_l, same_shape_refl.
Qed.

Lemma numel_tmap f t : numel (tmap f t) = numel t.
Proof. unfold numel. now rewrite concat_tmap, length_map. Qed.

(** The body of [focal_loss], pass by pass, against its closed form. *)
Lemma focal_loss_unfold y p gamma :
  same_shape y p ->
  focal_loss y p gamma = focal_loss_spec y p gamma.
Proof.
  intros Hs. unfold focal_loss, focal_loss_spec.
  rewrite focal_passes_fuse
    by (apply same_shape_sym, same_shape_tmap_l, same_shape_sym, Hs).
  rewrite numel_tmap, concat_tmap, zip_with_map_r.
  f_equal. f_equal. apply zip_with_ext_in. intros a b _ _.
  unfold focal_term. fold (clamped b).
  rewrite float_pow_pos; auto.
  pose proof (clamped_bounds b). pose proof focal_epsilon_pos. lra.
Qed.

(** C2.  For a label tensor [y] and a prediction tensor [p] of one shape,
    [focal_loss y p gamma] is the mean over all the elements of
    [(1 - p')^gamma * (- y * log p')], where [p'] is [p] clamped into
    [[epsilon, 1 - epsilon]]: the clamped value lies in that interval, is
    positive (so the logarithm never receives 0) and is [p] itself when [p]
    is already inside; the default of [gamma] is 2. *)
Theorem focal_loss_is_mean_of_clamped_terms :
  forall (y p : tensor) (gamma : R),
    same_shape y p ->
    focal_loss y p gamma
    = Rsum (zip_with (fun yi pi =>
                        Rpower (1 - clamped pi) gamma
                        * (- yi * ln (clamped pi)))
                     (concat y) (concat p))
      / INR (numel p)
    /\ (forall x, focal_epsilon <= clamped x <= 1 - focal_epsilon
                  /\ 0 < clamped x)
    /\ (forall x, focal_epsilon <= x <= 1 - focal_epsilon -> clamped x = x)
    /\ default_gamma = 2.
Proof.
  intros y p gamma Hs. repeat split.
  - now rewrite focal_loss_unfold.
  - apply clamped_bounds.
  - apply clamped_bounds.
  - pose proof (clamped_bounds x). pose proof focal_epsilon_pos. lra.
  - apply clamped_inside.
Qed.

Lemma focal_loss_is_mean_of_clamped_terms_witness :
  focal_loss [[1]; [0]] [[0.5]; [0.25]] 2
  = Rsum (zip_with (fun yi pi =>
                      Rpower (1 - clamped pi) 2 * (- yi * ln (clamped pi)))
                   [1; 0] [0.5; 0.25])
    / INR 2.
Proof.
  apply (focal_loss_is_mean_of_clamped_terms [[1]; [0]] [[0.5]; [0.25]] 2).
  repeat constructor.
Defined.

(** ** The distillation loss *)

Lemma slices_of_two_columns (t : tensor) :
  Forall (fun r => length r = 2%nat) t ->
  slice_to_1 t = col 0 t /\ slice_from_1 t = col 1 t.
Proof.
  unfold slice_to_1, slice_from_1, col.
  intros H; split; induction H as [|r t Hr Ht IH]; simpl; auto;
    destruct r as [|a [|b [|c r]]]; simpl in Hr; try discriminate;
    cbn [map firstn skipn nth]; f_equal; exact IH.
Qed.

Section LossProofs.

Variable BCELoss : tensor -> tensor -> R.

(** C1.  For a target matrix with the label in its first column and the
    teacher probability in its second, and a prediction matrix with two
    columns, [knowledge_distillation_loss] is
    [beta * focal_loss(label, first student column)
     + (1 - beta) * BCE(second student column, teacher probability)];
    with the default [beta] the weights are 0.1 and 0.9. *)
Theorem knowledge_distillation_loss_is_weighted_sum :
  forall (y_true y_pred : tensor) (beta : R),
    Forall (fun r => length r = 2%nat) y_true ->
    Forall (fun r => length r = 2%nat) y_pred ->
    knowledge_distillation_loss BCELoss y_true y_pred beta
    = beta * focal_loss (col 0 y_true) (col 0 y_pred) 2
      + (1 - beta) * BCELoss (col 1 y_pred) (col 1 y_true)
    /\ knowledge_distillation_loss BCELoss y_true y_pred default_beta
       = 0.1 * focal_loss (col 0 y_true) (col 0 y_pred) 2
         + 0.9 * BCELoss (col 1 y_pred) (col 1 y_true).
Proof.
  intros y_true y_pred beta Ht Hp.
  destruct (slices_of_two_columns _ Ht) as [Ht1 Ht2].
  destruct (slices_of_two_columns _ Hp) as [Hp1 Hp2].
  unfold knowledge_distillation_loss, default_gamma, default_beta.
  rewrite Ht1, Ht2, Hp1, Hp2. split; [reflexivity | lra].
Qed.

End LossProofs.

Lemma knowledge_distillation_loss_is_weighted_sum_witness :
  knowledge_distillation_loss reference_BCELoss
                              [[1; 0.75]; [0; 0.25]] [[0.5; 0.5]; [0.5; 0.25]]
                              0.5
  = 0.5 * focal_loss [[1]; [0]] [[0.5]; [0.5]] 2
    + (1 - 0.5) * reference_BCELoss [[0.5]; [0.25]] [[0.75]; [0.25]].
Proof.
  apply (knowledge_distillation_loss_is_weighted_sum
           reference_BCELoss
           [[1; 0.75]; [0; 0.25]] [[0.5; 0.5]; [0.5; 0.25]] 0.5);
    repeat constructor.
Defined.

(** ** Focal loss at an exact match, and under a growing error *)

Lemma Forall3_app {A B C} (P : A -> B -> C -> Prop) la lb lc la' lb' lc' :
  Forall3 P la lb lc -> Forall3 P la' lb' lc' ->
  Forall3 P (la ++ la') (lb ++ lb') (lc ++ lc').
Proof. induction 1; simpl; auto. intros. constructor; auto. Qed.

Lemma Forall3_concat {A B C} (P : A -> B -> C -> Prop) ta tb tc :
  Forall3 (Forall3 P) ta tb tc ->
  Forall3 P (concat ta) (concat tb) (concat tc).
Proof.
  induction 1; simpl; [constructor|]. now apply Forall3_app.
Qed.

Lemma Forall3_length {A B C} (P : A -> B -> C -> Prop) la lb lc :
  Forall3 P la lb lc -> length la = length lb /\ length la = length lc.
Proof. induction 1; simpl; intuition congruence. Qed.

Lemma Forall3_same_shape (P : R -> R -> R -> Prop) (y p q : tensor) :
  Forall3 (Forall3 P) y p q -> same_shape y p /\ same_shape y q.
Proof.
  unfold same_shape.
  induction 1 as [|a b c la lb lc H _ [IH1 IH2]]; split; constructor; auto;
    apply Forall3_length in H; tauto.
Qed.

Lemma Forall3_weaken {A B C} (P Q : A -> B -> C -> Prop) la lb lc :
  (forall a b c, P a b c -> Q a b c) ->
  Forall3 P la lb lc -> Forall3 Q la lb lc.
Proof. intros HPQ. induction 1; constructor; auto. Qed.

(** Sums of terms that grow position by position. *)
Lemma Rsum_zip_with_le (P : R -> R -> R -> Prop) (f : R -> R -> R) Y L M :
  (forall y p q, P y p q -> f y p <= f y q) ->
  Forall3 P Y L M ->
  Rsum (zip_with f Y L) <= Rsum (zip_with f Y M).
Proof.
  intros Hf. induction 1 as [|y p q Y L M Hpq _ IH]; simpl; [lra|].
  apply Hf in Hpq. lra.
Qed.

Lemma Rinv_INR_nonneg n : 0 <= / INR n.
Proof.
  destruct n as [|n].
  - simpl. rewrite Rinv_0. lra.
  - left. apply Rinv_0_lt_compat, lt_0_INR. lia.
Qed.

Lemma ln_le_mono x y : 0 < x -> x <= y -> ln x <= ln y.
Proof.
  intros Hx [Hlt | ->]; [left; now apply ln_increasing | right; reflexivity].
Qed.

Lemma ln_nonpos x : 0 < x -> x <= 1 -> ln x <= 0.
Proof. intros Hx Hx1. rewrite <- ln_1. now apply ln_le_mono. Qed.

Lemma Rpower_nonneg x g : 0 <= Rpower x g.
Proof. unfold Rpower. left. apply exp_pos. Qed.

Lemma float_pow_nonneg x g : 0 <= float_pow x g.
Proof.
  unfold float_pow. destruct (Req_dec_T x 0); [|apply Rpower_nonneg].
  destruct (Req_dec_T g 0); lra.
Qed.

Lemma float_pow_mono x y g :
  0 <= g -> 0 <= x <= y -> float_pow x g <= float_pow y g.
Proof.
  intros Hg [Hx Hxy]. unfold float_pow.
  destruct (Req_dec_T x 0) as [Hx0 | Hx0];
    destruct (Req_dec_T y 0) as [Hy0 | Hy0]; try lra.
  - destruct (Req_dec_T g 0) as [-> | Hg0].
    + rewrite Rpower_O; lra.
    + apply Rpower_nonneg.
  - apply Rle_Rpower_l; lra.
Qed.

(** With the label 1, a prediction that is not closer to the label has a
    term that is not smaller; with the label 0 the term is 0. *)
Lemma focal_term_not_closer gamma y p q :
  0 <= gamma -> not_closer y p q ->
  focal_term gamma y p <= focal_term gamma y q.
Proof.
  intros Hg (Hy & Hp & Hq & Hd). unfold focal_term.
  destruct Hy as [-> | ->]; [lra|].
  rewrite !Rabs_left1 in Hd by lra.
  assert (Hqp : q <= p) by lra.
  pose proof (clamped_bounds p) as Bp. pose proof (clamped_bounds q) as Bq.
  pose proof (clamped_mono _ _ Hqp) as Hc. pose proof focal_epsilon_pos as He.
  apply Rmult_le_compat.
  - apply Rpower_nonneg.
  - pose proof (ln_nonpos (clamped p)). lra.
  - apply Rle_Rpower_l; lra.
  - pose proof (ln_le_mono (clamped q) (clamped p)). lra.
Qed.

(** *** The body without the clamping line *)

Lemma row_noclamp_fuse gamma (Y P : list R) :
  zip_with xmul (map (fun p => Finite (float_pow (1 - p) gamma)) P)
           (zip_with xmul (map xneg (map Finite Y))
                     (map xlog (map Finite P)))
  = zip_with (noclamp_term gamma) Y P.
Proof.
  revert P; induction Y as [|y Y IH]; intros [|p P]; simpl; auto.
  f_equal; auto.
Qed.

Lemma focal_loss_noclamp_unfold y p gamma :
  same_shape y p ->
  focal_loss_noclamp y p gamma
  = torch_mean_x (zip_with (noclamp_term gamma) (concat y) (concat p)).
Proof.
  intros Hs. unfold focal_loss_noclamp. f_equal.
  induction Hs as [|r1 r2 y p Hr Hyp IH]; [reflexivity|].
  cbn [map zip_with concat]. rewrite row_noclamp_fuse.
  rewrite zip_with_app by assumption. f_equal. exact IH.
Qed.

Lemma float_pow_one_pos g : 0 < float_pow 1 g.
Proof.
  unfold float_pow. destruct (Req_dec_T 1 0); [lra|].
  unfold Rpower. apply exp_pos.
Qed.

(** The term of a label 1: finite for a positive prediction, [inf] for the
    prediction 0. *)
Lemma noclamp_term_label_one gamma p :
  0 <= p ->
  noclamp_term gamma 1 p
  = if Req_dec_T p 0 then PInf
    else Finite (float_pow (1 - p) gamma * (- (1) * ln p)).
Proof.
  intros Hp. unfold noclamp_term, xlog, xneg.
  destruct (Req_dec_T p 0) as [-> | Hne].
  - destruct (Rlt_dec 0 0); [lra|].
    cbn [xmul]. unfold scale_infinity.
    destruct (Rlt_dec 0 (- (1))); [lra|].
    destruct (Rlt_dec (- (1)) 0); [|lra]. cbn [negb infinity xmul].
    replace (1 - 0) with 1 by lra. pose proof (float_pow_one_pos gamma).
    unfold scale_infinity. destruct (Rlt_dec 0 (float_pow 1 gamma)); [|lra].
    reflexivity.
  - destruct (Rlt_dec 0 p); [|lra]. reflexivity.
Qed.

(** The term of a label 0: 0 for a positive prediction, NaN for the
    prediction 0, where the floats multiply 0 by [-inf]. *)
Lemma noclamp_term_label_zero gamma p :
  0 <= p ->
  noclamp_term gamma 0 p = if Req_dec_T p 0 then NaN else Finite 0.
Proof.
  intros Hp. unfold noclamp_term, xlog, xneg.
  destruct (Req_dec_T p 0) as [-> | Hne].
  - destruct (Rlt_dec 0 0); [lra|].
    cbn [xmul]. unfold scale_infinity.
    destruct (Rlt_dec 0 (- 0)); [lra|].
    destruct (Rlt_dec (- 0) 0); [lra|]. reflexivity.
  - destruct (Rlt_dec 0 p); [|lra]. cbn [xmul]. f_equal.
    rewrite Ropp_0, Rmult_0_l. apply Rmult_0_r.
Qed.

Lemma loss_le_value a b : loss_le a b -> loss_value b.
Proof.
  intros [[-> | (u & -> & Hu)] [-> | (u' & v & Ha & -> & Huv)]];
    try (left; reflexivity); try discriminate.
  right. exists v. injection Ha as <-. split; [reflexivity | lra].
Qed.

Lemma xadd_loss_le a b c d :
  loss_le a b -> loss_le c d -> loss_le (xadd a c) (xadd b d).
Proof.
  intros Hab Hcd.
  pose proof (loss_le_value _ _ Hab) as Hb.
  pose proof (loss_le_value _ _ Hcd) as Hd.
  destruct Hab as [Ha Hab], Hcd as [Hc Hcd]. split.
  - destruct Ha as [-> | (u & -> & Hu)], Hc as [-> | (w & -> & Hw)];
      try (left; reflexivity).
    right. exists (u + w). split; [reflexivity | lra].
  - destruct Hab as [-> | (u & v & -> & -> & Huv)].
    + left. destruct Hd as [-> | (w & -> & _)]; reflexivity.
    + destruct Hcd as [-> | (w & z & -> & -> & Hwz)].
      * left. reflexivity.
      * right. exists (u + w), (v + z). repeat split. lra.
Qed.

Lemma sum_loss_le (L M : list xfloat) :
  Forall2 loss_le L M ->
  loss_le (fold_right xadd (Finite 0) L) (fold_right xadd (Finite 0) M).
Proof.
  induction 1 as [|a b L M Hab _ IH]; cbn [fold_right].
  - split; [right; exists 0; split; [reflexivity | lra]|].
    right. exists 0, 0. repeat split. lra.
  - now apply xadd_loss_le.
Qed.

Lemma torch_mean_x_le (L M : list xfloat) :
  L <> [] -> Forall2 loss_le L M ->
  xle (torch_mean_x L) (torch_mean_x M).
Proof.
  intros Hne H. pose proof (Forall2_length H) as Hlen.
  pose proof (sum_loss_le L M H) as Hs.
  unfold torch_mean_x.
  destruct L as [|a L]; [congruence|]. destruct M as [|b M]; [discriminate|].
  rewrite <- Hlen.
  assert (Hn : 0 < / INR (length (a :: L))).
  { apply Rinv_0_lt_compat, lt_0_INR. simpl. lia. }
  destruct Hs as [Ha Hs].
  destruct Hs as [-> | (u & v & -> & -> & Huv)].
  - destruct Ha as [-> | (u & -> & _)]; reflexivity.
  - cbn [xle xlt]. destruct (Rlt_dec _ _) as [Hlt|]; [|reflexivity].
    exfalso. unfold Rdiv in Hlt.
    apply Rmult_lt_reg_r in Hlt; [lra | exact Hn].
Qed.

Lemma Forall3_Forall2_loss (P : R -> R -> R -> Prop)
      (f g : R -> R -> xfloat) Y L M :
  (forall y p q, P y p q -> loss_le (f y p) (g y q)) ->
  Forall3 P Y L M ->
  Forall2 loss_le (zip_with f Y L) (zip_with g Y M).
Proof. intros Hf. induction 1; simpl; constructor; auto. Qed.

(** Without the clamping: a prediction that is not closer to the label has
    a term that is not smaller, unless the prediction is 0 at a label 0. *)
Lemma noclamp_term_not_closer gamma y p q :
  0 <= gamma -> not_closer y p q /\ (y = 0 -> p <> 0) ->
  loss_le (noclamp_term gamma y p) (noclamp_term gamma y q).
Proof.
  intros Hg [(Hy & Hp & Hq & Hd) Hz].
  destruct Hy as [-> | ->].
  - specialize (Hz eq_refl).
    rewrite Rminus_0_r, Rminus_0_r, !Rabs_right in Hd by lra.
    rewrite !noclamp_term_label_zero by lra.
    destruct (Req_dec_T p 0); [contradiction|].
    destruct (Req_dec_T q 0); [lra|].
    split; [right; exists 0; split; [reflexivity | lra]|].
    right. exists 0, 0. repeat split. lra.
  - rewrite !Rabs_left1 in Hd by lra.
    assert (Hqp : q <= p) by lra.
    rewrite !noclamp_term_label_one by lra.
    assert (Hval : forall r, 0 < r <= 1 ->
                             0 <= float_pow (1 - r) gamma * (- (1) * ln r)).
    { intros r Hr. apply Rmult_le_pos; [apply float_pow_nonneg|].
      pose proof (ln_nonpos r). lra. }
    destruct (Req_dec_T p 0) as [Hp0 | Hp0];
      destruct (Req_dec_T q 0) as [Hq0 | Hq0]; try lra.
    + split; [left; reflexivity | left; reflexivity].
    + split; [|left; reflexivity].
      right. eexists. split; [reflexivity|]. apply Hval. lra.
    + split; [right; eexists; split; [reflexivity | apply Hval; lra]|].
      right. do 2 eexists. repeat split.
      apply Rmult_le_compat.
      * apply float_pow_nonneg.
      * pose proof (ln_nonpos p). lra.
      * apply float_pow_mono; lra.
      * pose proof (ln_le_mono q p). lra.
Qed.

Lemma noclamp_sum_all_ones gamma (Y : list R) :
  Forall (fun v => v = 1) Y ->
  fold_right xadd (Finite 0) (zip_with (noclamp_term gamma) Y Y)
  = Finite 0.
Proof.
  induction 1 as [|y Y -> _ IH]; [reflexivity|].
  cbn [zip_with fold_right]. rewrite IH.
  rewrite noclamp_term_label_one by lra.
  destruct (Req_dec_T 1 0); [lra|]. cbn [xadd]. f_equal.
  rewrite ln_1. lra.
Qed.

Lemma xadd_nan_r a : xadd a NaN = NaN.
Proof. now destruct a. Qed.

Lemma noclamp_sum_with_zero gamma (Y : list R) :
  Exists (fun v => v = 0) Y ->
  fold_right xadd (Finite 0) (zip_with (noclamp_term gamma) Y Y) = NaN.
Proof.
  induction 1 as [y Y -> | y Y _ IH]; cbn [zip_with fold_right].
  - rewrite noclamp_term_label_zero by lra.
    destruct (Req_dec_T 0 0); [reflexivity | lra].
  - rewrite IH. apply xadd_nan_r.
Qed.

Lemma Forall_concat {A} (P : A -> Prop) (t : list (list A)) :
  Forall (Forall P) t -> Forall P (concat t).
Proof. induction 1; simpl; [constructor|]. apply Forall_app; auto. Qed.

Lemma Exists_concat {A} (P : A -> Prop) (t : list (list A)) :
  Exists (Exists P) t -> Exists P (concat t).
Proof.
  induction 1 as [r t Hr | r t _ IH]; simpl; apply Exists_app; auto.
Qed.

Lemma Forall3_with_second {A B C} (P : A -> B -> C -> Prop)
      (Q : A -> B -> Prop) la lb lc :
  Forall3 P la lb lc -> Forall2 Q la lb ->
  Forall3 (fun a b c => P a b c /\ Q a b) la lb lc.
Proof.
  induction 1; intros HQ; inversion HQ; subst; constructor; auto.
Qed.

Lemma Forall2_concat {A B} (Q : A -> B -> Prop) ta tb :
  Forall2 (Forall2 Q) ta tb -> Forall2 Q (concat ta) (concat tb).
Proof.
  induction 1; simpl; [constructor|]. now apply Forall2_app.
Qed.

(** C8.  With binary labels, predictions that are probabilities and an
    exponent that is not negative.  When [q] is, element by element, at
    least as far from the label as [p], the loss of [q] is not smaller than
    the loss of [p]: for [focal_loss] as written, and for its body without
    the clamping line unless [p] is exactly 0 at a label 0 (the loss of [q]
    may then be [inf]).  Without the clamping line the loss of a prediction
    equal to the label is 0 when every label is 1, and NaN as soon as one
    label is 0. *)
Theorem focal_loss_zero_at_match_and_monotone :
  forall (y p q : tensor) (gamma : R),
    0 <= gamma ->
    Forall3 (Forall3 not_closer) y p q ->
    concat y <> [] ->
    focal_loss y p gamma <= focal_loss y q gamma
    /\ (Forall (Forall (fun v => v = 1)) y ->
        focal_loss_noclamp y y gamma = Finite 0)
    /\ (Exists (Exists (fun v => v = 0)) y ->
        focal_loss_noclamp y y gamma = NaN)
    /\ (Forall2 (Forall2 (fun yi pi => yi = 0 -> pi <> 0)) y p ->
        xle (focal_loss_noclamp y p gamma) (focal_loss_noclamp y q gamma)).
Proof.
  intros y p q gamma Hg H Hne.
  destruct (Forall3_same_shape _ _ _ _ H) as [Hyp Hyq].
  assert (Hpq : numel p = numel q).
  { rewrite <- (same_shape_numel _ _ Hyp). now apply same_shape_numel. }
  pose proof (Forall3_concat _ _ _ _ H) as Hflat.
  split; [|split; [|split]].
  - rewrite !focal_loss_unfold by assumption.
    unfold focal_loss_spec. rewrite Hpq.
    apply Rmult_le_compat_r; [apply Rinv_INR_nonneg|].
    eapply Rsum_zip_with_le; [|exact Hflat].
    intros; now apply focal_term_not_closer.
  - intros Hones.
    rewrite focal_loss_noclamp_unfold by apply same_shape_refl.
    unfold torch_mean_x.
    rewrite (noclamp_sum_all_ones gamma (concat y))
      by now apply Forall_concat.
    destruct (concat y) as [|a l]; [congruence|].
    cbn [zip_with]. f_equal. unfold Rdiv. apply Rmult_0_l.
  - intros Hzero.
    rewrite focal_loss_noclamp_unfold by apply same_shape_refl.
    unfold torch_mean_x.
    rewrite (noclamp_sum_with_zero gamma (concat y))
      by now apply Exists_concat.
    destruct (concat y) as [|a l]; [congruence|]. reflexivity.
  - intros Hz.
    rewrite !focal_loss_noclamp_unfold by assumption.
    apply torch_mean_x_le.
    + pose proof (same_shape_concat_length _ _ Hyp) as Hl.
      destruct (concat y) as [|a l]; [congruence|].
      destruct (concat p); [discriminate | discriminate].
    + apply Forall2_concat in Hz.
      pose proof (Forall3_with_second _ _ _ _ _ Hflat Hz) as Hall.
      eapply Forall3_Forall2_loss; [|exact Hall].
      intros a b c Habc. now apply noclamp_term_not_closer.
Qed.

(** At the labels [[0]] matched exactly, the body of [focal_loss] without
    its clamping line is NaN, not 0. *)
Lemma focal_loss_noclamp_nan_at_zero_label :
  focal_loss_noclamp [[0]] [[0]] default_gamma <> Finite 0.
Proof.
  assert (H : focal_loss_noclamp [[0]] [[0]] default_gamma = NaN).
  { rewrite focal_loss_noclamp_unfold by (repeat constructor).
    cbn [concat app zip_with]. unfold torch_mean_x.
    cbn [fold_right]. rewrite noclamp_term_label_zero by lra.
    destruct (Req_dec_T 0 0); [reflexivity | lra]. }
  rewrite H. discriminate.
Qed.

Lemma focal_loss_zero_at_match_and_monotone_witness :
  focal_loss [[1]; [0]] [[0.75]; [0.25]] 2
  <= focal_loss [[1]; [0]] [[0.5]; [0.5]] 2
  /\ xle (focal_loss_noclamp [[1]; [0]] [[0.75]; [0.25]] 2)
         (focal_loss_noclamp [[1]; [0]] [[0.5]; [0.5]] 2).
Proof.
  assert (H0 : 0 <= 2) by lra.
  assert (H1 : Forall3 (Forall3 not_closer)
                       [[1]; [0]] [[0.75]; [0.25]] [[0.5]; [0.5]]).
  { repeat constructor; try (right; reflexivity); try (left; reflexivity);
      try lra; unfold Rabs; repeat destruct (Rcase_abs _); lra. }
  assert (H2 : concat [[1]; [0]] <> []) by discriminate.
  destruct (focal_loss_zero_at_match_and_monotone _ _ _ _ H0 H1 H2)
    as (Hc & _ & _ & Hn).
  split; [exact Hc | apply Hn].
  repeat constructor; intros; lra.
Defined.

(** ** Lists, permutations and sorted index vectors *)

Lemma map_nth_seq {A} (d : A) (l : list A) :
  map (fun k => nth k l d) (seq 0 (length l)) = l.
Proof.
  apply nth_ext with (d := d) (d' := d).
  - now rewrite length_map, length_seq.
  - intros k Hk. rewrite length_map, length_seq in Hk.
    rewrite (nth_indep _ d (nth 0%nat l d)) by (now rewrite length_map, length_seq).
    rewrite (map_nth (fun k => nth k l d)), seq_nth by assumption.
    reflexivity.
Qed.

Lemma nth_map_seq {A} (f : nat -> A) (d : A) (n k : nat) :
  (k < n)%nat -> nth k (map f (seq 0 n)) d = f k.
Proof.
  intros Hk.
  rewrite (nth_indep _ d (f 0%nat)) by (now rewrite length_map, length_seq).
  rewrite (map_nth f), seq_nth by assumption. reflexivity.
Qed.

Lemma nth_map_default {A B} (f : A -> B) (l : list A) (d : A) (e : B) k :
  (k < length l)%nat -> nth k (map f l) e = f (nth k l d).
Proof.
  intros Hk.
  rewrite (nth_indep _ e (f d)) by (now rewrite length_map).
  apply map_nth.
Qed.

Lemma StronglySorted_map {A B} (f : A -> B) (P : B -> B -> Prop) l :
  StronglySorted (fun a b => P (f a) (f b)) l -> StronglySorted P (map f l).
Proof.
  induction 1 as [|a l Hl IH Ha]; simpl; constructor; auto.
  rewrite Forall_forall in *. intros b Hb.
  apply in_map_iff in Hb. destruct Hb as (x & <- & Hx). auto.
Qed.

Lemma StronglySorted_nth {A} (P : A -> A -> Prop) (d : A) l :
  StronglySorted P l ->
  forall p q, (p < q)%nat -> (q < length l)%nat -> P (nth p l d) (nth q l d).
Proof.
  induction 1 as [|a l Hl IH Ha]; intros p q Hpq Hq; simpl in Hq; [lia|].
  destruct q as [|q]; [lia|]. destruct p as [|p]; simpl.
  - rewrite Forall_forall in Ha. apply Ha, nth_In. lia.
  - apply IH; lia.
Qed.

Lemma StronglySorted_seq (s n : nat) : StronglySorted le (seq s n).
Proof.
  revert s; induction n as [|n IH]; intros s; simpl; constructor; auto.
  rewrite Forall_forall. intros x Hx. apply in_seq in Hx. lia.
Qed.

(** Two sorted lists of numbers with the same elements are equal. *)
Lemma StronglySorted_le_unique (l1 l2 : list nat) :
  StronglySorted le l1 -> StronglySorted le l2 -> Permutation l1 l2 ->
  l1 = l2.
Proof.
  intros H1; revert l2.
  induction H1 as [|a l1 Hl1 IH Ha]; intros l2 H2 Hp.
  - apply Permutation_nil in Hp. now subst.
  - destruct l2 as [|b l2];
      [apply Permutation_sym, Permutation_nil in Hp; discriminate|].
    inversion H2 as [|? ? Hl2 Hb]; subst.
    rewrite Forall_forall in Ha, Hb.
    assert (Hab : a = b).
    { assert (Ia : In a (b :: l2))
        by (eapply Permutation_in; [exact Hp | now left]).
      assert (Ib : In b (a :: l1))
        by (eapply Permutation_in;
            [apply Permutation_sym; exact Hp | now left]).
      destruct Ia as [Ia | Ia]; [now subst|].
      destruct Ib as [Ib | Ib]; [now subst|].
      apply Hb in Ia. apply Ha in Ib. lia. }
    subst b. f_equal. apply IH; auto.
    now apply Permutation_cons_inv in Hp.
Qed.

Lemma Permutation_seq_bound l n k :
  Permutation l (seq 0 n) -> (k < n)%nat -> (nth k l 0 < n)%nat.
Proof.
  intros Hp Hk.
  assert (Hl : length l = n)
    by (now rewrite (Permutation_length Hp), length_seq).
  assert (Hin : In (nth k l 0%nat) (seq 0 n)).
  { eapply Permutation_in; [exact Hp|]. apply nth_In. lia. }
  apply in_seq in Hin. lia.
Qed.

Lemma Permutation_seq_position l n v :
  Permutation l (seq 0 n) -> (v < n)%nat ->
  exists k, (k < n)%nat /\ nth k l 0%nat = v.
Proof.
  intros Hp Hv.
  assert (Hl : length l = n)
    by (now rewrite (Permutation_length Hp), length_seq).
  assert (Hin : In v l).
  { eapply Permutation_in; [apply Permutation_sym; exact Hp|].
    apply in_seq. lia. }
  destruct (In_nth _ _ 0%nat Hin) as (k & Hk & Hnth).
  exists k. split; [lia | exact Hnth].
Qed.

Lemma fold_left_min_le l x : (fold_left Nat.min l x <= x)%nat.
Proof.
  revert x; induction l as [|a l IH]; intros x; simpl; [lia|].
  specialize (IH (Nat.min x a)). lia.
Qed.

Lemma fold_left_min_zero l x :
  In 0%nat (x :: l) -> fold_left Nat.min l x = 0%nat.
Proof.
  revert x; induction l as [|a l IH]; intros x [H | H]; simpl in *.
  - now subst.
  - contradiction.
  - subst x. pose proof (fold_left_min_le l (Nat.min 0 a)). simpl in *. lia.
  - apply IH. destruct H as [-> | H]; [left; lia | now right].
Qed.

Lemma fold_left_max_ge l x : (x <= fold_left Nat.max l x)%nat.
Proof.
  revert x; induction l as [|a l IH]; intros x; simpl; [lia|].
  specialize (IH (Nat.max x a)). lia.
Qed.

Lemma fold_left_max_bound l x m :
  Forall (fun v => (v <= m)%nat) (x :: l) ->
  (fold_left Nat.max l x <= m)%nat.
Proof.
  revert x; induction l as [|a l IH]; intros x H; simpl.
  - now inversion H.
  - inversion H as [|? ? Hx Hl]; subst. inversion Hl; subst.
    apply IH. constructor; [lia | assumption].
Qed.

Lemma fold_left_max_in l x m :
  In m (x :: l) -> (m <= fold_left Nat.max l x)%nat.
Proof.
  revert x; induction l as [|a l IH]; intros x [H | H]; simpl in *.
  - subst; lia.
  - contradiction.
  - subst x. pose proof (fold_left_max_ge l (Nat.max m a)). lia.
  - destruct H as [-> | H].
    + pose proof (fold_left_max_ge l (Nat.max x m)). lia.
    + apply IH. now right.
Qed.

Lemma Rsum_perm l1 l2 : Permutation l1 l2 -> Rsum l1 = Rsum l2.
Proof. unfold Rsum. induction 1; simpl; lra. Qed.

Lemma rev_seq_mirror n :
  rev (seq 0 n) = map (fun r => (n - 1 - r)%nat) (seq 0 n).
Proof.
  induction n as [|n IH]; [reflexivity|].
  rewrite seq_S at 1. rewrite rev_app_distr. simpl rev. simpl app.
  rewrite <- cons_seq, <- seq_shift. cbn [map]. f_equal; [lia|].
  rewrite map_map, IH.
  apply map_ext. intros r. lia.
Qed.

(** A sum over [0 .. n-1] of a function that changes sign under the mirror
    [r -> n-1-r] is 0. *)
Lemma Rsum_mirror_zero (g : nat -> R) n :
  (forall r, (r <= n - 1)%nat -> g (n - 1 - r)%nat = - g r) ->
  (0 < n)%nat ->
  Rsum (map g (seq 0 n)) = 0.
Proof.
  intros Hg Hn.
  assert (H : Rsum (map g (seq 0 n)) = - Rsum (map g (seq 0 n))).
  { rewrite (Rsum_perm _ _ (Permutation_map g (Permutation_rev (seq 0 n))))
      at 1.
    rewrite rev_seq_mirror, map_map.
    assert (Hall : forall l, Forall (fun r => (r <= n - 1)%nat) l ->
                     Rsum (map (fun r => g (n - 1 - r)%nat) l)
                     = - Rsum (map g l)).
    { induction 1 as [|r l Hr _ IH]; simpl; [lra|]. rewrite Hg, IH by auto.
      lra. }
    apply Hall. rewrite Forall_forall. intros r Hr. apply in_seq in Hr. lia. }
  lra.
Qed.

(** ** Batches *)

Lemma concat_batches_fuel {A} (fuel batch_size : nat) (l : list A) :
  (1 <= batch_size)%nat -> (length l <= fuel)%nat ->
  concat (batches_fuel fuel batch_size l) = l.
Proof.
  intros Hb. revert l; induction fuel as [|fuel IH]; intros l Hl.
  - destruct l; [reflexivity | simpl in Hl; lia].
  - destruct l as [|a l]; [reflexivity|].
    cbn [batches_fuel concat]. rewrite IH.
    + apply firstn_skipn.
    + rewrite length_skipn. cbn [length] in *. lia.
Qed.

(** With a batch size of at least 1 the batches hold every item once, in
    order. *)
Lemma concat_batches {A} (batch_size : nat) (l : list A) :
  (1 <= batch_size)%nat -> concat (batches batch_size l) = l.
Proof. intros Hb. now apply concat_batches_fuel. Qed.



Lemma batches_nonempty {A} (batch_size : nat) (l : list A) :
  l <> [] -> batches batch_size l <> [].
Proof. destruct l; [congruence|]. intros _. discriminate. Qed.

Lemma map_fst_combine {A C} (l1 : list A) (l2 : list C) :
  length l1 = length l2 -> map fst (combine l1 l2) = l1.
Proof.
  revert l2; induction l1 as [|a l1 IH]; intros [|b l2] H;
    try discriminate; auto.
  simpl. f_equal. apply IH. now injection H.
Qed.

Lemma map_snd_combine {A C} (l1 : list A) (l2 : list C) :
  length l1 = length l2 -> map snd (combine l1 l2) = l2.
Proof.
  revert l2; induction l1 as [|a l1 IH]; intros [|b l2] H;
    try discriminate; auto.
  simpl. f_equal. apply IH. now injection H.
Qed.


(** Indexing by a permutation of the positions permutes the items. *)
Lemma take_permutation {A} (d : A) (a : list A) order :
  Permutation order (seq 0 (length a)) -> Permutation (take d a order) a.
Proof.
  intros Hp. unfold take.
  rewrite (Permutation_map (fun i => nth i a d) Hp).
  now rewrite map_nth_seq.
Qed.


(** ** The insertion argsort sorts *)

Section StableArgsortProofs.
Context {A : Type} (leb : A -> A -> bool) (d : A).
Hypothesis leb_total : forall x y, leb x y = true \/ leb y x = true.
Hypothesis leb_trans :
  forall x y z, leb x y = true -> leb y z = true -> leb x z = true.

Let key_le (a : list A) (i k : nat) : Prop :=
  leb (nth i a d) (nth k a d) = true.

Lemma insert_index_perm a i l :
  Permutation (insert_index leb d a i l) (i :: l).
Proof.
  induction l as [|k l IH]; simpl; auto.
  destruct (leb (nth i a d) (nth k a d)); auto.
  rewrite IH. apply perm_swap.
Qed.

Lemma insert_index_sorted a i l :
  StronglySorted (key_le a) l ->
  StronglySorted (key_le a) (insert_index leb d a i l).
Proof.
  induction 1 as [|k l Hl IH Hk]; simpl.
  - repeat constructor.
  - destruct (leb (nth i a d) (nth k a d)) eqn:E.
    + constructor; [constructor; auto|].
      constructor; [exact E|].
      rewrite Forall_forall in *. intros x Hx.
      unfold key_le in *. eapply leb_trans; [exact E | now apply Hk].
    + constructor; auto.
      rewrite Forall_forall in *. intros x Hx.
      apply (Permutation_in _ (insert_index_perm a i l)) in Hx.
      destruct Hx as [<- | Hx]; [|now apply Hk].
      unfold key_le. destruct (leb_total (nth i a d) (nth k a d)); congruence.
Qed.

Lemma stable_argsort_perm a :
  Permutation (stable_argsort leb d a) (seq 0 (length a)).
Proof.
  unfold stable_argsort.
  induction (seq 0 (length a)) as [|i l IH]; simpl; auto.
  rewrite insert_index_perm. now constructor.
Qed.

Lemma stable_argsort_sorted a :
  StronglySorted (key_le a) (stable_argsort leb d a).
Proof.
  unfold stable_argsort.
  induction (seq 0 (length a)) as [|i l IH]; simpl; [constructor|].
  now apply insert_index_sorted.
Qed.
(** Sorted by key and, among equal keys, by position. *)
Let key_then_index (a : list A) (i k : nat) : Prop :=
  key_le a i k /\ (key_le a k i -> (i < k)%nat).

Lemma insert_index_stable a i l :
  Forall (fun k => (i < k)%nat) l ->
  StronglySorted (key_then_index a) l ->
  StronglySorted (key_then_index a) (insert_index leb d a i l).
Proof.
  intros Hgt Hs. induction Hs as [|k l Hl IH Hk]; simpl.
  - repeat constructor.
  - inversion Hgt as [|? ? Hik Hgt']; subst.
    destruct (leb (nth i a d) (nth k a d)) eqn:E.
    + constructor; [constructor; auto|].
      constructor; [split; auto|].
      rewrite Forall_forall in *. intros x Hx. split.
      * unfold key_le. eapply leb_trans; [exact E|]. now apply Hk.
      * intros _. now apply Hgt'.
    + constructor; [now apply IH|].
      rewrite Forall_forall in *. intros x Hx.
      apply (Permutation_in _ (insert_index_perm a i l)) in Hx.
      destruct Hx as [<- | Hx]; [|now apply Hk].
      split.
      * unfold key_le.
        destruct (leb_total (nth i a d) (nth k a d)); congruence.
      * unfold key_le. congruence.
Qed.

Lemma stable_argsort_key_then_index a :
  StronglySorted (key_then_index a) (stable_argsort leb d a).
Proof.
  unfold stable_argsort.
  assert (H : forall s n,
             StronglySorted (key_then_index a)
                            (fold_right (insert_index leb d a) [] (seq s n))
             /\ Forall (fun k => (s <= k)%nat)
                       (fold_right (insert_index leb d a) [] (seq s n))).
  { intros s n; revert s. induction n as [|n IH]; intros s; simpl.
    - split; constructor.
    - destruct (IH (S s)) as [Hs Hge]. split.
      + apply insert_index_stable; [|exact Hs].
        eapply Forall_impl; [|exact Hge]. simpl. intros; lia.
      + rewrite Forall_forall in *. intros x Hx.
        apply (Permutation_in _ (insert_index_perm a s _)) in Hx.
        destruct Hx as [<- | Hx]; [lia|]. apply Hge in Hx. lia. }
  apply H.
Qed.

Lemma stable_argsort_ties a p q :
  (p < q)%nat -> (q < length a)%nat ->
  leb (nth (nth q (stable_argsort leb d a) 0%nat) a d)
      (nth (nth p (stable_argsort leb d a) 0%nat) a d) = true ->
  (nth p (stable_argsort leb d a) 0 < nth q (stable_argsort leb d a) 0)%nat.
Proof.
  intros Hpq Hq Hle.
  assert (Hlen : length (stable_argsort leb d a) = length a).
  { now rewrite (Permutation_length (stable_argsort_perm a)), length_seq. }
  pose proof (StronglySorted_nth _ 0%nat _ (stable_argsort_key_then_index a)
                                 p q Hpq) as H.
  rewrite Hlen in H. destruct (H Hq) as [_ Hidx]. now apply Hidx.
Qed.

End StableArgsortProofs.

Lemma Rleb_le x y : Rleb x y = true <-> x <= y.
Proof. unfold Rleb. destruct (Rle_dec x y); split; auto; discriminate. Qed.

Lemma StronglySorted_weaken {A} (P Q : A -> A -> Prop) l :
  (forall a b, P a b -> Q a b) -> StronglySorted P l -> StronglySorted Q l.
Proof.
  intros HPQ. induction 1 as [|a l Hl IH Ha]; constructor; auto.
  eapply Forall_impl; [|exact Ha]. auto.
Qed.

Lemma stable_argsort_float_perm (l : list R) :
  Permutation (stable_argsort Rleb 0 l) (seq 0 (length l)).
Proof. apply stable_argsort_perm. Qed.

Lemma stable_argsort_float_sorted (l : list R) :
  StronglySorted (fun a b => nth a l 0 <= nth b l 0) (stable_argsort Rleb 0 l).
Proof.
  eapply StronglySorted_weaken;
    [|apply stable_argsort_sorted with (leb := Rleb)].
  - intros a b H. now apply Rleb_le.
  - intros x y. rewrite !Rleb_le. lra.
  - intros x y z. rewrite !Rleb_le. lra.
Qed.

Lemma stable_argsort_int_perm (l : list nat) :
  Permutation (stable_argsort Nat.leb 0%nat l) (seq 0 (length l)).
Proof. apply stable_argsort_perm. Qed.

Lemma stable_argsort_int_sorted (l : list nat) :
  StronglySorted (fun a b => (nth a l 0 <= nth b l 0)%nat)
                 (stable_argsort Nat.leb 0%nat l).
Proof.
  eapply StronglySorted_weaken;
    [|apply stable_argsort_sorted with (leb := Nat.leb)].
  - intros a b H. now apply Nat.leb_le.
  - intros x y. rewrite !Nat.leb_le. lia.
  - intros x y z. rewrite !Nat.leb_le. lia.
Qed.

Lemma stable_argsort_stable_float : stable_float (stable_argsort Rleb 0).
Proof.
  intros l p q Hpq Hq Heq. apply stable_argsort_ties; auto.
  - intros x y. rewrite !Rleb_le. lra.
  - intros x y z. rewrite !Rleb_le. lra.
  - rewrite Heq. apply Rleb_le. lra.
Qed.

(** ** The RankGauss scaler *)

Lemma length_from_columns {A} (d : A) n cols :
  length (from_columns d n cols) = n.
Proof. unfold from_columns. now rewrite length_map, length_seq. Qed.

Lemma ncols_from_columns {A} (d : A) n cols :
  (0 < n)%nat -> ncols (from_columns d n cols) = length cols.
Proof.
  intros Hn. unfold from_columns, ncols.
  destruct n as [|n]; [lia|]. simpl. now rewrite length_map.
Qed.

Lemma column_from_columns {A} (d : A) n cols c :
  (c < length cols)%nat -> length (nth c cols []) = n ->
  column d c (from_columns d n cols) = nth c cols [].
Proof.
  intros Hc Hlen. unfold column, from_columns. rewrite map_map.
  transitivity (map (fun k => nth k (nth c cols []) d)
                    (seq 0 (length (nth c cols []))));
    [|apply map_nth_seq].
  rewrite Hlen. apply map_ext. intros r.
  now rewrite (nth_map_default (fun cl => nth r cl d) cols [] d).
Qed.

Lemma columns_from_columns {A} (d : A) n cols :
  (0 < n)%nat -> Forall (fun cl => length cl = n) cols ->
  columns d (from_columns d n cols) = cols.
Proof.
  intros Hn Hall. unfold columns. rewrite ncols_from_columns by assumption.
  transitivity (map (fun k => nth k cols []) (seq 0 (length cols)));
    [|apply map_nth_seq].
  apply map_ext_in. intros c Hc. apply in_seq in Hc.
  apply column_from_columns; [lia|].
  rewrite Forall_forall in Hall. apply Hall, nth_In. lia.
Qed.

Lemma columns_length {A} (d : A) (X : list (list A)) :
  Forall (fun cl => length cl = length X) (columns d X).
Proof.
  unfold columns, column. rewrite Forall_forall. intros cl Hcl.
  apply in_map_iff in Hcl. destruct Hcl as (c & <- & _).
  now rewrite length_map.
Qed.

Lemma length_columns {A} (d : A) (X : list (list A)) :
  length (columns d X) = ncols X.
Proof. unfold columns. now rewrite length_map, length_seq. Qed.

Lemma in_concat_from_columns {A} (d : A) n cols r c :
  (r < n)%nat -> (c < length cols)%nat ->
  In (nth r (nth c cols []) d) (concat (from_columns d n cols)).
Proof.
  intros Hr Hc. apply in_concat.
  exists (map (fun cl => nth r cl d) cols). split.
  - unfold from_columns. apply in_map_iff. exists r. split; auto.
    apply in_seq. lia.
  - apply in_map_iff. exists (nth c cols []). split; auto.
    now apply nth_In.
Qed.

Lemma concat_from_columns_inv {A} (d : A) n cols v :
  In v (concat (from_columns d n cols)) ->
  exists r cl, (r < n)%nat /\ In cl cols /\ v = nth r cl d.
Proof.
  intros Hin. apply in_concat in Hin. destruct Hin as (row & Hrow & Hv).
  unfold from_columns in Hrow. apply in_map_iff in Hrow.
  destruct Hrow as (r & <- & Hr). apply in_seq in Hr.
  apply in_map_iff in Hv. destruct Hv as (cl & <- & Hcl).
  exists r, cl. repeat split; auto. lia.
Qed.

Section ScalerProofs.

Variable argsort_float : list R -> list nat.
Variable argsort_int : list nat -> list nat.
Variable erfinv : R -> R.
Hypothesis float_sorts : sorts_float argsort_float.
Hypothesis int_sorts : sorts_int argsort_int.

Local Abbreviation ranks := (rank_vector argsort_float argsort_int).

Lemma argsort_float_length xs : length (argsort_float xs) = length xs.
Proof.
  destruct (float_sorts xs) as [Hp _].
  now rewrite (Permutation_length Hp), length_seq.
Qed.

Lemma ranks_perm xs : Permutation (ranks xs) (seq 0 (length xs)).
Proof.
  unfold rank_vector.
  destruct (int_sorts (argsort_float xs)) as [Hp _].
  now rewrite argsort_float_length in Hp.
Qed.

Lemma ranks_length xs : length (ranks xs) = length xs.
Proof. now rewrite (Permutation_length (ranks_perm xs)), length_seq. Qed.

(** The rank of position [k] is the place of [k] in the argsort. *)
Lemma ranks_inverse xs k :
  (k < length xs)%nat ->
  nth (nth k (ranks xs) 0%nat) (argsort_float xs) 0%nat = k.
Proof.
  intros Hk. unfold rank_vector.
  set (i := argsort_float xs).
  destruct (int_sorts i) as [Hp Hs].
  destruct (float_sorts xs) as [Hip _]. fold i in Hip.
  assert (Hli : length i = length xs) by apply argsort_float_length.
  assert (Heq : map (fun p => nth p i 0%nat) (argsort_int i)
                = seq 0 (length xs)).
  { apply StronglySorted_le_unique.
    - now apply StronglySorted_map.
    - apply StronglySorted_seq.
    - eapply Permutation_trans; [apply Permutation_map, Hp|].
      now rewrite map_nth_seq. }
  assert (Hlen : length (argsort_int i) = length xs).
  { now rewrite (Permutation_length Hp), length_seq. }
  rewrite <- (nth_map_default (fun p => nth p i 0%nat) _ 0%nat 0%nat)
    by lia.
  rewrite Heq. now apply seq_nth.
Qed.

(** A strictly smaller value has a strictly smaller rank. *)
Lemma ranks_monotone xs a b :
  (a < length xs)%nat -> (b < length xs)%nat ->
  nth a xs 0 < nth b xs 0 ->
  (nth a (ranks xs) 0 < nth b (ranks xs) 0)%nat.
Proof.
  intros Ha Hb Hlt.
  pose proof (ranks_inverse xs a Ha) as Ia.
  pose proof (ranks_inverse xs b Hb) as Ib.
  pose proof (Permutation_seq_bound _ _ a (ranks_perm xs) Ha) as Ba.
  pose proof (Permutation_seq_bound _ _ b (ranks_perm xs) Hb) as Bb.
  destruct (float_sorts xs) as [_ Hs].
  destruct (Nat.lt_trichotomy (nth a (ranks xs) 0%nat)
                              (nth b (ranks xs) 0%nat))
    as [H | [H | H]]; auto.
  - exfalso. assert (Hab : a = b) by congruence. subst b. lra.
  - exfalso. pose proof (StronglySorted_nth _ 0%nat _ Hs _ _ H) as Hle.
    rewrite argsort_float_length in Hle. specialize (Hle Ba).
    simpl in Hle. rewrite Ia, Ib in Hle. lra.
Qed.

(** Under a stable argsort, equal values are ranked by position. *)
Lemma ranks_ties xs a b :
  stable_float argsort_float ->
  (a < b)%nat -> (b < length xs)%nat ->
  nth a xs 0 = nth b xs 0 ->
  (nth a (ranks xs) 0 < nth b (ranks xs) 0)%nat.
Proof.
  intros Hst Hab Hb Heq.
  assert (Ha : (a < length xs)%nat) by lia.
  pose proof (ranks_inverse xs a Ha) as Ia.
  pose proof (ranks_inverse xs b Hb) as Ib.
  pose proof (Permutation_seq_bound _ _ a (ranks_perm xs) Ha) as Ba.
  destruct (Nat.lt_trichotomy (nth a (ranks xs) 0%nat)
                              (nth b (ranks xs) 0%nat))
    as [H | [H | H]]; auto.
  - exfalso. assert (a = b) by congruence. lia.
  - exfalso. pose proof (Hst xs _ _ H Ba) as Hlt.
    rewrite Ia, Ib in Hlt. specialize (Hlt (eq_sym Heq)). lia.
Qed.

(** The integer matrix [j] of [fit_transform] holds the rank vectors of
    the columns. *)
Lemma double_argsort_ranks (X : matrix) :
  (0 < length X)%nat ->
  argsort_axis0_int argsort_int (argsort_axis0_float argsort_float X)
  = from_columns 0%nat (length X) (map ranks (columns 0 X)).
Proof.
  intros Hn. unfold argsort_axis0_int, argsort_axis0_float.
  rewrite length_from_columns.
  rewrite columns_from_columns; [now rewrite map_map | assumption |].
  rewrite Forall_forall. intros cl Hcl.
  apply in_map_iff in Hcl. destruct Hcl as (xs & <- & Hxs).
  rewrite argsort_float_length.
  pose proof (columns_length 0 X) as Hall.
  rewrite Forall_forall in Hall. now apply Hall.
Qed.

Lemma rank_entry_bound (X : matrix) v :
  In v (concat (from_columns 0%nat (length X) (map ranks (columns 0 X)))) ->
  (v <= length X - 1)%nat.
Proof.
  intros Hin. apply concat_from_columns_inv in Hin.
  destruct Hin as (r & cl & Hr & Hcl & ->).
  apply in_map_iff in Hcl. destruct Hcl as (xs & <- & Hxs).
  pose proof (columns_length 0 X) as Hall.
  rewrite Forall_forall in Hall. specialize (Hall _ Hxs).
  pose proof (ranks_perm xs) as Hp. rewrite Hall in Hp.
  pose proof (Permutation_seq_bound _ _ r Hp Hr). lia.
Qed.

Lemma rank_entry_occurs (X : matrix) v :
  (0 < ncols X)%nat -> (v < length X)%nat ->
  In v (concat (from_columns 0%nat (length X) (map ranks (columns 0 X)))).
Proof.
  intros Hc Hv.
  assert (Hlen : (0 < length (map ranks (columns 0%R X)))%nat)
    by (now rewrite length_map, length_columns).
  set (xs := nth 0 (columns 0 X) []).
  assert (Hxs : length xs = length X).
  { pose proof (columns_length 0 X) as Hall.
    rewrite Forall_forall in Hall. apply Hall, nth_In.
    now rewrite length_columns. }
  pose proof (ranks_perm xs) as Hp. rewrite Hxs in Hp.
  destruct (Permutation_seq_position _ _ v Hp Hv) as (r & Hr & Hnth).
  rewrite <- Hnth.
  replace (ranks xs) with (nth 0 (map ranks (columns 0 X)) []).
  - now apply in_concat_from_columns.
  - unfold xs. apply (nth_map_default ranks).
    now rewrite length_columns.
Qed.

Lemma assertions_pass (X : matrix) :
  (0 < length X)%nat -> (0 < ncols X)%nat ->
  let j := argsort_axis0_int argsort_int
                             (argsort_axis0_float argsort_float X) in
  array_min j = Ok 0%nat /\ array_max j = Ok (length j - 1)%nat.
Proof.
  intros Hn Hc j. subst j. rewrite double_argsort_ranks by assumption.
  rewrite length_from_columns.
  unfold array_min, array_max.
  pose proof (rank_entry_occurs X 0 Hc Hn) as H0.
  assert (Hlast : (length X - 1 < length X)%nat) by lia.
  pose proof (rank_entry_occurs X _ Hc Hlast) as H1.
  pose proof (rank_entry_bound X) as Hb.
  destruct (concat _) as [|x l]; [contradiction|]. split.
  - now rewrite fold_left_min_zero.
  - f_equal. apply Nat.le_antisymm.
    + apply fold_left_max_bound. rewrite Forall_forall. exact Hb.
    + now apply fold_left_max_in.
Qed.

Lemma scipy_not_imported :
  lookup_global notebook_globals "scipy" = Raise (NameError "scipy").
Proof. reflexivity. Qed.

(** What [fit_transform] does on a matrix with at least one row and one
    column, by the binding of the name [scipy]. *)
Lemma fit_transform_run (globals : list string) (X : matrix) :
  (0 < length X)%nat -> (0 < ncols X)%nat ->
  fit_transform argsort_float argsort_int erfinv globals
                GaussRankScaler_init X
  = (set_divider GaussRankScaler_init
                 (INR (length X - 1) / range GaussRankScaler_init),
     _ <- lookup_global globals "scipy" ;;
     Ok (rank_gauss_matrix argsort_float argsort_int erfinv X)).
Proof.
  intros Hn Hc. unfold fit_transform.
  destruct (assertions_pass X Hn Hc) as [Hmin Hmax].
  rewrite Hmin. simpl negb. cbv iota.
  rewrite Hmax. rewrite Nat.eqb_refl. simpl negb. cbv iota.
  rewrite double_argsort_ranks by assumption.
  rewrite length_from_columns.
  unfold get_divider. simpl divider. cbv iota.
  destruct (lookup_global globals "scipy"); simpl bind; [|reflexivity].
  f_equal. f_equal.
  unfold rank_gauss_matrix, from_columns, tmap, columns.
  rewrite !map_map. apply map_ext. intros r.
  rewrite !map_map. apply map_ext. intros c.
  reflexivity.
Qed.

(** The ranks [0 .. n-1] go onto [[lower, upper]]: rank 0 to [lower],
    rank [n-1] to [upper]. *)
Lemma rescaled_rank_bounds (n r : nat) :
  (2 <= n)%nat -> (r <= n - 1)%nat ->
  let self := GaussRankScaler_init in
  let t := INR r / (INR (n - 1) / range self) - upper self in
  lower self <= t <= upper self
  /\ (r = 0%nat -> t = lower self)
  /\ (r = (n - 1)%nat -> t = upper self).
Proof.
  intros Hn Hr self t. subst self t. simpl range. simpl upper. simpl lower.
  assert (Hm : 0 < INR (n - 1)) by (apply lt_0_INR; lia).
  assert (Hx : 0 <= INR r <= INR (n - 1))
    by (split; [apply pos_INR | apply le_INR; lia]).
  set (m := INR (n - 1)) in *. set (x := INR r) in *.
  replace (x / (m / (1 - 1e-9 - (-1 + 1e-9)) ) - (1 - 1e-9))
    with ((x / m) * (2 - 2e-9) - (1 - 1e-9)) by (field; lra).
  assert (Hq : 0 <= x / m <= 1).
  { split.
    - apply Rmult_le_pos; [lra | left; now apply Rinv_0_lt_compat].
    - apply (Rmult_le_reg_r m); [lra|]. field_simplify; lra. }
  repeat split.
  - nra.
  - nra.
  - intros ->. unfold x. simpl INR. lra.
  - intros ->. unfold x. fold m. replace (m / m) with 1 by (field; lra).
    lra.
Qed.

(** C3.  On a matrix with at least one row and one column, [fit_transform]
    computes the ranks of each column, stores the divider and rescales, and
    then raises NameError at [scipy.special.erfinv]: the notebook never
    imports [scipy].  With that one name bound, the call returns the
    matrix of [erfinv] of the ranks rescaled onto [[lower, upper]]. *)
Theorem fit_transform_raises_NameError :
  forall X : matrix,
    (0 < length X)%nat -> (0 < ncols X)%nat ->
    fit_transform argsort_float argsort_int erfinv notebook_globals
                  GaussRankScaler_init X
    = (set_divider GaussRankScaler_init
                   (INR (length X - 1) / range GaussRankScaler_init),
       Raise (NameError "scipy"))
    /\ fit_transform argsort_float argsort_int erfinv
                     ("scipy"%string :: notebook_globals)
                     GaussRankScaler_init X
       = (set_divider GaussRankScaler_init
                      (INR (length X - 1) / range GaussRankScaler_init),
          Ok (rank_gauss_matrix argsort_float argsort_int erfinv X))
    /\ (forall c, (c < ncols X)%nat ->
          Permutation (ranks (column 0 c X)) (seq 0 (length X)))
    /\ (stable_float argsort_float ->
        forall c a b,
          (c < ncols X)%nat -> (a < b)%nat -> (b < length X)%nat ->
          nth c (nth a X []) 0 = nth c (nth b X []) 0 ->
          (nth a (ranks (column 0%R c X)) 0
           < nth b (ranks (column 0%R c X)) 0)%nat)
    /\ (forall r, (2 <= length X)%nat -> (r <= length X - 1)%nat ->
          let t := INR r / (INR (length X - 1) / range GaussRankScaler_init)
                   - upper GaussRankScaler_init in
          lower GaussRankScaler_init <= t <= upper GaussRankScaler_init).
Proof.
  intros X Hn Hc.
  split; [now rewrite fit_transform_run|].
  split; [now rewrite fit_transform_run|].
  split; [|split].
  - intros c _. pose proof (ranks_perm (column 0 c X)) as Hp.
    unfold column in Hp at 2. now rewrite length_map in Hp.
  - intros Hst c a b _ Hab Hb Heq.
    assert (Hlen : length (column 0 c X) = length X)
      by (unfold column; now rewrite length_map).
    apply ranks_ties; auto; [now rewrite Hlen|].
    unfold column.
    rewrite !(nth_map_default (fun r => nth c r 0) X [] 0) by lia.
    exact Heq.
  - intros r Hn2 Hr. now apply rescaled_rank_bounds.
Qed.

(** Under the notebook's global names no call of [fit_transform] returns a
    value, whatever [np.argsort] does. *)
Lemma fit_transform_no_value (self : GaussRankScaler) (X M : matrix) :
  snd (fit_transform argsort_float argsort_int erfinv notebook_globals
                     self X) <> Ok M.
Proof.
  unfold fit_transform.
  destruct (array_min _); [|discriminate].
  destruct (negb _); [discriminate|].
  destruct (array_max _); [|discriminate].
  destruct (negb _); [discriminate|].
  unfold get_divider. simpl divider. cbv iota.
  rewrite scipy_not_imported. discriminate.
Qed.

Lemma rank_gauss_entry (X : matrix) r c :
  (r < length X)%nat -> (c < ncols X)%nat ->
  nth c (nth r (rank_gauss_matrix argsort_float argsort_int erfinv X) []) 0
  = rank_to_gauss erfinv GaussRankScaler_init (length X)
                  (nth r (ranks (column 0 c X)) 0%nat).
Proof.
  intros Hr Hc. unfold rank_gauss_matrix.
  rewrite nth_map_seq by assumption. now rewrite nth_map_seq.
Qed.

Lemma rank_gauss_column (X : matrix) c :
  (c < ncols X)%nat ->
  column 0 c (rank_gauss_matrix argsort_float argsort_int erfinv X)
  = map (rank_to_gauss erfinv GaussRankScaler_init (length X))
        (ranks (column 0 c X)).
Proof.
  intros Hc. unfold column at 1, rank_gauss_matrix. rewrite map_map.
  transitivity
    (map (fun r => rank_to_gauss erfinv GaussRankScaler_init (length X)
                     (nth r (ranks (column 0 c X)) 0%nat))
         (seq 0 (length X))).
  - apply map_ext. intros r. now rewrite nth_map_seq.
  - rewrite <- (map_map (fun r => nth r (ranks (column 0 c X)) 0%nat)).
    f_equal.
    replace (length X) with (length (ranks (column 0 c X))).
    + apply map_nth_seq.
    + rewrite ranks_length. unfold column. now rewrite length_map.
Qed.

Lemma rank_to_gauss_increasing n r1 r2 :
  increasing_on_unit erfinv ->
  (r1 < r2)%nat -> (r2 <= n - 1)%nat ->
  rank_to_gauss erfinv GaussRankScaler_init n r1
  < rank_to_gauss erfinv GaussRankScaler_init n r2.
Proof.
  intros Hinc H12 H2. unfold rank_to_gauss.
  assert (Hn : (2 <= n)%nat) by lia.
  destruct (rescaled_rank_bounds n r1 Hn) as (B1 & _); [lia|].
  destruct (rescaled_rank_bounds n r2 Hn) as (B2 & _); [lia|].
  simpl in B1, B2. simpl range. simpl upper.
  apply Hinc; try lra.
  assert (Hm : 0 < INR (n - 1)) by (apply lt_0_INR; lia).
  assert (Hx : INR r1 < INR r2) by (apply lt_INR; lia).
  apply Rplus_lt_compat_r. apply Rmult_lt_compat_r; [|exact Hx].
  apply Rinv_0_lt_compat. apply Rdiv_lt_0_compat; lra.
Qed.

Lemma rank_to_gauss_mirror n r :
  odd_function erfinv -> (2 <= n)%nat -> (r <= n - 1)%nat ->
  rank_to_gauss erfinv GaussRankScaler_init n (n - 1 - r)
  = - rank_to_gauss erfinv GaussRankScaler_init n r.
Proof.
  intros Hodd Hn Hr. unfold rank_to_gauss. rewrite <- Hodd. f_equal.
  simpl range. simpl upper.
  assert (Hm : 0 < INR (n - 1)) by (apply lt_0_INR; lia).
  rewrite minus_INR by assumption. field. lra.
Qed.

(** C4.  Under the notebook's global names [fit_transform] returns no
    value (it raises NameError, as for C3), so there is no output to be
    ordered.  With [scipy] bound, [erfinv] increasing and odd, the matrix
    that the call returns is monotonic in each column, and each of its
    columns has the sum 0. *)
Theorem rank_gauss_monotone_but_not_returned :
  forall (X : matrix) (a b c : nat),
    increasing_on_unit erfinv -> odd_function erfinv ->
    (a < length X)%nat -> (b < length X)%nat -> (c < ncols X)%nat ->
    nth c (nth a X []) 0 < nth c (nth b X []) 0 ->
    (forall self M,
        snd (fit_transform argsort_float argsort_int erfinv notebook_globals
                           self X) <> Ok M)
    /\ let out := rank_gauss_matrix argsort_float argsort_int erfinv X in
       snd (fit_transform argsort_float argsort_int erfinv
                          ("scipy"%string :: notebook_globals)
                          GaussRankScaler_init X) = Ok out
       /\ nth c (nth a out []) 0 < nth c (nth b out []) 0
       /\ Rsum (column 0 c out) = 0.
Proof.
  intros X a b c Hinc Hodd Ha Hb Hc Hlt.
  assert (Hlen : length (column 0 c X) = length X)
    by (unfold column; now rewrite length_map).
  assert (Hab : a <> b) by (intros ->; lra).
  split; [intros self M; apply fit_transform_no_value|].
  cbv zeta. split; [|split].
  - rewrite fit_transform_run by lia. reflexivity.
  - rewrite !rank_gauss_entry by assumption.
    pose proof (ranks_perm (column 0 c X)) as Hp. rewrite Hlen in Hp.
    pose proof (Permutation_seq_bound _ _ b Hp Hb) as Bb.
    apply rank_to_gauss_increasing; [assumption | | lia].
    apply ranks_monotone; try (rewrite Hlen; assumption).
    unfold column.
    rewrite !(nth_map_default (fun r => nth c r 0) X [] 0) by assumption.
    exact Hlt.
  - rewrite rank_gauss_column by assumption.
    pose proof (ranks_perm (column 0 c X)) as Hp. rewrite Hlen in Hp.
    rewrite (Rsum_perm _ _ (Permutation_map _ Hp)).
    apply Rsum_mirror_zero; [|lia].
    intros r Hr. apply rank_to_gauss_mirror; [assumption | lia | assumption].
Qed.

(** C5.  The class defines [__init__] and [fit_transform] only: the call
    [scaler.transform(X_test)] of line 285 raises AttributeError in every
    state of the scaler, before or after [fit_transform], and leaves the
    scaler as it was. *)
Theorem scaler_transform_raises_AttributeError :
  forall (globals : list string) (self : GaussRankScaler) (X_test : matrix),
    call_method argsort_float argsort_int erfinv globals self
                "transform" X_test
    = (self, Raise (AttributeError "transform"))
    /\ forall X,
         call_method argsort_float argsort_int erfinv globals
                     (fst (fit_transform argsort_float argsort_int erfinv
                                         globals self X))
                     "transform" X_test
         = (fst (fit_transform argsort_float argsort_int erfinv
                               globals self X),
            Raise (AttributeError "transform")).
Proof.
  assert (H : forall g s Xt,
             call_method argsort_float argsort_int erfinv g s
                         "transform" Xt
             = (s, Raise (AttributeError "transform"))).
  { intros g s Xt. unfold call_method, lookup_method, instance_attributes.
    destruct (divider s); reflexivity. }
  intros globals self X_test. split; [apply H | intros X; apply H].
Qed.

(** The normalisation cell (lines 283-285) raises in either case: NameError
    in [fit_transform] under the notebook's global names, and AttributeError
    at [scaler.transform] once [scipy] is bound. *)
Lemma normalize_cell_raises (X X_test : matrix) :
  (0 < length X)%nat -> (0 < ncols X)%nat ->
  normalize_cell argsort_float argsort_int erfinv notebook_globals X X_test
  = Raise (NameError "scipy")
  /\ normalize_cell argsort_float argsort_int erfinv
                    ("scipy"%string :: notebook_globals) X X_test
     = Raise (AttributeError "transform").
Proof.
  intros Hn Hc. unfold normalize_cell.
  change (call_method argsort_float argsort_int erfinv notebook_globals
                      GaussRankScaler_init "fit_transform" X)
    with (fit_transform argsort_float argsort_int erfinv notebook_globals
                        GaussRankScaler_init X).
  change (call_method argsort_float argsort_int erfinv
                      ("scipy"%string :: notebook_globals)
                      GaussRankScaler_init "fit_transform" X)
    with (fit_transform argsort_float argsort_int erfinv
                        ("scipy"%string :: notebook_globals)
                        GaussRankScaler_init X).
  rewrite !fit_transform_run by assumption. split; reflexivity.
Qed.

End ScalerProofs.

Lemma stable_argsort_sorts_float : sorts_float (stable_argsort Rleb 0).
Proof.
  intros l. split;
    [apply stable_argsort_float_perm | apply stable_argsort_float_sorted].
Qed.

Lemma stable_argsort_sorts_int : sorts_int (stable_argsort Nat.leb 0%nat).
Proof.
  intros l. split;
    [apply stable_argsort_int_perm | apply stable_argsort_int_sorted].
Qed.

Lemma fit_transform_raises_NameError_witness :
  fit_transform (stable_argsort Rleb 0) (stable_argsort Nat.leb 0%nat)
                (fun x => x) notebook_globals GaussRankScaler_init
                [[3]; [1]; [2]]
  = (set_divider GaussRankScaler_init
                 (INR 2 / range GaussRankScaler_init),
     Raise (NameError "scipy")).
Proof.
  apply (fit_transform_raises_NameError
           (stable_argsort Rleb 0) (stable_argsort Nat.leb 0%nat)
           (fun x => x)
           stable_argsort_sorts_float stable_argsort_sorts_int
           [[3]; [1]; [2]]); simpl; lia.
Defined.

Lemma rank_gauss_monotone_but_not_returned_witness :
  let out := rank_gauss_matrix (stable_argsort Rleb 0)
                               (stable_argsort Nat.leb 0%nat)
                               (fun x => x) [[1]; [2]] in
  nth 0 (nth 0 out []) 0 < nth 0 (nth 1 out []) 0
  /\ forall M,
       snd (fit_transform (stable_argsort Rleb 0)
                          (stable_argsort Nat.leb 0%nat)
                          (fun x => x) notebook_globals
                          GaussRankScaler_init [[1]; [2]]) <> Ok M.
Proof.
  assert (Hinc : increasing_on_unit (fun x => x)) by (intros x y; lra).
  assert (Hodd : odd_function (fun x : R => x)) by (intros x; reflexivity).
  assert (Ha : (0 < length [[1]; [2]])%nat) by (simpl; lia).
  assert (Hb : (1 < length [[1]; [2]])%nat) by (simpl; lia).
  assert (Hc : (0 < ncols [[1]; [2]])%nat) by (simpl; lia).
  assert (Hlt : nth 0 (nth 0 [[1]; [2]] []) 0 < nth 0 (nth 1 [[1]; [2]] []) 0)
    by (simpl; lra).
  destruct (rank_gauss_monotone_but_not_returned
              (stable_argsort Rleb 0) (stable_argsort Nat.leb 0%nat)
              (fun x => x)
              stable_argsort_sorts_float stable_argsort_sorts_int
              [[1]; [2]] 0%nat 1%nat 0%nat Hinc Hodd Ha Hb Hc Hlt)
    as (Hno & _ & Hmono & _).
  split; [exact Hmono | intros M; apply Hno].
Defined.
(** ** The training loop *)

Ltac case_Rlt :=
  repeat match goal with
         | H : context [Rlt_dec ?u ?v] |- _ => destruct (Rlt_dec u v)
         | |- context [Rlt_dec ?u ?v] => destruct (Rlt_dec u v)
         end.

Lemma xlt_irrefl a : xlt a a = false.
Proof. destruct a; simpl; auto. case_Rlt; auto. lra. Qed.

(** The running minimum never goes above a value it has passed. *)
Lemma fold_xmin_below (l : list xfloat) (b x : xfloat) :
  xlt x b = false -> xlt x (fold_left xmin l b) = false.
Proof.
  revert b; induction l as [|a l IH]; intros b Hb; simpl; auto.
  apply IH. unfold xmin. destruct (xlt a b) eqn:E; auto.
  destruct x, a, b; simpl in *; try discriminate; auto.
  case_Rlt; try discriminate; auto. lra.
Qed.

Lemma fold_xmin_lower_bound (l : list xfloat) (b x : xfloat) :
  In x l -> xlt x (fold_left xmin l b) = false.
Proof.
  revert b; induction l as [|a l IH]; intros b H; [contradiction|].
  destruct H as [H | H]; simpl.
  - subst a. apply fold_xmin_below. unfold xmin.
    destruct (xlt x b) eqn:E; auto. apply xlt_irrefl.
  - now apply IH.
Qed.

Lemma fold_xmin_attained (l : list xfloat) (b : xfloat) :
  fold_left xmin l b = b \/ In (fold_left xmin l b) l.
Proof.
  revert b; induction l as [|a l IH]; intros b; simpl; auto.
  destruct (IH (xmin b a)) as [H | H]; [|auto].
  rewrite H. unfold xmin. destruct (xlt a b); auto.
Qed.

(** [minimum] is the least of the losses: no loss is below it, and it is
    one of them unless it is [inf]. *)
Lemma minimum_is_least (l : list xfloat) :
  (forall x, In x l -> xlt x (minimum l) = false)
  /\ (minimum l = PInf \/ In (minimum l) l).
Proof.
  split; [intros x; apply fold_xmin_lower_bound | apply fold_xmin_attained].
Qed.

Lemma minimum_snoc l x : minimum (l ++ [x]) = xmin (minimum l) x.
Proof. unfold minimum. now rewrite fold_left_app. Qed.

(** *** Indexing and batches *)

Lemma getitem_ok {A} (d : A) (a : list A) idx :
  Forall (fun i => (i < length a)%nat) idx ->
  getitem d a idx = Ok (take d a idx).
Proof.
  intros H. unfold getitem.
  replace (forallb (fun i => (i <? length a)%nat) idx) with true;
    [reflexivity|].
  symmetry. apply forallb_forall. rewrite Forall_forall in H.
  intros i Hi. apply Nat.ltb_lt. now apply H.
Qed.

Lemma getitem_past_end {A} (d : A) (a : list A) idx :
  Exists (fun i => (length a <= i)%nat) idx ->
  getitem d a idx = Raise IndexError.
Proof.
  intros H. unfold getitem.
  destruct (forallb _ idx) eqn:E; [|reflexivity].
  rewrite forallb_forall in E. apply Exists_exists in H.
  destruct H as (i & Hi & Hle). apply E, Nat.ltb_lt in Hi. lia.
Qed.

Lemma Forall_lt_le (n m : nat) idx :
  (n <= m)%nat -> Forall (fun i => (i < n)%nat) idx ->
  Forall (fun i => (i < m)%nat) idx.
Proof. intros Hnm. apply Forall_impl. intros; lia. Qed.

Lemma map_combine_zip_with {A C D} (f : A -> C -> D) l1 l2 :
  map (fun b : A * C => let '(x, y) := b in f x y) (combine l1 l2)
  = zip_with f l1 l2.
Proof.
  revert l2; induction l1 as [|a l1 IH]; intros [|b l2]; simpl; auto.
  f_equal; auto.
Qed.


Section TrainingProofs.

Context {B : Backend}.

(** The validation pass computes the mean validation loss. *)
Lemma validation_pass_spec batch_size X_val y_val model :
  validation_pass batch_size X_val y_val model
  = mean_validation_loss batch_size X_val y_val model.
Proof.
  unfold validation_pass, mean_validation_loss, val_loader.
  f_equal. apply map_combine_zip_with.
Qed.


Section OneFoldProofs.
Variables (fold batch_size : nat) (X_train y_train X_val y_val : tensor).

Local Abbreviation step :=
  (run_epoch fold batch_size X_train y_train X_val y_val).
Local Abbreviation after :=
  (state_after fold batch_size X_train y_train X_val y_val).
Local Abbreviation loss :=
  (epoch_val_loss fold batch_size X_train y_train X_val y_val).
Local Abbreviation losses :=
  (val_losses fold batch_size X_train y_train X_val y_val).

Lemma epoch_loop_step (e : nat) (s : fold_state) :
  epoch_loop (S e) fold batch_size X_train y_train X_val y_val s
  = step (epoch_loop e fold batch_size X_train y_train X_val y_val s).
Proof.
  revert s; induction e as [|e IH]; intros s; [reflexivity|].
  change (epoch_loop (S (S e)) fold batch_size X_train y_train
                     X_val y_val s)
    with (epoch_loop (S e) fold batch_size X_train y_train
                     X_val y_val (step s)).
  rewrite IH. reflexivity.
Qed.

Lemma state_after_S s0 e : after s0 (S e) = step (after s0 e).
Proof. apply epoch_loop_step. Qed.

(** One epoch: the training pass moves the model, the optimiser and the
    generator; the validation pass moves none of them; the best loss
    and the checkpoint change when the validation loss is below the
    best loss. *)
Lemma run_epoch_spec (s : fold_state) :
  let '(model, opt, _, g) :=
    train_pass batch_size X_train y_train
               (st_model s) (st_optimizer s) (w_rng (st_world s)) in
  let avg := mean_validation_loss batch_size X_val y_val model in
  st_model (step s) = model
  /\ st_optimizer (step s) = opt
  /\ w_rng (st_world (step s)) = g
  /\ st_best_val_loss (step s) = xmin (st_best_val_loss s) avg
  /\ w_fs (st_world (step s))
     = if xlt avg (st_best_val_loss s)
       then fs_write (w_fs (st_world s)) (checkpoint_path fold) model
       else w_fs (st_world s).
Proof.
  unfold run_epoch.
  destruct (train_pass _ _ _ _ _ _) as [[[model opt] tl] g].
  rewrite validation_pass_spec. unfold xmin.
  destruct (xlt _ _); simpl; auto.
Qed.

Lemma loss_of_step s0 e :
  loss s0 e
  = mean_validation_loss batch_size X_val y_val
      (fst (fst (fst (train_pass batch_size X_train y_train
                                 (st_model (after s0 e))
                                 (st_optimizer (after s0 e))
                                 (w_rng (st_world (after s0 e))))))).
Proof.
  unfold epoch_val_loss. rewrite state_after_S.
  pose proof (run_epoch_spec (after s0 e)) as H.
  destruct (train_pass _ _ _ _ _ _) as [[[model opt] tl] g].
  destruct H as (-> & _). reflexivity.
Qed.

(** The best validation loss after [e] epochs is the minimum of the
    validation losses of these epochs. *)
Lemma best_is_minimum s0 e :
  st_best_val_loss s0 = PInf ->
  st_best_val_loss (after s0 e) = minimum (losses s0 e).
Proof.
  intros H0. induction e as [|e IH]; [exact H0|].
  unfold val_losses. rewrite seq_S, map_app. simpl (map _ [_]).
  rewrite minimum_snoc. fold (losses s0 e). rewrite <- IH.
  rewrite loss_of_step, state_after_S.
  pose proof (run_epoch_spec (after s0 e)) as H.
  destruct (train_pass _ _ _ _ _ _) as [[[model opt] tl] g].
  now destruct H as (_ & _ & _ & -> & _).
Qed.



End OneFoldProofs.



(** With teacher predictions, indices within the rows, labels and teacher
    predictions for every row and a batch size of at least 1, the set-up of
    a fold succeeds. *)
Lemma fold_setup_ok X y tp train_idx val_idx batch_size w :
  split_in_range (length X) (train_idx, val_idx) ->
  (length X <= length y)%nat -> (length X <= length tp)%nat ->
  (1 <= batch_size)%nat ->
  fold_setup X y (Some tp) train_idx val_idx batch_size w
  = Ok (take [] X train_idx,
        column_stack (take 0 y train_idx) (take 0 tp train_idx),
        take [] X val_idx,
        column_stack (take 0 y val_idx) (take 0 tp val_idx),
        {| st_model := fst (StudentModel_new (ncols X) (w_rng w));
           st_optimizer := Adam (fst (StudentModel_new (ncols X) (w_rng w)));
           st_best_val_loss := PInf;
           st_world :=
             {| w_rng := snd (StudentModel_new (ncols X) (w_rng w));
                w_fs := w_fs w |} |}).
Proof.
  intros [Ht Hv] Hy Htp Hb. cbn [fst snd] in Ht, Hv.
  unfold fold_setup, index_teacher.
  rewrite (getitem_ok [] X train_idx Ht), (getitem_ok [] X val_idx Hv).
  rewrite (getitem_ok 0 y train_idx), (getitem_ok 0 y val_idx)
    by (eapply Forall_lt_le; eassumption).
  rewrite (getitem_ok 0 tp train_idx), (getitem_ok 0 tp val_idx)
    by (eapply Forall_lt_le; eassumption).
  destruct batch_size as [|b]; [lia|]. cbn [bind DataLoader_new].
  destruct (StudentModel_new (ncols X) (w_rng w)). reflexivity.
Qed.

Section ValidCall.
Variables (X : matrix) (y tp : list R) (epochs batch_size : nat).
Hypothesis labels_cover : (length X <= length y)%nat.
Hypothesis teacher_covers : (length X <= length tp)%nat.
Hypothesis batch_size_positive : (1 <= batch_size)%nat.

Lemma fold_loop_runs splits :
  Forall (split_in_range (length X)) splits ->
  forall fold fold_scores w,
    fold_loop X y (Some tp) epochs batch_size fold splits fold_scores w
    = (Ok (fold_scores
             ++ map (fun r => st_best_val_loss
                                (run_final epochs batch_size r))
                    (fold_runs X y tp epochs batch_size fold splits w)),
       world_after epochs batch_size
                   (fold_runs X y tp epochs batch_size fold splits w) w).
Proof.
  induction 1 as [|[train_idx val_idx] splits Hs _ IH];
    intros fold fold_scores w.
  - simpl. now rewrite app_nil_r.
  - cbn [fold_loop fold_runs]. rewrite fold_setup_ok by assumption.
    rewrite IH. cbn [map]. rewrite <- app_assoc. reflexivity.
Qed.

Lemma fold_runs_indices splits :
  Forall (split_in_range (length X)) splits ->
  forall fold w,
    map run_fold (fold_runs X y tp epochs batch_size fold splits w)
    = seq fold (length splits).
Proof.
  induction 1 as [|[train_idx val_idx] splits Hs _ IH]; intros fold w;
    [reflexivity|].
  cbn [fold_runs]. rewrite fold_setup_ok by assumption.
  cbn [map length seq run_fold]. f_equal. apply IH.
Qed.



End ValidCall.



(** *** Calls that scikit-learn refuses, and calls that it accepts *)

Lemma train_model_too_few X y teacher_preds n_splits epochs batch_size w :
  (n_splits < 2)%nat ->
  train_model X y teacher_preds n_splits epochs batch_size w
  = (Raise (KFold_too_few n_splits), w).
Proof.
  intros H. unfold train_model.
  apply Nat.ltb_lt in H. now rewrite H.
Qed.

Lemma train_model_too_many X y teacher_preds n_splits epochs batch_size w :
  (2 <= n_splits)%nat -> (length X < n_splits)%nat ->
  train_model X y teacher_preds n_splits epochs batch_size w
  = (Raise (KFold_too_many n_splits (length X)), w).
Proof.
  intros H2 H. unfold train_model.
  apply Nat.ltb_ge in H2. apply Nat.ltb_lt in H. now rewrite H2, H.
Qed.

Lemma train_model_accepted X y teacher_preds n_splits epochs batch_size w :
  (2 <= n_splits)%nat -> (n_splits <= length X)%nat ->
  train_model X y teacher_preds n_splits epochs batch_size w
  = match fold_loop X y teacher_preds epochs batch_size 0
                    (fst (KFold_split n_splits (length X) (w_rng w))) []
                    {| w_rng := snd (KFold_split n_splits (length X)
                                                 (w_rng w));
                       w_fs := w_fs w |} with
    | (Ok fold_scores, w') => (Ok (np_mean_x fold_scores), w')
    | (Raise e, w') => (Raise e, w')
    end.
Proof.
  intros H2 H. unfold train_model.
  apply Nat.ltb_ge in H2. apply Nat.ltb_ge in H. rewrite H2, H.
  destruct (KFold_split n_splits (length X) (w_rng w)). reflexivity.
Qed.

Lemma KFold_contract_in_range n_splits n g :
  KFold_contract -> (2 <= n_splits)%nat -> (n_splits <= n)%nat ->
  length (fst (KFold_split n_splits n g)) = n_splits
  /\ Forall (split_in_range n) (fst (KFold_split n_splits n g))
  /\ Forall (fun s : list nat * list nat => fst s <> [] /\ snd s <> [])
            (fst (KFold_split n_splits n g)).
Proof.
  intros HK H2 Hn. destruct (HK n_splits n g H2 Hn) as [Hl Hall].
  split; [exact Hl|].
  split; (eapply Forall_impl; [|exact Hall]); cbv beta;
    intros s (? & ? & ? & ?); [split | split]; assumption.
Qed.


(** The keyword [criterion] names no parameter of [train_model]: the calls
    of experiments 1, 3 and 4 are refused when their arguments are bound;
    the call of experiment 2 binds the values of [params]. *)
Lemma experiment_calls (X : matrix) (y teacher_preds : list R) (w : world) :
  experiment1 X y w = (Raise (unexpected_keyword "criterion"), w)
  /\ experiment3 X y w = (Raise (unexpected_keyword "criterion"), w)
  /\ experiment4 X y teacher_preds w
     = (Raise (unexpected_keyword "criterion"), w)
  /\ experiment2 X y teacher_preds w
     = train_model X y (Some teacher_preds) 5 100 1024 w.
Proof. repeat split. Qed.

(** Without teacher predictions an accepted call raises TypeError in its
    first fold, at [teacher_preds[train_idx]]. *)
Lemma train_model_None X y n_splits epochs batch_size w :
  KFold_contract ->
  (2 <= n_splits)%nat -> (n_splits <= length X)%nat ->
  (length X <= length y)%nat ->
  train_model X y None n_splits epochs batch_size w
  = (Raise (TypeError "'NoneType' object is not subscriptable"),
     {| w_rng := snd (KFold_split n_splits (length X) (w_rng w));
        w_fs := w_fs w |}).
Proof.
  intros HK H2 Hk Hy.
  destruct (KFold_contract_in_range n_splits (length X) (w_rng w) HK H2 Hk)
    as (Hlen & Hrange & _).
  rewrite train_model_accepted by assumption.
  destruct (fst (KFold_split n_splits (length X) (w_rng w)))
    as [|[train_idx val_idx] splits]; [simpl in Hlen; lia|].
  inversion Hrange as [|? ? [Ht Hv] _]; subst. cbn [fst snd] in Ht, Hv.
  cbn [fold_loop]. unfold fold_setup.
  rewrite (getitem_ok [] X train_idx Ht), (getitem_ok [] X val_idx Hv).
  rewrite (getitem_ok 0 y train_idx) by (eapply Forall_lt_le; eassumption).
  reflexivity.
Qed.

(** C7.  Of the four experiment cells only the second calls [train_model]
    with arguments that it accepts: the calls of experiments 1, 3 and 4
    pass [criterion], which is not a parameter of [train_model], and raise
    TypeError before the body runs, leaving the world as it was.  The call
    of experiment 2 returns a score when the data has at least five rows,
    each with a label and a teacher prediction, and is refused by the
    k-fold partition when it has fewer.  Without the keyword the calls of
    experiments 1 and 3 would still raise TypeError in the first fold,
    where [teacher_preds] is [None]. *)
Theorem experiments_1_3_4_raise_TypeError :
  forall (X : matrix) (y teacher_preds : list R) (w : world),
    experiment1 X y w = (Raise (unexpected_keyword "criterion"), w)
    /\ experiment3 X y w = (Raise (unexpected_keyword "criterion"), w)
    /\ experiment4 X y teacher_preds w
       = (Raise (unexpected_keyword "criterion"), w)
    /\ experiment2 X y teacher_preds w
       = train_model X y (Some teacher_preds) 5 100 1024 w
    /\ (KFold_contract ->
        (5 <= length X)%nat -> (length X <= length y)%nat ->
        (length X <= length teacher_preds)%nat ->
        exists score w', experiment2 X y teacher_preds w = (Ok score, w'))
    /\ ((length X < 5)%nat ->
        exists msg,
          experiment2 X y teacher_preds w = (Raise (ValueError msg), w))
    /\ (KFold_contract ->
        (5 <= length X)%nat -> (length X <= length y)%nat ->
        fst (call_train_model X y None params_kwargs w)
        = Raise (TypeError "'NoneType' object is not subscriptable")).
Proof.
  intros X y tp w.
  destruct (experiment_calls X y tp w) as (H1 & H3 & H4 & H2).
  split; [exact H1|]. split; [exact H3|]. split; [exact H4|].
  split; [exact H2|]. split; [|split].
  - intros HK H5 Hy Htp. rewrite H2.
    destruct (KFold_contract_in_range 5 (length X) (w_rng w) HK)
      as (_ & Hrange & _); [lia | lia |].
    rewrite train_model_accepted by lia.
    rewrite fold_loop_runs by (assumption || lia). eauto.
  - intros Hlt. rewrite H2. eexists. apply train_model_too_many; lia.
  - intros HK H5 Hy.
    change (call_train_model X y None params_kwargs w)
      with (train_model X y None 5 100 1024 w).
    rewrite train_model_None by (assumption || lia). reflexivity.
Qed.

End TrainingProofs.

(** ** Checkpoints across runs *)

Lemma apply_writes_lookup ws fs p :
  apply_writes ws fs p
  = match last_write ws p with
    | Some m => Some m
    | None => fs p
    end.
Proof.
  revert fs; induction ws as [|[q m] ws IH]; intros fs; [reflexivity|].
  cbn [apply_writes fold_left fst snd last_write].
  fold (apply_writes ws (fs_write fs q m)). rewrite IH.
  destruct (last_write ws p); [reflexivity|].
  unfold fs_write. destruct (String.eqb p q); reflexivity.
Qed.

Lemma apply_writes_app ws1 ws2 fs :
  apply_writes (ws1 ++ ws2) fs = apply_writes ws2 (apply_writes ws1 fs).
Proof. unfold apply_writes. apply fold_left_app. Qed.

Lemma last_write_in ws p m :
  In (p, m) ws -> exists m', last_write ws p = Some m'.
Proof.
  induction ws as [|[q m0] ws IH]; intros H; [contradiction|].
  cbn [last_write]. destruct H as [H | H].
  - inversion H; subst. destruct (last_write ws p); eauto.
    rewrite String.eqb_refl. eauto.
  - destruct (IH H) as [m' ->]. eauto.
Qed.

Lemma last_write_none ws p :
  (forall m, ~ In (p, m) ws) -> last_write ws p = None.
Proof.
  induction ws as [|[q m0] ws IH]; intros H; [reflexivity|].
  cbn [last_write]. rewrite IH.
  - destruct (String.eqb p q) eqn:E; [|reflexivity].
    apply String.eqb_eq in E. subst q. exfalso. apply (H m0). now left.
  - intros m Hin. apply (H m). now right.
Qed.

Section CheckpointProofs.

Context {B : Backend}.

Lemma validation_pass_finite batch_size X_val y_val model :
  X_val <> [] -> y_val <> [] ->
  exists v, validation_pass batch_size X_val y_val model = Finite v.
Proof.
  intros HX Hy. unfold validation_pass, val_loader.
  pose proof (batches_nonempty batch_size X_val HX) as H1.
  pose proof (batches_nonempty batch_size y_val Hy) as H2.
  destruct (batches batch_size X_val); [congruence|].
  destruct (batches batch_size y_val); [congruence|].
  cbn [combine map np_mean]. eauto.
Qed.

(** The epochs of a fold move the model, the optimiser, the best loss and
    the generator without reading the file system, and write the
    checkpoint of the fold only; after at least one epoch that starts
    from the best loss [inf] and validates on some rows, the checkpoint
    has been written; without epochs nothing is written. *)
Lemma epoch_loop_writes fold batch_size X_train y_train X_val y_val :
  forall e model opt best g,
  exists model' opt' best' g' ms,
    (forall fs,
        epoch_loop e fold batch_size X_train y_train X_val y_val
          {| st_model := model; st_optimizer := opt;
             st_best_val_loss := best;
             st_world := {| w_rng := g; w_fs := fs |} |}
        = {| st_model := model'; st_optimizer := opt';
             st_best_val_loss := best';
             st_world :=
               {| w_rng := g';
                  w_fs := apply_writes
                            (map (pair (checkpoint_path fold)) ms) fs |} |})
    /\ ((1 <= e)%nat -> best = PInf -> X_val <> [] -> y_val <> [] ->
        ms <> [])
    /\ (e = 0%nat -> ms = [] /\ best' = best).
Proof.
  induction e as [|e IH]; intros model opt best g.
  - exists model, opt, best, g, []. split; [reflexivity|].
    split; [lia | auto].
  - cbn [epoch_loop]. unfold run_epoch. cbn [st_model st_optimizer st_world
      st_best_val_loss w_rng w_fs].
    destruct (train_pass batch_size X_train y_train model opt g)
      as [[[model1 opt1] tl] g1].
    destruct (xlt (validation_pass batch_size X_val y_val model1) best)
      eqn:E.
    + destruct (IH model1 opt1
                   (validation_pass batch_size X_val y_val model1) g1)
        as (m' & o' & b' & g' & ms & Heq & _).
      exists m', o', b', g', (model1 :: ms). split; [|split].
      * intros fs. rewrite Heq. reflexivity.
      * intros; discriminate.
      * discriminate.
    + destruct (IH model1 opt1 best g1)
        as (m' & o' & b' & g' & ms & Heq & _).
      exists m', o', b', g', ms. split; [|split].
      * intros fs. now rewrite Heq.
      * intros _ -> HX Hy.
        destruct (validation_pass_finite batch_size X_val y_val model1
                                         HX Hy) as [v Hv].
        rewrite Hv in E. discriminate.
      * discriminate.
Qed.

Lemma take_nonempty {A} (d : A) (a : list A) idx :
  idx <> [] -> take d a idx <> [].
Proof. destruct idx; [congruence | discriminate]. Qed.

Lemma column_stack_nonempty u v :
  u <> [] -> v <> [] -> column_stack u v <> [].
Proof. destruct u, v; try congruence. discriminate. Qed.

(** The set-up of a fold reads no file: it raises, or it succeeds, whatever
    the files are, and hands them on as they are. *)
Lemma fold_setup_files X y teacher_preds train_idx val_idx batch_size g :
  (exists e, forall fs,
        fold_setup X y teacher_preds train_idx val_idx batch_size
                   {| w_rng := g; w_fs := fs |}
        = Raise e)
  \/ (exists X_train y_train X_val y_val model opt g',
         forall fs,
           fold_setup X y teacher_preds train_idx val_idx batch_size
                      {| w_rng := g; w_fs := fs |}
           = Ok (X_train, y_train, X_val, y_val,
                 {| st_model := model; st_optimizer := opt;
                    st_best_val_loss := PInf;
                    st_world := {| w_rng := g'; w_fs := fs |} |})).
Proof.
  unfold fold_setup. cbn [w_rng w_fs].
  destruct (getitem [] X train_idx); [|left; eexists; reflexivity].
  destruct (getitem [] X val_idx); [|left; eexists; reflexivity].
  destruct (getitem 0 y train_idx); [|left; eexists; reflexivity].
  destruct (index_teacher teacher_preds train_idx);
    [|left; eexists; reflexivity].
  destruct (getitem 0 y val_idx); [|left; eexists; reflexivity].
  destruct (index_teacher teacher_preds val_idx);
    [|left; eexists; reflexivity].
  destruct (DataLoader_new batch_size); [|left; eexists; reflexivity].
  cbn [bind]. destruct (StudentModel_new (ncols X) g) as [model g'].
  right. repeat eexists.
Qed.

(** The folds of a run read no file and write the checkpoints of their own
    indices only, also when one of them raises; without epochs they write
    nothing.  When every fold can be set up, the loop ends with the scores,
    and each fold with epochs and validation rows writes its
    checkpoint. *)
Lemma fold_loop_writes X y teacher_preds epochs batch_size splits :
  forall fold fold_scores g,
  exists res g' ws,
    (forall fs,
        fold_loop X y teacher_preds epochs batch_size fold splits
                  fold_scores {| w_rng := g; w_fs := fs |}
        = (res, {| w_rng := g'; w_fs := apply_writes ws fs |}))
    /\ (forall p m, In (p, m) ws ->
          exists f, (fold <= f < fold + length splits)%nat
                    /\ p = checkpoint_path f)
    /\ (epochs = 0%nat ->
        ws = []
        /\ forall scores, res = Ok scores ->
             scores = fold_scores ++ repeat PInf (length splits))
    /\ (forall tp,
          teacher_preds = Some tp ->
          (length X <= length y)%nat -> (length X <= length tp)%nat ->
          (1 <= batch_size)%nat ->
          Forall (split_in_range (length X)) splits ->
          (exists scores, res = Ok scores)
          /\ ((1 <= epochs)%nat ->
              Forall (fun s : list nat * list nat => snd s <> []) splits ->
              forall f, (fold <= f < fold + length splits)%nat ->
                        exists m, In (checkpoint_path f, m) ws)).
Proof.
  induction splits as [|[train_idx val_idx] splits IH];
    intros fold fold_scores g.
  - exists (Ok fold_scores), g, []. split; [reflexivity|]. split; [|split].
    + intros p m [].
    + intros _. split; [reflexivity|]. intros scores H.
      injection H as <-. cbn. now rewrite app_nil_r.
    + intros tp _ _ _ _ _. split; [eauto|].
      intros _ _ f Hf. simpl in Hf. lia.
  - destruct (fold_setup_files X y teacher_preds train_idx val_idx
                               batch_size g)
      as [(e & Hraise) | (Xt & yt & Xv & yv & m0 & o0 & g0 & Hok)].
    + exists (Raise e), g, []. split; [|split; [|split]].
      * intros fs. cbn [fold_loop]. now rewrite Hraise.
      * intros p m [].
      * intros _. split; [reflexivity | discriminate].
      * intros tp -> Hy Htp Hb Hrange. exfalso.
        inversion Hrange as [|? ? Hs _]; subst.
        specialize (Hraise (fun _ => None)).
        rewrite (fold_setup_ok X y tp train_idx val_idx batch_size _
                               Hs Hy Htp Hb) in Hraise.
        discriminate.
    + destruct (epoch_loop_writes fold batch_size Xt yt Xv yv epochs
                                  m0 o0 PInf g0)
        as (m1 & o1 & b1 & g1 & ms & Hep & Hne & Hzero).
      destruct (IH (S fold) (fold_scores ++ [b1]) g1)
        as (res & g' & ws & Hloop & Hin & Hnone & Hall).
      exists res, g', (map (pair (checkpoint_path fold)) ms ++ ws).
      split; [|split; [|split]].
      * intros fs. cbn [fold_loop]. rewrite Hok, Hep.
        cbn [st_best_val_loss st_world]. rewrite Hloop.
        now rewrite apply_writes_app.
      * intros p m H. apply in_app_or in H. destruct H as [H | H].
        -- apply in_map_iff in H. destruct H as (mm & H & _).
           inversion H; subst. exists fold. cbn [length]. split; [lia|auto].
        -- destruct (Hin p m H) as (f & Hf & ->).
           exists f. cbn [length]. split; [lia|auto].
      * intros He. destruct (Hzero He) as [-> ->].
        destruct (Hnone He) as [-> Hscores]. split; [reflexivity|].
        intros scores Hres. rewrite (Hscores scores Hres).
        cbn [length repeat]. now rewrite <- app_assoc.
      * intros tp -> Hy Htp Hb Hrange.
        inversion Hrange as [|? ? Hs Hrest]; subst.
        destruct (Hall tp eq_refl Hy Htp Hb Hrest) as [Hres Hwritten].
        split; [exact Hres|].
        intros He Hval f Hf. inversion Hval as [|? ? Hv Hvrest]; subst.
        cbn [snd] in Hv. cbn [length] in Hf.
        destruct (Nat.eq_dec f fold) as [-> | Hneq].
        -- specialize (Hok (fun _ => None)).
           rewrite (fold_setup_ok X y tp train_idx val_idx batch_size _
                                  Hs Hy Htp Hb) in Hok.
           injection Hok as HXt Hyt HXv Hyv _ _ _.
           assert (Hms : ms <> []).
           { apply Hne; auto.
             - rewrite <- HXv. now apply take_nonempty.
             - rewrite <- Hyv.
               apply column_stack_nonempty; now apply take_nonempty. }
           destruct ms as [|mm ms]; [congruence|].
           exists mm. apply in_or_app. left. now left.
        -- destruct (Hwritten He Hvrest f) as [m Hm]; [lia|].
           exists m. apply in_or_app. now right.
Qed.

(** A call of [train_model] as a result and a log of checkpoint writes that
    do not depend on the files it finds. *)
Lemma train_model_writes X y teacher_preds n_splits epochs batch_size g :
  exists res g' ws,
    (forall fs,
        train_model X y teacher_preds n_splits epochs batch_size
                    {| w_rng := g; w_fs := fs |}
        = (res, {| w_rng := g'; w_fs := apply_writes ws fs |}))
    /\ (forall p m, In (p, m) ws ->
          exists f,
            (f < length (fst (KFold_split n_splits (length X) g)))%nat
            /\ p = checkpoint_path f)
    /\ (epochs = 0%nat -> ws = [])
    /\ (forall tp,
          teacher_preds = Some tp -> KFold_contract ->
          (2 <= n_splits)%nat -> (n_splits <= length X)%nat ->
          (length X <= length y)%nat -> (length X <= length tp)%nat ->
          (1 <= batch_size)%nat ->
          (exists score, res = Ok score)
          /\ (epochs = 0%nat -> res = Ok PInf)
          /\ ((1 <= epochs)%nat ->
              forall f, (f < n_splits)%nat ->
                        exists m, In (checkpoint_path f, m) ws)).
Proof.
  unfold train_model. cbn [w_rng w_fs].
  destruct (n_splits <? 2)%nat eqn:E2.
  { exists (Raise (KFold_too_few n_splits)), g, [].
    split; [reflexivity|]. split; [intros p m []|]. split; [auto|].
    intros tp _ _ H2. apply Nat.ltb_lt in E2. lia. }
  destruct (length X <? n_splits)%nat eqn:En.
  { exists (Raise (KFold_too_many n_splits (length X))), g, [].
    split; [reflexivity|]. split; [intros p m []|]. split; [auto|].
    intros tp _ _ _ Hn. apply Nat.ltb_lt in En. lia. }
  pose proof (fun HK H2 Hn =>
                KFold_contract_in_range n_splits (length X) g HK H2 Hn)
    as Hcontract.
  destruct (KFold_split n_splits (length X) g) as [splits g0].
  cbn [fst] in *.
  destruct (fold_loop_writes X y teacher_preds epochs batch_size splits
                             0 [] g0)
    as (res & g' & ws & Hloop & Hin & Hnone & Hall).
  exists (match res with
          | Ok fold_scores => Ok (np_mean_x fold_scores)
          | Raise e => Raise e
          end), g', ws.
  split; [|split; [|split]].
  - intros fs. rewrite Hloop. now destruct res.
  - intros p m H. destruct (Hin p m H) as (f & Hf & ->).
    exists f. split; [lia | reflexivity].
  - intros He. now destruct (Hnone He).
  - intros tp Htp HK H2 Hn Hy Ht Hb.
    destruct (Hcontract HK H2 Hn) as (Hlen & Hrange & Hne).
    destruct (Hall tp Htp Hy Ht Hb Hrange) as [[scores ->] Hwritten].
    split; [eauto|]. split.
    + intros He. destruct (Hnone He) as [_ Hscores].
      rewrite (Hscores scores eq_refl). cbn [app]. rewrite Hlen.
      f_equal. destruct n_splits as [|k]; [lia|].
      unfold np_mean_x. cbn [repeat existsb is_nan is_pinf orb].
      replace (existsb is_nan (repeat PInf k)) with false
        by (clear; induction k; simpl; auto).
      replace (existsb is_ninf (repeat PInf k)) with false
        by (clear; induction k; simpl; auto).
      reflexivity.
    + intros He f Hf. apply Hwritten; auto; [|lia].
      eapply Forall_impl; [|exact Hne]. now intros s [_ H].
Qed.

End CheckpointProofs.

(** ** The checkpoints of different folds are different files *)

Lemma string_append_length (s t : string) :
  String.length (s ++ t) = (String.length s + String.length t)%nat.
Proof. induction s as [|c s IH]; simpl; auto. Qed.

Lemma string_append_cancel_r (s1 s2 t : string) :
  (s1 ++ t)%string = (s2 ++ t)%string -> s1 = s2.
Proof.
  revert s2; induction s1 as [|c s1 IH]; intros [|d s2] H; auto.
  - apply (f_equal String.length) in H.
    rewrite (string_append_length (String d s2) t) in H. simpl in H. lia.
  - apply (f_equal String.length) in H.
    rewrite (string_append_length (String c s1) t) in H. simpl in H. lia.
  - simpl in H. injection H as -> H. f_equal. now apply IH.
Qed.

Lemma string_of_nat_inj (n m : nat) :
  string_of_nat n = string_of_nat m -> n = m.
Proof.
  unfold string_of_nat. intros H.
  apply (f_equal NilEmpty.uint_of_string) in H.
  rewrite !NilEmpty.usu in H. injection H as H.
  apply (f_equal Nat.of_uint) in H.
  now rewrite !DecimalNat.Unsigned.of_to in H.
Qed.

Lemma checkpoint_path_inj (f g : nat) :
  checkpoint_path f = checkpoint_path g -> f = g.
Proof.
  unfold checkpoint_path. intros H. simpl in H.
  repeat (injection H as H).
  apply string_append_cancel_r in H. now apply string_of_nat_inj.
Qed.

(** ** Inference and the submission *)

Lemma sigmoid_bounds x : 0 < sigmoid x < 1.
Proof.
  unfold sigmoid. pose proof (exp_pos (- x)) as He.
  split.
  - apply Rdiv_lt_0_compat; lra.
  - apply (Rmult_lt_reg_r (1 + exp (- x))); [lra|].
    unfold Rdiv. rewrite Rmult_assoc, Rinv_l by lra. lra.
Qed.

Lemma forward_row_nonempty m x : has_output m -> forward_row m x <> [].
Proof.
  intros [Hw Hb]. unfold forward_row, linear.
  destruct (weight (output m)); [congruence|].
  destruct (bias (output m)); [congruence|]. discriminate.
Qed.

Lemma first_output_bounds m x : has_output m -> 0 < first_output m x < 1.
Proof.
  intros H. pose proof (forward_row_nonempty m x H) as Hne.
  unfold first_output. unfold forward_row in *.
  destruct (linear (output m) _) as [|v l]; [now elim Hne|].
  simpl. apply sigmoid_bounds.
Qed.

Lemma first_column_forward m batch :
  has_output m ->
  first_column (forward m batch) = Ok (map (first_output m) batch).
Proof.
  intros H. induction batch as [|x batch IH]; [reflexivity|].
  cbn [forward map first_column].
  pose proof (forward_row_nonempty m x H) as Hne.
  unfold first_output at 1.
  destruct (forward_row m x) as [|v l]; [now elim Hne|].
  fold (forward m batch). rewrite IH. reflexivity.
Qed.

(** *** Shapes *)

Lemma has_layer_shape_spec l n_in n_out :
  has_layer_shape l n_in n_out = true <-> layer_shape l n_in n_out.
Proof.
  unfold has_layer_shape, layer_shape.
  rewrite !andb_true_iff, !Nat.eqb_eq, forallb_forall, Forall_forall.
  split.
  - intros [[H1 H2] H3]. repeat split; auto.
    intros w Hw. apply Nat.eqb_eq. auto.
  - intros (H1 & H2 & H3). repeat split; auto.
    intros w Hw. apply Nat.eqb_eq. auto.
Qed.

Lemma has_model_shape_spec m input_shape :
  has_model_shape m input_shape = true <-> model_shape m input_shape.
Proof.
  unfold has_model_shape, model_shape.
  now rewrite andb_true_iff, !has_layer_shape_spec.
Qed.

Lemma model_shape_has_output m input_shape :
  model_shape m input_shape -> has_output m.
Proof.
  intros [_ (Hw & Hb & _)]. unfold has_output.
  destruct (weight (output m)); [discriminate|].
  destruct (bias (output m)); [discriminate|]. split; discriminate.
Qed.

Lemma load_state_dict_ok input_shape m :
  model_shape m input_shape -> load_state_dict input_shape m = Ok m.
Proof.
  intros H. unfold load_state_dict.
  apply has_model_shape_spec in H. now rewrite H.
Qed.

Lemma widths_ok input_shape (X : matrix) :
  Forall (fun x => length x = input_shape) X ->
  forallb (fun x => (length x =? input_shape)%nat) X = true.
Proof.
  intros H. apply forallb_forall. rewrite Forall_forall in H.
  intros x Hx. apply Nat.eqb_eq. now apply H.
Qed.

Lemma model_call_ok input_shape m batch :
  Forall (fun x => length x = input_shape) batch ->
  model_call input_shape m batch = Ok (forward m batch).
Proof. intros H. unfold model_call. now rewrite widths_ok. Qed.

(** *** The layers, unit by unit *)

Lemma zip_with_nth {A C D} (f : A -> C -> D) (d1 : A) (d2 : C) l1 l2 :
  length l1 = length l2 ->
  zip_with f l1 l2
  = map (fun i => f (nth i l1 d1) (nth i l2 d2)) (seq 0 (length l1)).
Proof.
  revert l2; induction l1 as [|a l1 IH]; intros [|b l2] H;
    try discriminate; [reflexivity|].
  cbn [zip_with length seq map nth]. f_equal.
  rewrite <- seq_shift, map_map. apply IH. now injection H.
Qed.

Lemma dot_unit (w x : list R) :
  length w = length x ->
  dot w x = Rsum (map (fun i => nth i w 0 * nth i x 0) (seq 0 (length x))).
Proof.
  intros H. unfold dot. rewrite (zip_with_nth Rmult 0 0) by assumption.
  now rewrite H.
Qed.

Lemma linear_units l x n_out :
  layer_shape l (length x) n_out ->
  linear l x = map (fun k => unit_value l k x) (seq 0 n_out).
Proof.
  intros (Hw & Hb & Hrows). unfold linear.
  rewrite (zip_with_nth _ [] 0) by congruence. rewrite Hw.
  apply map_ext_in. intros k Hk. apply in_seq in Hk.
  unfold unit_value. f_equal. apply dot_unit.
  rewrite Forall_forall in Hrows. apply Hrows, nth_In. lia.
Qed.

(** The first output of the forward pass is the first probability of the
    model, for a model and a row of the shapes of [StudentModel]. *)
Lemma first_output_probability m x :
  model_shape m (length x) -> first_output m x = first_probability m x.
Proof.
  intros [H1 H2]. unfold first_output, forward_row, first_probability.
  rewrite (linear_units (layer1 m) x 16 H1), map_map.
  rewrite (linear_units (output m) _ 2)
    by now rewrite length_map, length_seq.
  reflexivity.
Qed.

(** *** The predictions of a fold *)

Lemma predict_batches_forward input_shape m loader :
  has_output m ->
  predict_batches input_shape m loader
  = if forallb (fun x => (length x =? input_shape)%nat) (concat loader)
    then Ok (map (map (first_output m)) loader)
    else Raise RuntimeError.
Proof.
  intros H. induction loader as [|b loader IH]; [reflexivity|].
  cbn [predict_batches map concat]. rewrite forallb_app.
  unfold model_call.
  destruct (forallb _ b); [|reflexivity]. cbn [bind andb].
  rewrite first_column_forward by assumption. cbn [bind]. rewrite IH.
  destruct (forallb _ (concat loader)); reflexivity.
Qed.

Lemma np_concatenate_nonempty arrays :
  arrays <> [] -> np_concatenate arrays = Ok (concat arrays).
Proof. destruct arrays; [congruence | reflexivity]. Qed.

(** The predictions of one fold, in every case: the checkpoint is missing;
    its shapes are not those of the model; the loader refuses the batch
    size; the test set has no row; a row has another width than the model;
    or the fold predicts every row. *)
Lemma predict_fold_cases fs input_shape batch_size X_test fold :
  predict_fold fs input_shape batch_size X_test fold
  = match fs (checkpoint_path fold) with
    | None => Raise (FileNotFoundError (checkpoint_path fold))
    | Some m =>
        if has_model_shape m input_shape then
          match DataLoader_new batch_size with
          | Raise e => Raise e
          | Ok _ =>
              match X_test with
              | [] =>
                  Raise (ValueError "need at least one array to concatenate")
              | _ :: _ =>
                  if forallb (fun x => (length x =? input_shape)%nat) X_test
                  then Ok (map (first_output m) X_test)
                  else Raise RuntimeError
              end
          end
        else Raise RuntimeError
    end.
Proof.
  unfold predict_fold, fs_load, load_state_dict.
  destruct (fs (checkpoint_path fold)) as [m|]; [|reflexivity].
  cbn [bind]. destruct (has_model_shape m input_shape) eqn:Hshape;
    [|reflexivity].
  apply has_model_shape_spec, model_shape_has_output in Hshape.
  destruct batch_size as [|b]; [reflexivity|]. cbn [bind DataLoader_new].
  rewrite predict_batches_forward by assumption.
  rewrite concat_batches by lia.
  destruct X_test as [|x X_test]; [reflexivity|].
  destruct (forallb _ (x :: X_test)); [|reflexivity]. cbn [bind].
  rewrite np_concatenate_nonempty.
  - now rewrite <- concat_map, concat_batches by lia.
  - intros H. apply map_eq_nil in H.
    now apply (batches_nonempty (S b) (x :: X_test)) in H.
Qed.

Lemma predict_fold_ok fs input_shape batch_size X_test fold m :
  fs (checkpoint_path fold) = Some m -> model_shape m input_shape ->
  (1 <= batch_size)%nat -> X_test <> [] ->
  Forall (fun x => length x = input_shape) X_test ->
  predict_fold fs input_shape batch_size X_test fold
  = Ok (map (fold_prediction fs fold) X_test).
Proof.
  intros Hfs Hm Hb Hne Hw. rewrite predict_fold_cases, Hfs.
  apply has_model_shape_spec in Hm. rewrite Hm.
  destruct batch_size; [lia|]. cbn [DataLoader_new].
  destruct X_test as [|x X_test]; [congruence|].
  rewrite widths_ok by assumption.
  f_equal. apply map_ext. intros z. unfold fold_prediction.
  now rewrite Hfs.
Qed.

Lemma predict_folds_ok fs input_shape batch_size X_test folds :
  (forall f, In f folds ->
             exists m, fs (checkpoint_path f) = Some m
                       /\ model_shape m input_shape) ->
  (1 <= batch_size)%nat -> X_test <> [] ->
  Forall (fun x => length x = input_shape) X_test ->
  forall test_preds,
    predict_folds fs input_shape batch_size X_test folds test_preds
    = Ok (test_preds
            ++ map (fun f => map (fold_prediction fs f) X_test) folds).
Proof.
  intros Hall Hb Hne Hw. induction folds as [|f folds IH];
    intros test_preds.
  - simpl. now rewrite app_nil_r.
  - cbn [predict_folds map].
    destruct (Hall f (or_introl eq_refl)) as (m & Hfs & Hm).
    rewrite (predict_fold_ok fs input_shape batch_size X_test f m)
      by assumption.
    cbn [bind]. rewrite IH by (intros; apply Hall; now right).
    now rewrite <- app_assoc.
Qed.

(** The column-wise mean of the predictions of the folds is, row by row, the
    average prediction. *)
Lemma mean_axis0_folds fs k (X_test : matrix) :
  mean_axis0 (length X_test)
             (map (fun f => map (fold_prediction fs f) X_test) (seq 0 k))
  = map (average_prediction fs k) X_test.
Proof.
  unfold mean_axis0. rewrite length_map, length_seq.
  transitivity (map (fun r => average_prediction fs k (nth r X_test []))
                    (seq 0 (length X_test))).
  - apply map_ext_in. intros r Hr. apply in_seq in Hr.
    unfold average_prediction. f_equal. rewrite map_map.
    f_equal. apply map_ext. intros f.
    apply (nth_map_default (fold_prediction fs f)). lia.
  - rewrite <- (map_map (fun r => nth r X_test [])).
    now rewrite map_nth_seq.
Qed.

Lemma Rsum_bounds (l : list R) :
  Forall (fun v => 0 <= v <= 1) l -> 0 <= Rsum l <= INR (length l).
Proof.
  induction 1 as [|v l Hv _ IH].
  - simpl. lra.
  - cbn [Rsum fold_right]. fold (Rsum l). rewrite length_cons, S_INR. lra.
Qed.

Lemma average_prediction_bounds fs k x :
  (1 <= k)%nat ->
  (forall f, (f < k)%nat ->
             exists m, fs (checkpoint_path f) = Some m /\ has_output m) ->
  0 <= average_prediction fs k x <= 1.
Proof.
  intros Hk Hall. unfold average_prediction.
  assert (HF : Forall (fun v => 0 <= v <= 1)
                      (map (fun f => fold_prediction fs f x) (seq 0 k))).
  { rewrite Forall_forall. intros v Hv. apply in_map_iff in Hv.
    destruct Hv as (f & <- & Hf). apply in_seq in Hf.
    destruct (Hall f) as (m & Hfs & Hm); [lia|].
    unfold fold_prediction. rewrite Hfs.
    pose proof (first_output_bounds m x Hm). lra. }
  apply Rsum_bounds in HF. rewrite length_map, length_seq in HF.
  assert (Hpos : 0 < INR k) by (apply lt_0_INR; lia).
  split.
  - apply Rmult_le_pos; [lra | left; now apply Rinv_0_lt_compat].
  - apply (Rmult_le_reg_r (INR k)); [lra|].
    unfold Rdiv. rewrite Rmult_assoc, Rinv_l by lra. lra.
Qed.

(** The average of the predictions of the folds is the average of the
    first probabilities of their models. *)
Lemma average_prediction_probability fs input_shape k x :
  (forall f, (f < k)%nat ->
             exists m, fs (checkpoint_path f) = Some m
                       /\ model_shape m input_shape) ->
  length x = input_shape ->
  average_prediction fs k x = average_probability fs k x.
Proof.
  intros Hall Hx. unfold average_prediction, average_probability.
  f_equal. f_equal. apply map_ext_in. intros f Hf. apply in_seq in Hf.
  destruct (Hall f) as (m & Hfs & Hm); [lia|].
  unfold fold_prediction. rewrite Hfs.
  apply first_output_probability. now rewrite Hx.
Qed.

(** C9.  When the checkpoint of every fold exists and has the shapes of the
    model, and the test set has rows of the width of the model, the
    inference stage emits a submission with one row per row of the test
    set, in the order of the test identifiers, and every target is the
    average over the folds of the first sigmoid output of the fold's
    model, a number in [[0, 1]]. *)
Theorem submission_rows_and_range :
  forall (fs : filesystem) (input_shape n_splits batch_size : nat)
         (ids : list nat) (X_test : matrix),
    (1 <= n_splits)%nat -> (1 <= batch_size)%nat ->
    X_test <> [] -> length ids = length X_test ->
    Forall (fun x => length x = input_shape) X_test ->
    (forall f, (f < n_splits)%nat ->
               exists m, fs (checkpoint_path f) = Some m
                         /\ model_shape m input_shape) ->
    exists submission,
      inference fs input_shape n_splits batch_size ids X_test
      = Ok submission
      /\ length submission = length X_test
      /\ map fst submission = ids
      /\ map snd submission = map (average_probability fs n_splits) X_test
      /\ Forall (fun row => 0 <= snd row <= 1) submission.
Proof.
  intros fs d k bs ids X_test Hk Hb Hne Hlen Hw Hall.
  assert (Hout : forall f, (f < k)%nat ->
             exists m, fs (checkpoint_path f) = Some m /\ has_output m).
  { intros f Hf. destruct (Hall f Hf) as (m & Hfs & Hm).
    exists m. split; [exact Hfs|]. now apply model_shape_has_output in Hm. }
  assert (Havg : map (average_prediction fs k) X_test
                 = map (average_probability fs k) X_test).
  { apply map_ext_in. intros x Hx.
    apply average_prediction_probability with (input_shape := d); auto.
    rewrite Forall_forall in Hw. now apply Hw. }
  unfold inference.
  rewrite predict_folds_ok; try assumption.
  2:{ intros f Hf. apply in_seq in Hf. apply Hall. lia. }
  cbn [bind app].
  assert (Hhd : length (hd [] (map (fun f => map (fold_prediction fs f) X_test)
                                   (seq 0 k))) = length X_test).
  { destruct k as [|k]; [lia|]. cbn [seq map hd]. apply length_map. }
  rewrite Hhd, mean_axis0_folds.
  unfold make_submission. rewrite length_map, Hlen, Nat.eqb_refl.
  exists (combine ids (map (average_prediction fs k) X_test)).
  assert (Hl2 : length ids = length (map (average_prediction fs k) X_test))
    by (now rewrite length_map).
  split; [reflexivity|]. split; [|split; [|split]].
  - rewrite length_combine, <- Hl2, Nat.min_id. exact Hlen.
  - now apply map_fst_combine.
  - rewrite <- Havg. now apply map_snd_combine.
  - rewrite Forall_forall. intros [i t] Hin. cbn [snd].
    apply in_combine_r in Hin. apply in_map_iff in Hin.
    destruct Hin as (x & <- & _).
    now apply average_prediction_bounds.
Qed.

(** The inference stage reads the checkpoints of the folds
    [0 .. n_splits-1] and no other file. *)
Lemma inference_reads_checkpoints fs1 fs2 input_shape n_splits batch_size
      ids X_test :
  (forall f, (f < n_splits)%nat ->
             fs1 (checkpoint_path f) = fs2 (checkpoint_path f)) ->
  inference fs1 input_shape n_splits batch_size ids X_test
  = inference fs2 input_shape n_splits batch_size ids X_test.
Proof.
  intros Hagree. unfold inference.
  assert (H : forall folds test_preds,
             (forall f, In f folds -> (f < n_splits)%nat) ->
             predict_folds fs1 input_shape batch_size X_test folds test_preds
             = predict_folds fs2 input_shape batch_size X_test folds
                             test_preds).
  { induction folds as [|f folds IH]; intros test_preds Hin; [reflexivity|].
    cbn [predict_folds].
    assert (Hf : predict_fold fs1 input_shape batch_size X_test f
                 = predict_fold fs2 input_shape batch_size X_test f).
    { rewrite !predict_fold_cases.
      now rewrite (Hagree f) by (apply Hin; now left). }
    rewrite Hf.
    destruct (predict_fold fs2 input_shape batch_size X_test f);
      [|reflexivity].
    cbn [bind]. apply IH. intros; apply Hin; now right. }
  rewrite H; [reflexivity|].
  intros f Hf. apply in_seq in Hf. lia.
Qed.

Section OverwriteProofs.

Context {B : Backend}.

(** C10.  The checkpoint of a fold is one file for every call of
    [train_model].  A call that runs (accepted by the k-fold partition and
    the loaders, with at least one epoch) leaves, in the checkpoint of each
    of its folds, a model of its own that does not depend on the files it
    found (whatever an earlier run wrote there is overwritten), and touches
    no other file; so an inference stage that follows it reads the
    parameters of that run only.  In the notebook as written the call of
    experiment 4 is refused before it runs and writes nothing: after the
    four experiment cells the files are those that the call of experiment 2
    left, and the inference stage reads these. *)
Theorem later_run_overwrites_checkpoints :
  forall (X : matrix) (y teacher_preds : list R)
         (n_splits epochs batch_size : nat) (g : rng)
         (fs1 fs2 : filesystem) (input_shape : nat) (ids : list nat)
         (X_test : matrix),
    KFold_contract ->
    (2 <= n_splits)%nat -> (n_splits <= length X)%nat ->
    (length X <= length y)%nat -> (length X <= length teacher_preds)%nat ->
    (1 <= batch_size)%nat -> (1 <= epochs)%nat ->
    let run fs :=
      train_model X y (Some teacher_preds) n_splits epochs batch_size
                  {| w_rng := g; w_fs := fs |} in
    fst (run fs1) = fst (run fs2)
    /\ (forall f, (f < n_splits)%nat ->
          exists m, forall fs,
              w_fs (snd (run fs)) (checkpoint_path f) = Some m)
    /\ (forall p, (forall f, (f < n_splits)%nat -> p <> checkpoint_path f) ->
          w_fs (snd (run fs1)) p = fs1 p)
    /\ inference (w_fs (snd (run fs1))) input_shape n_splits batch_size
                 ids X_test
       = inference (w_fs (snd (run fs2))) input_shape n_splits batch_size
                   ids X_test
    /\ (forall w,
          let w2 := snd (experiment2 X y teacher_preds
                                     (snd (experiment1 X y w))) in
          experiment4 X y teacher_preds (snd (experiment3 X y w2))
          = (Raise (unexpected_keyword "criterion"), w2)
          /\ experiment_cells X y teacher_preds w = w2
          /\ w2 = snd (train_model X y (Some teacher_preds) 5 100 1024 w)
          /\ inference (w_fs (experiment_cells X y teacher_preds w))
                       input_shape 5 1024 ids X_test
             = inference (w_fs w2) input_shape 5 1024 ids X_test).
Proof.
  intros X y tp k epochs bs g fs1 fs2 d ids X_test HK H2 Hk Hy Htp Hb He run.
  destruct (train_model_writes X y (Some tp) k epochs bs g)
    as (res & g' & ws & Hrun & Hin & _ & Hok).
  destruct (Hok tp eq_refl HK H2 Hk Hy Htp Hb) as (_ & _ & Hall).
  destruct (KFold_contract_in_range k (length X) g HK H2 Hk) as (Hlen & _).
  rewrite Hlen in Hin.
  assert (Hfile : forall f, (f < k)%nat ->
             exists m, forall fs,
                 w_fs (snd (run fs)) (checkpoint_path f) = Some m).
  { intros f Hf. destruct (Hall He f Hf) as [m0 Hm0].
    destruct (last_write_in _ _ _ Hm0) as [m Hm].
    exists m. intros fs. unfold run. rewrite Hrun. cbn [snd w_fs].
    now rewrite apply_writes_lookup, Hm. }
  split; [unfold run; now rewrite !Hrun|].
  split; [exact Hfile|].
  split; [|split].
  - intros p Hp. unfold run. rewrite Hrun. cbn [snd w_fs].
    rewrite apply_writes_lookup, last_write_none; [reflexivity|].
    intros m Hm. destruct (Hin p m Hm) as (f & Hf & ->).
    now apply (Hp f).
  - apply inference_reads_checkpoints. intros f Hf.
    destruct (Hfile f Hf) as [m Hm]. now rewrite !Hm.
  - intros w w2.
    destruct (experiment_calls X y tp w) as (H1 & _ & _ & H2w).
    assert (Hw2 : w2 = snd (train_model X y (Some tp) 5 100 1024 w)).
    { unfold w2. rewrite H1. cbn [snd]. now rewrite H2w. }
    destruct (experiment_calls X y tp w2) as (_ & H3 & H4 & _).
    assert (Hcells : experiment_cells X y tp w = w2).
    { unfold experiment_cells. fold w2. rewrite H3. cbn [snd].
      now rewrite H4. }
    split; [rewrite H3; cbn [snd]; exact H4|].
    split; [exact Hcells|]. split; [exact Hw2|]. now rewrite Hcells.
Qed.

End OverwriteProofs.

(** ** Closed examples on the stand-in backend *)


Lemma test_backend_KFold : @KFold_contract test_backend.
Proof.
  intros k n g H2 Hn. cbn. unfold interleaved_folds.
  split; [now rewrite length_map, length_seq|].
  apply Forall_forall. intros s Hs. apply in_map_iff in Hs.
  destruct Hs as (f & <- & Hf). apply in_seq in Hf. cbn [fst snd].
  split; [|split; [|split]].
  - intros H.
    assert (Hi : In (if (f =? 0)%nat then 1%nat else 0%nat)
                    (filter (fun i => negb (i mod k =? f)%nat) (seq 0 n))).
    { apply filter_In. split.
      - apply in_seq. destruct (f =? 0)%nat; lia.
      - apply negb_true_iff, Nat.eqb_neq.
        destruct (f =? 0)%nat eqn:E.
        + apply Nat.eqb_eq in E. rewrite Nat.mod_small by lia. lia.
        + apply Nat.eqb_neq in E. rewrite Nat.mod_small by lia. lia. }
    rewrite H in Hi. contradiction.
  - intros H.
    assert (Hi : In f (filter (fun i => (i mod k =? f)%nat) (seq 0 n))).
    { apply filter_In. split; [apply in_seq; lia|].
      apply Nat.eqb_eq, Nat.mod_small. lia. }
    rewrite H in Hi. contradiction.
  - apply Forall_forall. intros i Hi. apply filter_In in Hi.
    destruct Hi as [Hi _]. apply in_seq in Hi. lia.
  - apply Forall_forall. intros i Hi. apply filter_In in Hi.
    destruct Hi as [Hi _]. apply in_seq in Hi. lia.
Qed.

Lemma zero_model_shape input_shape :
  model_shape (zero_model input_shape) input_shape.
Proof.
  unfold model_shape, layer_shape, zero_model. cbn [layer1 output weight bias].
  rewrite !repeat_length. repeat split.
  - apply Forall_forall. intros w Hw. apply repeat_spec in Hw. subst.
    apply repeat_length.
  - apply Forall_forall. intros w Hw. apply repeat_spec in Hw. subst.
    apply repeat_length.
Qed.


Lemma submission_rows_and_range_witness :
  exists submission,
    inference (fs_write empty_fs (checkpoint_path 0) (zero_model 1))
              1 1 1 [7%nat] [[0.5]]
    = Ok submission
    /\ length submission = 1%nat.
Proof.
  assert (H1 : (1 <= 1)%nat) by lia.
  assert (Hne : [[0.5]] <> ([] : matrix)) by discriminate.
  assert (Hlen : length [7%nat] = length [[0.5]]) by reflexivity.
  assert (Hw : Forall (fun x : list R => length x = 1%nat) [[0.5]])
    by (repeat constructor).
  assert (Hfs : forall f, (f < 1)%nat ->
             exists m,
               fs_write empty_fs (checkpoint_path 0) (zero_model 1)
                        (checkpoint_path f) = Some m
               /\ model_shape m 1).
  { intros f Hf. assert (f = 0%nat) as -> by lia.
    exists (zero_model 1). split.
    - unfold fs_write. now rewrite String.eqb_refl.
    - apply zero_model_shape. }
  destruct (submission_rows_and_range
              (fs_write empty_fs (checkpoint_path 0) (zero_model 1))
              1 1 1 [7%nat] [[0.5]] H1 H1 Hne Hlen Hw Hfs)
    as (sub & Hsub & Hl & _).
  exists sub. split; assumption.
Defined.

Lemma later_run_overwrites_checkpoints_witness :
  let run fs :=
    @train_model test_backend [[1]; [2]] [0; 1] (Some [0.25; 0.75]) 2 1 1
                 (@Build_world test_backend 0%nat fs) in
  inference (w_fs (snd (run (fs_write empty_fs (checkpoint_path 0)
                                      (zero_model 7)))))
            1 2 1 [7%nat; 8%nat] [[0.5]; [0.25]]
  = inference (w_fs (snd (run empty_fs))) 1 2 1
              [7%nat; 8%nat] [[0.5]; [0.25]].
Proof.
  assert (H2 : (2 <= 2)%nat) by lia.
  assert (H1 : (1 <= 1)%nat) by lia.
  destruct (@later_run_overwrites_checkpoints
              test_backend [[1]; [2]] [0; 1] [0.25; 0.75] 2 1 1 0%nat
              (fs_write empty_fs (checkpoint_path 0) (zero_model 7))
              empty_fs 1 [7%nat; 8%nat] [[0.5]; [0.25]]
              test_backend_KFold H2 H2 H2 H2 H1 H1)
    as (_ & _ & _ & H & _).
  exact H.
Defined.

(** * Further properties *)

(** ** The focal loss as written *)

Lemma Forall_concat_inv {A} (P : A -> Prop) (t : list (list A)) :
  Forall P (concat t) -> Forall (Forall P) t.
Proof.
  induction t as [|r t IH]; intros H; constructor.
  - simpl in H. apply Forall_app in H. tauto.
  - apply IH. simpl in H. apply Forall_app in H. tauto.
Qed.

Lemma Rsum_scaled_bounds (M : R) (l : list R) :
  Forall (fun t => 0 <= t <= M) l -> 0 <= Rsum l <= INR (length l) * M.
Proof.
  induction 1 as [|t l Ht _ IH].
  - simpl. lra.
  - cbn [Rsum fold_right]. fold (Rsum l). rewrite length_cons, S_INR. lra.
Qed.

Lemma Forall_zip_with {A C D} (P : A -> Prop) (Q : D -> Prop)
      (f : A -> C -> D) (la : list A) (lc : list C) :
  (forall a c, P a -> Q (f a c)) -> Forall P la -> Forall Q (zip_with f la lc).
Proof.
  intros Hf H. revert lc. induction H as [|a la Ha _ IH]; intros [|c lc];
    simpl; constructor; auto.
Qed.

Lemma Rpower_one_base g : Rpower 1 g = 1.
Proof. unfold Rpower. rewrite ln_1, Rmult_0_r. apply exp_0. Qed.

Lemma ln_clamped_bounds p :
  ln focal_epsilon <= ln (clamped p) <= ln (1 - focal_epsilon)
  /\ ln (1 - focal_epsilon) < 0.
Proof.
  pose proof (clamped_bounds p) as Hb. pose proof focal_epsilon_pos as He.
  repeat split.
  - apply ln_le_mono; lra.
  - apply ln_le_mono; lra.
  - rewrite <- ln_1. apply ln_increasing; lra.
Qed.

(** A focal term lies between 0 and [- ln epsilon] when the label lies
    between 0 and 1. *)
Lemma focal_term_bounds gamma y p :
  0 <= gamma -> 0 <= y <= 1 ->
  0 <= focal_term gamma y p <= - ln focal_epsilon.
Proof.
  intros Hg Hy. unfold focal_term.
  pose proof (clamped_bounds p) as Hb. pose proof focal_epsilon_pos as He.
  destruct (ln_clamped_bounds p) as [[Hl1 Hl2] Hneg].
  assert (Hw : 0 < Rpower (1 - clamped p) gamma <= 1).
  { split; [apply exp_pos|].
    apply Rle_trans with (Rpower 1 gamma);
      [apply Rle_Rpower_l; lra | rewrite Rpower_one_base; lra]. }
  assert (Hc : 0 <= - y * ln (clamped p) <= - ln focal_epsilon) by nra.
  split; nra.
Qed.

(** X1.  For labels between 0 and 1 and an exponent that is not negative,
    the focal loss lies between 0 and [- ln 1e-7], whatever the predictions
    are, also outside [[0, 1]]: the clamping bounds every term. *)
Theorem focal_loss_bounded :
  forall (y p : tensor) (gamma : R),
    same_shape y p -> 0 <= gamma ->
    Forall (Forall (fun v => 0 <= v <= 1)) y ->
    0 <= focal_loss y p gamma <= - ln focal_epsilon.
Proof.
  intros y p gamma Hs Hg Hy.
  rewrite focal_loss_unfold by assumption. unfold focal_loss_spec.
  assert (Hterms : Forall (fun t => 0 <= t <= - ln focal_epsilon)
                          (zip_with (focal_term gamma) (concat y) (concat p))).
  { apply Forall_zip_with with (P := fun v => 0 <= v <= 1).
    - intros a c Ha. now apply focal_term_bounds.
    - now apply Forall_concat. }
  apply Rsum_scaled_bounds in Hterms.
  rewrite zip_with_length in Hterms by now apply same_shape_concat_length.
  fold (numel y) in Hterms. rewrite (same_shape_numel _ _ Hs) in Hterms.
  assert (HM : 0 < - ln focal_epsilon).
  { pose proof focal_epsilon_pos.
    assert (ln focal_epsilon < ln 1) by (apply ln_increasing; lra).
    rewrite ln_1 in *. lra. }
  destruct (numel p) as [|n] eqn:En.
  - simpl INR in *. unfold Rdiv. rewrite Rinv_0. lra.
  - assert (Hn : 0 < INR (S n)) by (apply lt_0_INR; lia).
    split.
    + apply Rmult_le_pos; [lra | left; now apply Rinv_0_lt_compat].
    + apply (Rmult_le_reg_r (INR (S n))); [lra|].
      unfold Rdiv. rewrite Rmult_assoc, Rinv_l by lra. lra.
Qed.

Lemma focal_loss_bounded_witness :
  0 <= focal_loss [[1]; [0]] [[2]; [-3]] 2 <= - ln focal_epsilon.
Proof.
  apply focal_loss_bounded.
  - repeat constructor.
  - lra.
  - repeat constructor; lra.
Defined.

Lemma focal_term_zero_iff gamma y p :
  0 <= y -> (focal_term gamma y p = 0 <-> y = 0).
Proof.
  intros Hy. unfold focal_term.
  destruct (ln_clamped_bounds p) as [[_ Hl2] Hneg].
  pose proof (exp_pos (gamma * ln (1 - clamped p))) as Hw.
  fold (Rpower (1 - clamped p) gamma) in Hw.
  split.
  - intros H. apply Rmult_integral in H. destruct H as [H | H]; [lra|].
    nra.
  - intros ->. lra.
Qed.

Lemma focal_term_nonneg gamma y p : 0 <= y -> 0 <= focal_term gamma y p.
Proof.
  intros Hy. unfold focal_term.
  destruct (ln_clamped_bounds p) as [[_ Hl2] Hneg].
  apply Rmult_le_pos; [apply Rpower_nonneg | nra].
Qed.

Lemma Rsum_focal_terms_nonneg gamma Y P :
  Forall (fun y => 0 <= y) Y ->
  0 <= Rsum (zip_with (focal_term gamma) Y P).
Proof.
  intros H. revert P. induction H as [|y Y Hy _ IH]; intros [|p P];
    cbn [zip_with Rsum fold_right]; try lra.
  pose proof (focal_term_nonneg gamma y p Hy). specialize (IH P).
  unfold Rsum in IH. lra.
Qed.

Lemma Rsum_focal_terms_zero gamma Y P :
  length Y = length P -> Forall (fun y => 0 <= y) Y ->
  (Rsum (zip_with (focal_term gamma) Y P) = 0 <-> Forall (fun y => y = 0) Y).
Proof.
  intros Hl H. revert P Hl.
  induction H as [|y Y Hy HY IH]; intros [|p P] Hl; try discriminate.
  - simpl. split; [constructor | reflexivity].
  - injection Hl as Hl. cbn [zip_with Rsum fold_right].
    fold (Rsum (zip_with (focal_term gamma) Y P)).
    pose proof (focal_term_nonneg gamma y p Hy) as H1.
    pose proof (Rsum_focal_terms_nonneg gamma Y P HY) as H2.
    split.
    + intros H0. constructor.
      * apply (focal_term_zero_iff gamma y p Hy). lra.
      * apply (IH P Hl). lra.
    + intros HF. inversion HF as [|? ? Hy0 HY0]; subst.
      apply (IH P Hl) in HY0.
      assert (focal_term gamma 0 p = 0)
        by (apply focal_term_zero_iff; [lra | reflexivity]).
      lra.
Qed.

(** X2.  For labels that are not negative, the focal loss is 0 exactly when
    every label is 0, whatever the predictions are: a label 0 contributes
    nothing even when its prediction is 1, and a positive label contributes
    a positive amount even when its prediction is exact. *)
Theorem focal_loss_zero_iff_no_positive_label :
  forall (y p : tensor) (gamma : R),
    same_shape y p ->
    Forall (Forall (fun v => 0 <= v)) y ->
    (focal_loss y p gamma = 0 <-> Forall (Forall (fun v => v = 0)) y).
Proof.
  intros y p gamma Hs Hy.
  rewrite focal_loss_unfold by assumption. unfold focal_loss_spec.
  pose proof (same_shape_concat_length _ _ Hs) as Hl.
  pose proof (Rsum_focal_terms_zero gamma _ _ Hl (Forall_concat _ _ Hy))
    as Hiff.
  split.
  - intros H0. apply Forall_concat_inv, Hiff.
    destruct (numel p) as [|n] eqn:En.
    + unfold numel in En. rewrite <- Hl in En.
      destruct (concat y); [reflexivity | discriminate].
    + assert (Hn : 0 < INR (S n)) by (apply lt_0_INR; lia).
      apply (Rmult_eq_compat_r (INR (S n))) in H0.
      unfold Rdiv in H0. rewrite Rmult_assoc, Rinv_l in H0 by lra. lra.
  - intros HF. apply Forall_concat, Hiff in HF. rewrite HF.
    unfold Rdiv. lra.
Qed.

Lemma focal_loss_zero_iff_no_positive_label_witness :
  focal_loss [[0]; [0]] [[1]; [0.5]] 2 = 0.
Proof.
  apply (focal_loss_zero_iff_no_positive_label [[0]; [0]] [[1]; [0.5]] 2).
  - repeat constructor.
  - repeat constructor; lra.
  - repeat constructor.
Defined.

Lemma focal_loss_all_labels_zero (y p : tensor) (gamma : R) :
  same_shape y p -> Forall (Forall (fun v => v = 0)) y ->
  focal_loss y p gamma = 0.
Proof.
  intros Hs Hy.
  rewrite focal_loss_unfold by assumption. unfold focal_loss_spec.
  assert (Hnn : Forall (fun v => 0 <= v) (concat y)).
  { eapply Forall_impl; [|apply Forall_concat, Hy]. simpl. intros; lra. }
  apply Forall_concat in Hy.
  apply (Rsum_focal_terms_zero gamma _ (concat p)) in Hy;
    [|now apply same_shape_concat_length | exact Hnn].
  rewrite Hy. unfold Rdiv. lra.
Qed.

(** The predictions at the places of the labels 0 do not matter. *)
Lemma focal_loss_ignores_negatives (y p q : tensor) (gamma : R) :
  Forall3 (Forall3 (fun yi pi qi => yi = 0 \/ pi = qi)) y p q ->
  focal_loss y p gamma = focal_loss y q gamma.
Proof.
  intros H.
  destruct (Forall3_same_shape _ _ _ _ H) as [Hyp Hyq].
  rewrite !focal_loss_unfold by assumption. unfold focal_loss_spec.
  rewrite <- (same_shape_numel _ _ Hyp), <- (same_shape_numel _ _ Hyq).
  f_equal. f_equal.
  pose proof (Forall3_concat _ _ _ _ H) as Hflat.
  induction Hflat as [|a b c la lb lc Habc _ IH]; [reflexivity|].
  cbn [zip_with]. f_equal; [|exact IH].
  destruct Habc as [-> | ->]; [|reflexivity].
  unfold focal_term. lra.
Qed.

Section MoreLossProofs.

Variable BCELoss : tensor -> tensor -> R.

(** X3.  The first student output matters to the distillation loss only in
    the rows whose true label is not 0: two prediction matrices that agree
    on the second column, and on the first column wherever the label is not
    0, have the same loss; and when every true label is 0 the loss is
    [(1 - beta)] times the cross-entropy against the teacher alone. *)
Theorem distillation_loss_ignores_first_output_on_negatives :
  forall (y_true y_pred y_pred' : tensor) (beta : R),
    Forall3 (fun t r r' =>
               length t = 2%nat /\ length r = 2%nat /\ length r' = 2%nat
               /\ nth 1 r 0 = nth 1 r' 0
               /\ (nth 0 t 0 = 0 \/ nth 0 r 0 = nth 0 r' 0))
            y_true y_pred y_pred' ->
    knowledge_distillation_loss BCELoss y_true y_pred beta
    = knowledge_distillation_loss BCELoss y_true y_pred' beta
    /\ (Forall (fun t => nth 0 t 0 = 0) y_true ->
        knowledge_distillation_loss BCELoss y_true y_pred beta
        = (1 - beta) * BCELoss (col 1 y_pred) (col 1 y_true)).
Proof.
  intros y_true y_pred y_pred' beta H.
  assert (Ht : Forall (fun r => length r = 2%nat) y_true)
    by (clear -H; induction H; constructor; tauto).
  assert (Hp : Forall (fun r => length r = 2%nat) y_pred)
    by (clear -H; induction H; constructor; tauto).
  assert (Hp' : Forall (fun r => length r = 2%nat) y_pred')
    by (clear -H; induction H; constructor; tauto).
  destruct (slices_of_two_columns _ Ht) as [Ht1 Ht2].
  destruct (slices_of_two_columns _ Hp) as [Hp1 Hp2].
  destruct (slices_of_two_columns _ Hp') as [Hp1' Hp2'].
  unfold knowledge_distillation_loss.
  rewrite Ht1, Ht2, Hp1, Hp2, Hp1', Hp2'.
  assert (Hsecond : col 1 y_pred = col 1 y_pred').
  { unfold col. clear -H. induction H as [|t r r' lt lr lr' Hh _ IH];
      [reflexivity|]. cbn [map]. f_equal; [|exact IH].
    destruct Hh as (_ & _ & _ & -> & _). reflexivity. }
  split.
  - rewrite Hsecond. f_equal. f_equal.
    apply focal_loss_ignores_negatives.
    unfold col. clear -H. induction H as [|t r r' lt lr lr' Hh _ IH];
      cbn [map]; [constructor|].
    constructor; [|exact IH]. constructor; [tauto | constructor].
  - intros Hzero.
    assert (Hs : same_shape (col 0 y_true) (col 0 y_pred)).
    { unfold same_shape, col. clear -H.
      induction H; cbn [map]; constructor; auto. }
    assert (H0 : focal_loss (col 0 y_true) (col 0 y_pred) default_gamma = 0).
    { apply focal_loss_all_labels_zero; [exact Hs|].
      unfold col. clear -Hzero.
      induction Hzero as [|t lt Ht _ IH]; cbn [map]; constructor; auto. }
    rewrite H0. lra.
Qed.

End MoreLossProofs.

Lemma distillation_loss_ignores_first_output_on_negatives_witness :
  knowledge_distillation_loss reference_BCELoss
                              [[0; 0.75]; [1; 0.25]] [[0.9; 0.5]; [0.5; 0.25]]
                              0.1
  = knowledge_distillation_loss reference_BCELoss
                                [[0; 0.75]; [1; 0.25]]
                                [[0.2; 0.5]; [0.5; 0.25]] 0.1.
Proof.
  apply (distillation_loss_ignores_first_output_on_negatives
           reference_BCELoss
           [[0; 0.75]; [1; 0.25]] [[0.9; 0.5]; [0.5; 0.25]]
           [[0.2; 0.5]; [0.5; 0.25]] 0.1).
  constructor; [|constructor; [|constructor]]; simpl.
  - repeat split; try reflexivity. left; reflexivity.
  - repeat split; try reflexivity. right; reflexivity.
Defined.

(** ** The scaler: assertions, empty input, ranks *)

Lemma from_columns_entry {A} (d : A) n cols r c :
  (r < n)%nat -> (c < length cols)%nat ->
  nth c (nth r (from_columns d n cols) []) d = nth r (nth c cols []) d.
Proof.
  intros Hr Hc. unfold from_columns.
  rewrite nth_map_seq by assumption.
  now rewrite (nth_map_default (fun cl => nth r cl d) cols [] d).
Qed.

Lemma concat_empty_rows {A} (n : nat) (f : nat -> list A) :
  (forall r, f r = []) -> concat (map f (seq 0 n)) = [].
Proof.
  intros Hf. induction (seq 0 n) as [|r l IH]; [reflexivity|].
  simpl. now rewrite Hf, IH.
Qed.

Lemma from_columns_no_columns {A} (d : A) n :
  concat (from_columns d n []) = [].
Proof. unfold from_columns. now apply concat_empty_rows. Qed.

Section MoreScalerProofs.

Variable argsort_float : list R -> list nat.
Variable argsort_int : list nat -> list nat.
Variable erfinv : R -> R.

(** The integer matrix [j] of a matrix without rows or without columns has
    no element. *)
Lemma double_argsort_empty (X : matrix) :
  length X = 0%nat \/ ncols X = 0%nat ->
  concat (argsort_axis0_int argsort_int
                            (argsort_axis0_float argsort_float X)) = [].
Proof.
  intros [H | H]; unfold argsort_axis0_int, argsort_axis0_float.
  - rewrite length_from_columns, H. reflexivity.
  - assert (Hc0 : columns 0 X = []) by (unfold columns; now rewrite H).
    rewrite Hc0. cbn [map]. rewrite length_from_columns.
    destruct (length X) as [|n] eqn:En; [reflexivity|].
    assert (Hc1 : columns 0%nat (from_columns 0%nat (S n) []) = []).
    { unfold columns. rewrite ncols_from_columns by lia. reflexivity. }
    rewrite Hc1. cbn [map]. apply from_columns_no_columns.
Qed.

Lemma fit_transform_empty (globals : list string) (self : GaussRankScaler)
      (X : matrix) :
  length X = 0%nat \/ ncols X = 0%nat ->
  fit_transform argsort_float argsort_int erfinv globals self X
  = (self,
     Raise (ValueError
        "zero-size array to reduction operation minimum which has no identity")).
Proof.
  intros H. unfold fit_transform, array_min.
  now rewrite double_argsort_empty.
Qed.

(** X4.  On a matrix without rows, or whose rows have no column,
    [fit_transform] raises ValueError at [j.min()], with the message of
    NumPy for the minimum of an array without elements, and leaves the
    scaler as it was: no divider is stored. *)
Theorem fit_transform_empty_raises_ValueError :
  forall (globals : list string) (self : GaussRankScaler) (X : matrix),
    length X = 0%nat \/ ncols X = 0%nat ->
    fit_transform argsort_float argsort_int erfinv globals self X
    = (self,
       Raise (ValueError
        "zero-size array to reduction operation minimum which has no identity"))
    /\ divider (fst (fit_transform argsort_float argsort_int erfinv globals
                                   self X)) = divider self.
Proof.
  intros globals self X H.
  split; [now apply fit_transform_empty|].
  now rewrite fit_transform_empty.
Qed.

Hypothesis float_sorts : sorts_float argsort_float.
Hypothesis int_sorts : sorts_int argsort_int.

(** X5.  The two assertions of [fit_transform] never fail: whatever the
    matrix, the scaler and the global names, the call does not raise
    AssertionError, because the argsort of an argsort is, in every column, a
    permutation of [0 .. n-1]. *)
Theorem fit_transform_assertions_hold :
  forall (globals : list string) (self : GaussRankScaler) (X : matrix),
    snd (fit_transform argsort_float argsort_int erfinv globals self X)
    <> Raise AssertionError.
Proof.
  intros globals self X.
  destruct (Nat.eq_dec (length X) 0) as [Hn | Hn].
  { rewrite fit_transform_empty by auto. cbn [snd]. congruence. }
  destruct (Nat.eq_dec (ncols X) 0) as [Hc | Hc].
  { rewrite fit_transform_empty by auto. cbn [snd]. congruence. }
  unfold fit_transform.
  destruct (assertions_pass argsort_float argsort_int float_sorts int_sorts X)
    as [Hmin Hmax]; [lia | lia |].
  rewrite Hmin. cbn [Nat.eqb negb].
  rewrite Hmax, Nat.eqb_refl. cbn [negb].
  unfold get_divider. cbn [divider set_divider].
  unfold lookup_global.
  destruct (existsb (String.eqb "scipy") globals); cbv beta zeta; cbn [snd];
    congruence.
Qed.

(** X6.  The matrix [j] of [fit_transform] holds ranks: in every column,
    the row [i[k]] that the first argsort puts at place [k] has the value
    [j = k]; the values of the column taken in the order of [i] ascend; and
    two different rows never share a rank, also when their values tie. *)
Theorem double_argsort_gives_ranks :
  forall (X : matrix) (c : nat),
    (c < ncols X)%nat ->
    let i := argsort_axis0_float argsort_float X in
    let j := argsort_axis0_int argsort_int i in
    (forall k, (k < length X)%nat ->
               (entry 0%nat i k c < length X)%nat
               /\ entry 0%nat j (entry 0%nat i k c) c = k)
    /\ (forall k1 k2, (k1 <= k2)%nat -> (k2 < length X)%nat ->
                      entry 0 X (entry 0%nat i k1 c) c
                      <= entry 0 X (entry 0%nat i k2 c) c)
    /\ (forall a b, (a < length X)%nat -> (b < length X)%nat -> a <> b ->
                    entry 0%nat j a c <> entry 0%nat j b c).
Proof.
  intros X c Hc i j.
  set (xs := column 0 c X).
  assert (Hxs : length xs = length X)
    by (unfold xs, column; now rewrite length_map).
  assert (Hcolumn : nth c (columns 0 X) [] = xs).
  { unfold columns.
    rewrite (nth_map_default (fun c => column 0 c X) _ 0%nat [])
      by (now rewrite length_seq).
    now rewrite seq_nth. }
  assert (Hi : forall k, (k < length X)%nat ->
                         entry 0%nat i k c = nth k (argsort_float xs) 0%nat).
  { intros k Hk. unfold entry, i, argsort_axis0_float.
    rewrite from_columns_entry;
      [|assumption | now rewrite length_map, length_columns].
    rewrite (nth_map_default argsort_float (columns 0 X) [] [])
      by (now rewrite length_columns).
    now rewrite Hcolumn. }
  assert (Hj : forall r, (r < length X)%nat ->
                         entry 0%nat j r c
                         = nth r (rank_vector argsort_float argsort_int xs)
                               0%nat).
  { intros r Hr. unfold entry, j, i.
    rewrite (double_argsort_ranks argsort_float argsort_int
                                  float_sorts X) by lia.
    rewrite from_columns_entry;
      [|assumption | now rewrite length_map, length_columns].
    rewrite (nth_map_default (rank_vector argsort_float argsort_int)
                             (columns 0 X) [] [])
      by (now rewrite length_columns).
    now rewrite Hcolumn. }
  assert (HX : forall r, (r < length X)%nat -> entry 0 X r c = nth r xs 0).
  { intros r Hr. unfold entry, xs, column.
    now rewrite (nth_map_default (fun r => nth c r 0) X [] 0). }
  destruct (float_sorts xs) as [Hperm Hsorted].
  rewrite Hxs in Hperm.
  pose proof (ranks_perm argsort_float argsort_int float_sorts int_sorts xs)
    as Hrperm.
  rewrite Hxs in Hrperm.
  assert (Hlen : length (argsort_float xs) = length X)
    by (now rewrite (Permutation_length Hperm), length_seq).
  assert (Hinv : forall r, (r < length X)%nat ->
             nth (nth r (rank_vector argsort_float argsort_int xs) 0%nat)
                 (argsort_float xs) 0%nat = r).
  { intros r Hr.
    apply (ranks_inverse argsort_float argsort_int float_sorts int_sorts).
    now rewrite Hxs. }
  split; [|split].
  - intros k Hk.
    pose proof (Permutation_seq_bound _ _ k Hperm Hk) as Hb.
    rewrite (Hi k Hk). split; [exact Hb|].
    rewrite (Hj _ Hb).
    set (a := nth k (argsort_float xs) 0%nat) in *.
    pose proof (Hinv a Hb) as Ha.
    pose proof (Permutation_seq_bound _ _ a Hrperm Hb) as Hra.
    assert (Hnd : NoDup (argsort_float xs)).
    { eapply Permutation_NoDup;
        [apply Permutation_sym; exact Hperm | apply seq_NoDup]. }
    apply (proj1 (NoDup_nth (argsort_float xs) 0%nat) Hnd); lia.
  - intros k1 k2 Hle Hk2.
    assert (Hk1 : (k1 < length X)%nat) by lia.
    pose proof (Permutation_seq_bound _ _ k1 Hperm Hk1) as Hb1.
    pose proof (Permutation_seq_bound _ _ k2 Hperm Hk2) as Hb2.
    rewrite (Hi k1 Hk1), (Hi k2 Hk2), (HX _ Hb1), (HX _ Hb2).
    destruct (Nat.eq_dec k1 k2) as [-> | Hne]; [lra|].
    apply (StronglySorted_nth _ 0%nat _ Hsorted); lia.
  - intros a b Ha Hb Hab Heq.
    rewrite (Hj a Ha), (Hj b Hb) in Heq.
    apply Hab. rewrite <- (Hinv a Ha), <- (Hinv b Hb). now rewrite Heq.
Qed.

End MoreScalerProofs.

Lemma fit_transform_empty_raises_ValueError_witness :
  fit_transform (stable_argsort Rleb 0) (stable_argsort Nat.leb 0%nat)
                (fun x => x) notebook_globals GaussRankScaler_init []
  = (GaussRankScaler_init,
     Raise (ValueError
        "zero-size array to reduction operation minimum which has no identity")).
Proof.
  apply (fit_transform_empty_raises_ValueError
           (stable_argsort Rleb 0) (stable_argsort Nat.leb 0%nat)
           (fun x => x) notebook_globals GaussRankScaler_init []).
  left. reflexivity.
Defined.

Lemma fit_transform_assertions_hold_witness :
  snd (fit_transform (stable_argsort Rleb 0) (stable_argsort Nat.leb 0%nat)
                     (fun x => x) notebook_globals GaussRankScaler_init
                     [[2; 2]; [2; 1]])
  <> Raise AssertionError.
Proof.
  apply (fit_transform_assertions_hold
           (stable_argsort Rleb 0) (stable_argsort Nat.leb 0%nat)
           (fun x => x)
           stable_argsort_sorts_float stable_argsort_sorts_int).
Defined.

Lemma double_argsort_gives_ranks_witness :
  let X := [[2; 5]; [2; 1]] in
  let j := argsort_axis0_int (stable_argsort Nat.leb 0%nat)
             (argsort_axis0_float (stable_argsort Rleb 0) X) in
  entry 0%nat j 0 0 <> entry 0%nat j 1 0.
Proof.
  assert (Hc : (0 < ncols [[2; 5]; [2; 1]])%nat) by (simpl; lia).
  destruct (double_argsort_gives_ranks
              (stable_argsort Rleb 0) (stable_argsort Nat.leb 0%nat)
              stable_argsort_sorts_float stable_argsort_sorts_int
              [[2; 5]; [2; 1]] 0%nat Hc) as (_ & _ & Hdistinct).
  apply Hdistinct; simpl; lia.
Defined.

(** ** Datasets, loaders and [predict] *)

Lemma batches_fuel_map {A C} (f : A -> C) fuel batch_size (l : list A) :
  batches_fuel fuel batch_size (map f l)
  = map (map f) (batches_fuel fuel batch_size l).
Proof.
  revert l; induction fuel as [|fuel IH]; intros l; [reflexivity|].
  destruct l as [|a l]; [reflexivity|].
  cbn [batches_fuel map].
  change (f a :: map f l) with (map f (a :: l)).
  now rewrite firstn_map, skipn_map, IH.
Qed.

Lemma in_batches_fuel {A} fuel batch_size (l b : list A) (x : A) :
  In b (batches_fuel fuel batch_size l) -> In x b -> In x l.
Proof.
  revert l; induction fuel as [|fuel IH]; intros l Hb Hx; [contradiction|].
  destruct l as [|a l]; [contradiction|].
  cbn [batches_fuel] in Hb.
  rewrite <- (firstn_skipn batch_size (a :: l)). apply in_or_app.
  destruct Hb as [<- | Hb]; [now left | right; now apply IH].
Qed.

(** A batch holds items of the list only. *)
Lemma in_batches {A} batch_size (l b : list A) (x : A) :
  In b (batches batch_size l) -> In x b -> In x l.
Proof. apply in_batches_fuel. Qed.

Lemma batches_map {A C} (f : A -> C) batch_size (l : list A) :
  batches batch_size (map f l) = map (map f) (batches batch_size l).
Proof. unfold batches. rewrite length_map. apply batches_fuel_map. Qed.

Lemma combine_map_map {A C D} (f : A -> C) (g : A -> D) (l : list A) :
  combine (map f l) (map g l) = map (fun x => (f x, g x)) l.
Proof. induction l; simpl; congruence. Qed.

Lemma getitem_in_range ds idx :
  (idx < length (features ds))%nat -> (idx < length (targets ds))%nat ->
  CustomDataset_getitem ds idx
  = Ok (nth idx (features ds) [], nth idx (targets ds) []).
Proof.
  intros Hf Ht. unfold CustomDataset_getitem.
  now rewrite (nth_error_nth' _ [] Hf), (nth_error_nth' _ [] Ht).
Qed.

Lemma getitem_out_of_range ds idx :
  (length (features ds) <= idx)%nat \/ (length (targets ds) <= idx)%nat ->
  CustomDataset_getitem ds idx = Raise IndexError.
Proof.
  intros H. unfold CustomDataset_getitem.
  destruct (nth_error (features ds) idx) eqn:Ef; [|reflexivity].
  destruct (nth_error (targets ds) idx) eqn:Et; [|reflexivity].
  assert ((idx < length (features ds))%nat)
    by (apply nth_error_Some; congruence).
  assert ((idx < length (targets ds))%nat)
    by (apply nth_error_Some; congruence).
  lia.
Qed.

Lemma fetch_items_in_range ds idxs :
  Forall (fun i => (i < length (features ds))%nat
                   /\ (i < length (targets ds))%nat) idxs ->
  fetch_items ds idxs
  = Ok (map (fun i => (nth i (features ds) [], nth i (targets ds) [])) idxs).
Proof.
  induction 1 as [|i idxs [Hf Ht] _ IH]; [reflexivity|].
  cbn [fetch_items map]. rewrite getitem_in_range by assumption.
  cbn [bind]. now rewrite IH.
Qed.

Lemma load_batches_in_range ds bl :
  Forall (fun i => (i < length (features ds))%nat
                   /\ (i < length (targets ds))%nat) (concat bl) ->
  load_batches ds bl
  = Ok (map (fun idxs => (take [] (features ds) idxs,
                          take [] (targets ds) idxs)) bl).
Proof.
  induction bl as [|idxs bl IH]; intros H; [reflexivity|].
  cbn [concat] in H. apply Forall_app in H. destruct H as [H1 H2].
  cbn [load_batches map]. rewrite fetch_items_in_range by assumption.
  cbn [bind]. rewrite IH by assumption. cbn [bind]. f_equal. f_equal.
  unfold collate, take. now rewrite !map_map.
Qed.

(** Fetching raises nothing but IndexError, and raises it as soon as one
    index is out of range. *)
Lemma fetch_items_out_of_range ds idxs i :
  In i idxs ->
  (length (features ds) <= i)%nat \/ (length (targets ds) <= i)%nat ->
  fetch_items ds idxs = Raise IndexError.
Proof.
  intros Hin Hi. induction idxs as [|k idxs IH]; [contradiction|].
  cbn [fetch_items].
  destruct (CustomDataset_getitem ds k) as [item|e] eqn:E.
  - cbn [bind]. destruct Hin as [-> | Hin].
    + rewrite getitem_out_of_range in E by assumption. discriminate.
    + now rewrite IH.
  - cbn [bind]. unfold CustomDataset_getitem in E.
    destruct (nth_error (features ds) k); [|congruence].
    destruct (nth_error (targets ds) k); congruence.
Qed.

Lemma load_batches_out_of_range ds bl i :
  In i (concat bl) ->
  (length (features ds) <= i)%nat \/ (length (targets ds) <= i)%nat ->
  load_batches ds bl = Raise IndexError.
Proof.
  intros Hin Hi. induction bl as [|idxs bl IH]; [contradiction|].
  cbn [concat] in Hin. apply in_app_or in Hin.
  cbn [load_batches].
  destruct (fetch_items ds idxs) as [items|e] eqn:E.
  - cbn [bind]. destruct Hin as [Hin | Hin].
    + rewrite (fetch_items_out_of_range ds idxs i Hin Hi) in E. discriminate.
    + now rewrite IH.
  - cbn [bind]. destruct Hin as [Hin | Hin].
    + rewrite (fetch_items_out_of_range ds idxs i Hin Hi) in E. congruence.
    + clear IH Hin. revert e E. induction idxs as [|k idxs IHk];
        intros e E; [discriminate|].
      cbn [fetch_items] in E.
      destruct (CustomDataset_getitem ds k) as [item|e'] eqn:Ek.
      * cbn [bind] in E. destruct (fetch_items ds idxs) as [r|e''];
          [discriminate|]. cbn [bind] in E.
        specialize (IHk e'' eq_refl). congruence.
      * cbn [bind] in E. unfold CustomDataset_getitem in Ek.
        destruct (nth_error (features ds) k); [|congruence].
        destruct (nth_error (targets ds) k); congruence.
Qed.

(** X7.  A loader with a batch size of at least 1 over a [CustomDataset]
    whose features and targets have one length yields, for a sampler order
    within range, the batches of the reordered features paired with the
    batches of the reordered targets, and raises nothing; without shuffling
    these are the batches of the features and of the targets themselves.
    With the batch size 0 the constructor of the loader raises
    ValueError. *)
Theorem loader_over_dataset_pairs_batches :
  forall (X y : tensor) (batch_size : nat) (order : list nat),
    length X = length y ->
    Forall (fun i => (i < length X)%nat) order ->
    (1 <= batch_size)%nat ->
    let ds := {| features := X; targets := y |} in
    DataLoader_iter ds batch_size order
    = Ok (combine (batches batch_size (take [] X order))
                  (batches batch_size (take [] y order)))
    /\ DataLoader_iter ds batch_size (seq 0 (CustomDataset_len ds))
       = Ok (val_loader batch_size X y)
    /\ exists msg, DataLoader_iter ds 0 order = Raise (ValueError msg).
Proof.
  intros X y bs order Hlen Horder Hb ds.
  assert (Hall : forall order',
             Forall (fun i => (i < length X)%nat) order' ->
             DataLoader_iter ds bs order'
             = Ok (combine (batches bs (take [] X order'))
                           (batches bs (take [] y order')))).
  { intros order' Ho. unfold DataLoader_iter.
    destruct bs as [|b]; [lia|]. cbn [DataLoader_new bind].
    rewrite load_batches_in_range.
    - cbn [features targets ds]. f_equal. unfold take.
      now rewrite !batches_map, combine_map_map.
    - cbn [features targets ds]. rewrite Forall_forall in *. intros i Hi.
      apply in_concat in Hi. destruct Hi as (b0 & Hb0 & Hib).
      pose proof (in_batches _ _ _ _ Hb0 Hib) as H.
      specialize (Ho i H). lia. }
  split; [now apply Hall|]. split; [|eexists; reflexivity].
  rewrite Hall.
  - unfold CustomDataset_len, val_loader, take. cbn [features ds].
    rewrite (map_nth_seq [] X). rewrite Hlen. now rewrite (map_nth_seq [] y).
  - unfold CustomDataset_len. cbn [features ds].
    rewrite Forall_forall. intros i Hi. apply in_seq in Hi. lia.
Qed.

Lemma loader_over_dataset_pairs_batches_witness :
  DataLoader_iter {| features := [[1]; [2]; [3]]; targets := [[0]; [1]; [0]] |}
                  2 [2%nat; 0%nat; 1%nat]
  = Ok (combine (batches 2 (take [] [[1]; [2]; [3]] [2%nat; 0%nat; 1%nat]))
                (batches 2 (take [] [[0]; [1]; [0]] [2%nat; 0%nat; 1%nat]))).
Proof.
  apply (loader_over_dataset_pairs_batches
           [[1]; [2]; [3]] [[0]; [1]; [0]] 2 [2%nat; 0%nat; 1%nat]).
  - reflexivity.
  - repeat constructor.
  - lia.
Defined.

(** X8.  [CustomDataset] does not compare the lengths of its two tensors.
    With fewer targets than features its length is still the number of
    features, an item is served exactly for the indices below the number of
    targets, and a pass of a loader over all its indices raises
    IndexError. *)
Theorem dataset_with_fewer_targets_raises_IndexError :
  forall (X y : tensor) (batch_size : nat),
    (length y < length X)%nat -> (1 <= batch_size)%nat ->
    let ds := {| features := X; targets := y |} in
    CustomDataset_len ds = length X
    /\ (forall idx,
           (idx < length y)%nat <->
           CustomDataset_getitem ds idx = Ok (nth idx X [], nth idx y []))
    /\ (forall idx, (length y <= idx)%nat ->
                    CustomDataset_getitem ds idx = Raise IndexError)
    /\ DataLoader_iter ds batch_size (seq 0 (CustomDataset_len ds))
       = Raise IndexError.
Proof.
  intros X y bs Hlt Hb ds. split; [reflexivity|]. split; [|split].
  - intros idx. split.
    + intros Hi. apply getitem_in_range; cbn [features targets ds]; lia.
    + intros H. destruct (Nat.lt_ge_cases idx (length y)) as [|Hge]; auto.
      rewrite getitem_out_of_range in H; [discriminate|].
      right. exact Hge.
  - intros idx Hi. apply getitem_out_of_range. now right.
  - unfold DataLoader_iter.
    destruct bs as [|b]; [lia|]. cbn [DataLoader_new bind].
    apply load_batches_out_of_range with (i := length y).
    + rewrite concat_batches by assumption. apply in_seq.
      unfold CustomDataset_len. cbn [features ds]. lia.
    + right. cbn [targets ds]. lia.
Qed.

Lemma dataset_with_fewer_targets_raises_IndexError_witness :
  DataLoader_iter {| features := [[1]; [2]; [3]]; targets := [[0]] |} 2
                  (seq 0 3)
  = Raise IndexError.
Proof.
  apply (dataset_with_fewer_targets_raises_IndexError
           [[1]; [2]; [3]] [[0]] 2); simpl; lia.
Defined.

Lemma length_linear (l : Linear) (x : list R) (n_in n_out : nat) :
  layer_shape l n_in n_out -> length (linear l x) = n_out.
Proof.
  intros (Hw & Hb & _). unfold linear.
  rewrite zip_with_length; congruence.
Qed.

Lemma model_shape_input_width m input_shape :
  model_shape m input_shape -> ncols (weight (layer1 m)) = input_shape.
Proof.
  intros [(Hw & _ & Hrows) _]. unfold ncols.
  destruct (weight (layer1 m)) as [|w ws]; [discriminate|].
  now inversion Hrows.
Qed.

(** X9.  For a model with the shapes that [StudentModel(input_shape)]
    builds, [predict] on rows of [input_shape] features returns one row per
    input row, each with exactly two values, and every value lies between
    0 and 1; on a matrix with a row of another width it raises
    RuntimeError. *)
Theorem predict_returns_two_probabilities_per_row :
  forall (m : StudentModel) (input_shape : nat) (X : matrix),
    model_shape m input_shape ->
    Forall (fun x => length x = input_shape) X ->
    (exists P,
        predict m X = Ok P
        /\ length P = length X
        /\ Forall (fun row => length row = 2%nat
                              /\ Forall (fun v => 0 <= v <= 1) row)
                  P)
    /\ (forall X' : matrix,
           Exists (fun x => length x <> input_shape) X' ->
           predict m X' = Raise RuntimeError).
Proof.
  intros m d X Hm HX. pose proof (model_shape_input_width m d Hm) as Hd.
  destruct Hm as [_ Hout]. unfold predict. rewrite Hd. split.
  - rewrite model_call_ok by assumption.
    exists (forward m X). split; [reflexivity|]. unfold forward.
    split; [apply length_map|].
    rewrite Forall_forall. intros row Hrow.
    apply in_map_iff in Hrow. destruct Hrow as (x & <- & _).
    unfold forward_row. split.
    + rewrite length_map. now apply length_linear with (n_in := 16%nat).
    + rewrite Forall_forall. intros v Hv.
      apply in_map_iff in Hv. destruct Hv as (z & <- & _).
      pose proof (sigmoid_bounds z). lra.
  - intros X' Hbad. unfold model_call.
    destruct (forallb _ X') eqn:E; [|reflexivity].
    rewrite forallb_forall in E. apply Exists_exists in Hbad.
    destruct Hbad as (x & Hx & Hne). apply E, Nat.eqb_eq in Hx.
    contradiction.
Qed.

Lemma predict_returns_two_probabilities_per_row_witness :
  exists P,
    predict (zero_model 1) [[0.5]; [2]] = Ok P /\ length P = 2%nat.
Proof.
  destruct (predict_returns_two_probabilities_per_row
              (zero_model 1) 1 [[0.5]; [2]]) as [(P & HP & Hl & _) _].
  - repeat split; repeat constructor.
  - repeat constructor.
  - exists P. split; assumption.
Defined.

(** ** Data frames and [add_features] *)

Lemma df_get_missing df c e : df_get df c = inl e -> e = KeyError c.
Proof.
  induction df as [|[name values] df IH]; simpl.
  - congruence.
  - destruct (String.eqb name c); [discriminate | exact IH].
Qed.

Lemma df_get_in df c :
  In c (df_columns df) <-> exists v, df_get df c = inr v.
Proof.
  induction df as [|[name values] df IH]; simpl.
  - split; [contradiction | intros [v H]; discriminate].
  - destruct (String.eqb name c) eqn:E.
    + apply String.eqb_eq in E. split; eauto.
    + apply String.eqb_neq in E. rewrite <- IH. tauto.
Qed.

Lemma df_get_set_same df c v : df_get (df_set df c v) c = inr v.
Proof.
  induction df as [|[name old] df IH]; simpl.
  - now rewrite String.eqb_refl.
  - destruct (String.eqb name c) eqn:E; simpl; rewrite E; auto.
Qed.

Lemma df_get_set_other df c c' v :
  c <> c' -> df_get (df_set df c v) c' = df_get df c'.
Proof.
  intros Hne. induction df as [|[name old] df IH]; simpl.
  - apply String.eqb_neq in Hne. now rewrite Hne.
  - destruct (String.eqb name c) eqn:E; simpl.
    + apply String.eqb_eq in E. subst name.
      apply String.eqb_neq in Hne. now rewrite Hne.
    + destruct (String.eqb name c'); auto.
Qed.

(** Writing to a column the values it holds changes nothing. *)
Lemma df_set_same_values df c v : df_get df c = inr v -> df_set df c v = df.
Proof.
  induction df as [|[name old] df IH]; simpl; [discriminate|].
  destruct (String.eqb name c) eqn:E.
  - intros H. injection H as ->. reflexivity.
  - intros H. now rewrite IH.
Qed.

Lemma df_columns_set df c v :
  df_columns (df_set df c v)
  = if existsb (String.eqb c) (df_columns df) then df_columns df
    else df_columns df ++ [c].
Proof.
  induction df as [|[name old] df IH]; simpl; [reflexivity|].
  rewrite (String.eqb_sym c name).
  destruct (String.eqb name c) eqn:E; simpl; [reflexivity|].
  rewrite IH. now destruct (existsb (String.eqb c) (df_columns df)).
Qed.

Lemma df_columns_set_in df k v c :
  In c (df_columns (df_set df k v)) <-> In c (df_columns df) \/ c = k.
Proof.
  rewrite df_columns_set.
  destruct (existsb (String.eqb k) (df_columns df)) eqn:E.
  - split; [tauto|]. intros [H | ->]; auto.
    apply existsb_exists in E. destruct E as (x & Hx & Hxk).
    apply String.eqb_eq in Hxk. now subst.
  - rewrite in_app_iff. simpl. intuition.
Qed.

(** X10.  [add_features] succeeds exactly when the frame has the columns
    [f_2] and [f_28].  Without [f_2] it raises KeyError and leaves the frame
    as it was; with [f_2] but without [f_28] it raises KeyError after it
    has already written [f_2_log] into the frame. *)
Theorem add_features_KeyError :
  forall df : DataFrame,
    (snd (add_features df) = None <->
     In "f_2"%string (df_columns df) /\ In "f_28"%string (df_columns df))
    /\ (~ In "f_2"%string (df_columns df) ->
        add_features df = (df, Some (KeyError "f_2")))
    /\ (forall f_2,
           df_get df "f_2" = inr f_2 ->
           ~ In "f_28"%string (df_columns df) ->
           add_features df
           = (df_set df "f_2_log" (map log1p f_2), Some (KeyError "f_28"))
           /\ df_get (fst (add_features df)) "f_2_log"
              = inr (map log1p f_2)).
Proof.
  intros df.
  assert (H28 : forall v, df_get (df_set df "f_2_log" v) "f_28"
                          = df_get df "f_28")
    by (intros v; apply df_get_set_other; discriminate).
  split; [|split].
  - unfold add_features. rewrite !df_get_in.
    destruct (df_get df "f_2") as [e|a] eqn:E2; cbn [snd].
    + split; [discriminate | intros [[v Hv] _]; discriminate].
    + rewrite H28.
      destruct (df_get df "f_28") as [e|b] eqn:E28; cbn [snd].
      * split; [discriminate | intros [_ [v Hv]]; discriminate].
      * split; eauto.
  - intros Hno. unfold add_features.
    destruct (df_get df "f_2") as [e|a] eqn:E2.
    + now rewrite (df_get_missing _ _ _ E2).
    + exfalso. apply Hno. apply df_get_in. eauto.
  - intros a E2 Hno. unfold add_features. rewrite E2, H28.
    destruct (df_get df "f_28") as [e|b] eqn:E28.
    + rewrite (df_get_missing _ _ _ E28). cbn [fst].
      split; [reflexivity | apply df_get_set_same].
    + exfalso. apply Hno. apply df_get_in. eauto.
Qed.

(** What a call that succeeds leaves in the frame. *)
Lemma add_features_success df df' :
  add_features df = (df', None) ->
  exists f_2 f_28,
    df_get df "f_2" = inr f_2 /\ df_get df "f_28" = inr f_28
    /\ df' = df_set (df_set df "f_2_log" (map log1p f_2))
                    "f_28_log" (map log1p f_28).
Proof.
  unfold add_features.
  destruct (df_get df "f_2") as [e|a] eqn:E2; [discriminate|].
  rewrite (df_get_set_other df "f_2_log" "f_28") by discriminate.
  destruct (df_get df "f_28") as [e|b] eqn:E28; [discriminate|].
  intros H. injection H as <-. eauto.
Qed.

(** X11.  A call of [add_features] that succeeds stores [log1p] of [f_2]
    and of [f_28] under [f_2_log] and [f_28_log], leaves every other column
    as it was, and adds no column beyond these two. *)
Theorem add_features_adds_two_log_columns :
  forall (df df' : DataFrame),
    add_features df = (df', None) ->
    (exists f_2, df_get df "f_2" = inr f_2
                 /\ df_get df' "f_2_log" = inr (map log1p f_2))
    /\ (exists f_28, df_get df "f_28" = inr f_28
                     /\ df_get df' "f_28_log" = inr (map log1p f_28))
    /\ (forall c, c <> "f_2_log"%string -> c <> "f_28_log"%string ->
                  df_get df' c = df_get df c)
    /\ (forall c, In c (df_columns df') <->
                  In c (df_columns df) \/ c = "f_2_log"%string
                  \/ c = "f_28_log"%string).
Proof.
  intros df df' H.
  destruct (add_features_success df df' H) as (a & b & E2 & E28 & ->).
  split; [|split; [|split]].
  - exists a. split; [exact E2|].
    rewrite df_get_set_other by discriminate. apply df_get_set_same.
  - exists b. split; [exact E28 | apply df_get_set_same].
  - intros c H2 H28. rewrite !df_get_set_other by congruence. reflexivity.
  - intros c. rewrite !df_columns_set_in. tauto.
Qed.

(** X12.  [add_features] is idempotent: a second call on the frame that a
    first call leaves, whether it succeeded or raised, changes nothing and
    ends as the first did. *)
Theorem add_features_idempotent :
  forall df : DataFrame,
    add_features (fst (add_features df)) = add_features df.
Proof.
  intros df. unfold add_features at 2 3.
  destruct (df_get df "f_2") as [e|a] eqn:E2.
  - cbn [fst]. unfold add_features. now rewrite E2.
  - rewrite (df_get_set_other df "f_2_log" "f_28") by discriminate.
    destruct (df_get df "f_28") as [e|b] eqn:E28; cbn [fst].
    + unfold add_features.
      rewrite (df_get_set_other df "f_2_log" "f_2") by discriminate.
      rewrite E2.
      rewrite (df_set_same_values _ _ _ (df_get_set_same df "f_2_log" _)).
      rewrite (df_get_set_other df "f_2_log" "f_28") by discriminate.
      now rewrite E28.
    + set (df1 := df_set df "f_2_log" (map log1p a)).
      set (df2 := df_set df1 "f_28_log" (map log1p b)).
      assert (G2 : df_get df2 "f_2" = inr a).
      { unfold df2, df1. now rewrite !df_get_set_other by discriminate. }
      assert (G2l : df_get df2 "f_2_log" = inr (map log1p a)).
      { unfold df2, df1. rewrite df_get_set_other by discriminate.
        apply df_get_set_same. }
      assert (G28 : df_get df2 "f_28" = inr b).
      { unfold df2, df1. now rewrite !df_get_set_other by discriminate. }
      assert (G28l : df_get df2 "f_28_log" = inr (map log1p b))
        by apply df_get_set_same.
      unfold add_features. rewrite G2.
      rewrite (df_set_same_values _ _ _ G2l), G28.
      now rewrite (df_set_same_values _ _ _ G28l).
Qed.

Lemma add_features_adds_two_log_columns_witness :
  df_get (fst (add_features [("id"%string, [7]); ("f_2"%string, [0]);
                             ("f_28"%string, [1]); ("target"%string, [1])]))
         "f_2"
  = inr [0].
Proof.
  assert (H : add_features [("id"%string, [7]); ("f_2"%string, [0]);
                            ("f_28"%string, [1]); ("target"%string, [1])]
              = ([("id"%string, [7]); ("f_2"%string, [0]);
                  ("f_28"%string, [1]); ("target"%string, [1]);
                  ("f_2_log"%string, map log1p [0]);
                  ("f_28_log"%string, map log1p [1])], None))
    by reflexivity.
  destruct (add_features_adds_two_log_columns _ _ H) as (_ & _ & Hkeep & _).
  rewrite H. cbn [fst]. rewrite Hkeep by discriminate. reflexivity.
Defined.

Lemma df_select_present df cols :
  (forall c, In c cols -> In c (df_columns df)) ->
  exists vs, df_select df cols = inr vs /\ length vs = length cols.
Proof.
  induction cols as [|c cols IH]; intros H.
  - exists []. auto.
  - destruct (proj1 (df_get_in df c) (H c (or_introl eq_refl))) as [v Hv].
    destruct IH as (vs & Hvs & Hl); [intros; apply H; now right|].
    exists (v :: vs). cbn [df_select]. rewrite Hv, Hvs. simpl. auto.
Qed.

Lemma df_select_missing df cols c :
  In c cols -> ~ In c (df_columns df) ->
  exists e, df_select df cols = inl e.
Proof.
  intros Hin Hno. induction cols as [|k cols IH]; [contradiction|].
  cbn [df_select]. destruct (df_get df k) as [e|v] eqn:E; [eauto|].
  destruct Hin as [-> | Hin].
  - exfalso. apply Hno. apply df_get_in. eauto.
  - destruct (IH Hin) as [e ->]. eauto.
Qed.

Lemma from_columns_width {A} (d : A) n cols :
  Forall (fun r => length r = length cols) (from_columns d n cols).
Proof.
  unfold from_columns. rewrite Forall_forall. intros r Hr.
  apply in_map_iff in Hr. destruct Hr as (k & <- & _). apply length_map.
Qed.

Lemma feature_cols_in df c :
  In c (feature_cols df) <->
  In c (df_columns df) /\ String.prefix "f_" c = true.
Proof. unfold feature_cols. apply filter_In. Qed.

(** X13.  After [add_features] on both frames, the feature columns chosen
    from the training frame include the two logarithms, and when the test
    frame has every feature column of the training frame, both feature
    matrices are built and their rows have one width, the number of feature
    columns; a feature column that the test frame lacks makes the test
    matrix raise KeyError. *)
Theorem feature_matrices_have_one_width :
  forall (train test train' test' : DataFrame),
    add_features train = (train', None) ->
    add_features test = (test', None) ->
    let cols := feature_cols train' in
    In "f_2_log"%string cols /\ In "f_28_log"%string cols
    /\ ((forall c, In c (feature_cols train) -> In c (df_columns test)) ->
        exists X X_test,
          df_values train' cols = inr X
          /\ df_values test' cols = inr X_test
          /\ Forall (fun r => length r = length cols) X
          /\ Forall (fun r => length r = length cols) X_test)
    /\ (forall c, In c cols -> ~ In c (df_columns test') ->
                  exists e, df_values test' cols = inl e).
Proof.
  intros train test train' test' Htrain Htest cols.
  destruct (add_features_success _ _ Htrain) as (a & b & _ & _ & Etrain).
  destruct (add_features_success _ _ Htest) as (a' & b' & _ & _ & Etest).
  assert (Hcols_train : forall c, In c (df_columns train') <->
                                  In c (df_columns train)
                                  \/ c = "f_2_log"%string
                                  \/ c = "f_28_log"%string).
  { intros c. subst train'. rewrite !df_columns_set_in. tauto. }
  assert (Hcols_test : forall c, In c (df_columns test') <->
                                 In c (df_columns test)
                                 \/ c = "f_2_log"%string
                                 \/ c = "f_28_log"%string).
  { intros c. subst test'. rewrite !df_columns_set_in. tauto. }
  split; [|split; [|split]].
  - apply feature_cols_in. split; [apply Hcols_train; auto | reflexivity].
  - apply feature_cols_in. split; [apply Hcols_train; auto | reflexivity].
  - intros Hsub.
    destruct (df_select_present train' cols) as (vs & Hvs & Hl).
    { intros c Hc. now apply feature_cols_in in Hc. }
    destruct (df_select_present test' cols) as (ws & Hws & Hl').
    { intros c Hc. apply feature_cols_in in Hc. destruct Hc as [Hc Hp].
      apply Hcols_test. apply Hcols_train in Hc.
      destruct Hc as [Hc | Hc]; [left | right; exact Hc].
      apply Hsub. apply feature_cols_in. auto. }
    exists (from_columns 0 (df_nrows train') vs),
           (from_columns 0 (df_nrows test') ws).
    unfold df_values. rewrite Hvs, Hws.
    repeat split; try reflexivity.
    + rewrite <- Hl. apply from_columns_width.
    + rewrite <- Hl'. apply from_columns_width.
  - intros c Hc Hno. unfold df_values.
    destruct (df_select_missing test' cols c Hc Hno) as [e ->]. eauto.
Qed.

Lemma feature_matrices_have_one_width_witness :
  In "f_2_log"%string
     (feature_cols
        [("id"%string, [7]); ("f_2"%string, [0]); ("f_28"%string, [1]);
         ("target"%string, [1]); ("f_2_log"%string, map log1p [0]);
         ("f_28_log"%string, map log1p [1])]).
Proof.
  assert (H : add_features [("id"%string, [7]); ("f_2"%string, [0]);
                            ("f_28"%string, [1]); ("target"%string, [1])]
              = ([("id"%string, [7]); ("f_2"%string, [0]);
                  ("f_28"%string, [1]); ("target"%string, [1]);
                  ("f_2_log"%string, map log1p [0]);
                  ("f_28_log"%string, map log1p [1])], None))
    by reflexivity.
  assert (H' : add_features [("id"%string, [8]); ("f_2"%string, [3]);
                             ("f_28"%string, [4])]
               = ([("id"%string, [8]); ("f_2"%string, [3]);
                   ("f_28"%string, [4]);
                   ("f_2_log"%string, map log1p [3]);
                   ("f_28_log"%string, map log1p [4])], None))
    by reflexivity.
  destruct (feature_matrices_have_one_width _ _ _ _ H H') as (Hin & _).
  exact Hin.
Defined.

(** ** Training: checkpoints and edge cases *)

Lemma last_write_other_path (p q : string) (ms : list StudentModel) :
  p <> q -> last_write (map (pair q) ms) p = None.
Proof.
  intros Hne. apply last_write_none. intros m Hin.
  apply in_map_iff in Hin. destruct Hin as (m0 & H & _). congruence.
Qed.

Lemma np_mean_below l b :
  xlt (np_mean l) b = true -> exists v, np_mean l = Finite v.
Proof. destruct l; simpl; [discriminate | eauto]. Qed.

Section MoreTrainingProofs.

Context {B : Backend}.

(** The epochs of a fold leave every file but the checkpoint of the fold as
    it was. *)
Lemma epoch_loop_frame fold batch_size X_train y_train X_val y_val e s p :
  p <> checkpoint_path fold ->
  w_fs (st_world (epoch_loop e fold batch_size X_train y_train X_val y_val s))
       p
  = w_fs (st_world s) p.
Proof.
  intros Hp. destruct s as [m o b [g fs]].
  destruct (epoch_loop_writes fold batch_size X_train y_train X_val y_val
                              e m o b g)
    as (m' & o' & b' & g' & ms & Heq & _).
  rewrite Heq. cbn [st_world w_fs].
  now rewrite apply_writes_lookup, last_write_other_path.
Qed.

(** X14.  The checkpoints of two different folds are two different files,
    and the epochs of a fold never change the checkpoint of another
    fold. *)
Theorem folds_keep_separate_checkpoints :
  forall (f g : nat),
    f <> g ->
    checkpoint_path f <> checkpoint_path g
    /\ forall e batch_size X_train y_train X_val y_val (s : fold_state),
         w_fs (st_world (epoch_loop e f batch_size X_train y_train
                                    X_val y_val s))
              (checkpoint_path g)
         = w_fs (st_world s) (checkpoint_path g).
Proof.
  intros f g Hfg.
  assert (Hp : checkpoint_path g <> checkpoint_path f).
  { intros H. apply checkpoint_path_inj in H. congruence. }
  split; [congruence|].
  intros. now apply epoch_loop_frame.
Qed.

(** After any number of epochs that start from the best loss [inf], either
    nothing has been saved and the best loss is still [inf], or the
    checkpoint of the fold holds a model whose validation loss is the best
    loss. *)
Lemma checkpoint_matches_best fold batch_size X_train y_train X_val y_val
      (s0 : fold_state) (e : nat) :
  st_best_val_loss s0 = PInf ->
  let s := state_after fold batch_size X_train y_train X_val y_val s0 e in
  (st_best_val_loss s = PInf
   /\ w_fs (st_world s) (checkpoint_path fold)
      = w_fs (st_world s0) (checkpoint_path fold))
  \/ (exists m v,
         st_best_val_loss s = Finite v
         /\ w_fs (st_world s) (checkpoint_path fold) = Some m
         /\ validation_pass batch_size X_val y_val m = Finite v).
Proof.
  intros H0. cbv zeta. induction e as [|e IH].
  - left. split; [exact H0 | reflexivity].
  - rewrite state_after_S.
    pose proof (run_epoch_spec fold batch_size X_train y_train X_val y_val
                  (state_after fold batch_size X_train y_train X_val y_val
                               s0 e)) as Hstep.
    destruct (train_pass _ _ _ _ _ _) as [[[model opt] tl] g].
    destruct Hstep as (Hm & _ & _ & Hbest & Hfs).
    rewrite Hbest, Hfs. unfold xmin.
    destruct (xlt (mean_validation_loss batch_size X_val y_val model)
                  (st_best_val_loss
                     (state_after fold batch_size X_train y_train
                                  X_val y_val s0 e))) eqn:E.
    + right. destruct (np_mean_below _ _ E) as [v Hv].
      fold (mean_validation_loss batch_size X_val y_val model) in Hv.
      exists model, v. split; [exact Hv|].
      split; [|now rewrite validation_pass_spec].
      unfold fs_write. now rewrite String.eqb_refl.
    + exact IH.
Qed.

Lemma world_after_cons epochs batch_size r runs w :
  world_after epochs batch_size (r :: runs) w
  = world_after epochs batch_size runs
                (st_world (run_final epochs batch_size r)).
Proof. reflexivity. Qed.

(** The folds from [fold] on leave the files that are not their checkpoints
    as they were. *)
Lemma fold_runs_frame X y tp epochs batch_size splits p :
  forall fold w,
    (forall f, (fold <= f)%nat -> p <> checkpoint_path f) ->
    w_fs (world_after epochs batch_size
                      (fold_runs X y tp epochs batch_size fold splits w) w) p
    = w_fs w p.
Proof.
  induction splits as [|[train_idx val_idx] splits IH]; intros fold w Hp;
    [reflexivity|].
  cbn [fold_runs].
  destruct (fold_setup X y (Some tp) train_idx val_idx batch_size w)
    as [[[[[Xt yt] Xv] yv] s]|e] eqn:E; [|reflexivity].
  rewrite world_after_cons.
  rewrite IH by (intros f Hf; apply Hp; lia).
  unfold run_final, state_after. cbn [run_fold run_X_train run_y_train
    run_X_val run_y_val run_init].
  rewrite epoch_loop_frame by (apply Hp; lia).
  unfold fold_setup in E.
  repeat match type of E with
         | bind ?r _ = _ => destruct r; [cbn [bind] in E | discriminate]
         end.
  destruct (StudentModel_new (ncols X) (w_rng w)).
  injection E as _ _ _ _ <-. reflexivity.
Qed.

(** X15.  After a call of [train_model] with teacher predictions that
    scikit-learn and the loaders accept, the checkpoint of every fold whose
    best validation loss is finite holds a model whose mean validation loss
    on the validation rows of that fold is exactly that best loss: the
    parameters saved are those of the score reported. *)
Theorem checkpoints_hold_the_best_models :
  forall (X : matrix) (y teacher_preds : list R)
         (n_splits epochs batch_size : nat) (w : world),
    KFold_contract ->
    (2 <= n_splits)%nat -> (n_splits <= length X)%nat ->
    (length X <= length y)%nat -> (length X <= length teacher_preds)%nat ->
    (1 <= batch_size)%nat ->
    let splits := fst (KFold_split n_splits (length X) (w_rng w)) in
    let w0 := {| w_rng := snd (KFold_split n_splits (length X) (w_rng w));
                 w_fs := w_fs w |} in
    let runs := fold_runs X y teacher_preds epochs batch_size 0 splits w0 in
    let after :=
      snd (train_model X y (Some teacher_preds) n_splits epochs batch_size w)
    in
    length runs = n_splits
    /\ Forall (fun r =>
                 forall v,
                   minimum (run_val_losses epochs batch_size r) = Finite v ->
                   exists m,
                     w_fs after (checkpoint_path (run_fold r)) = Some m
                     /\ validation_pass batch_size (run_X_val r)
                                        (run_y_val r) m
                        = Finite v)
              runs.
Proof.
  intros X y tp k epochs bs w HK H2 Hk Hy Htp Hb splits w0 runs after.
  destruct (KFold_contract_in_range k (length X) (w_rng w) HK H2 Hk)
    as (Hlen & Hrange & _).
  fold splits in Hlen, Hrange.
  split.
  { rewrite <- (length_map run_fold). unfold runs.
    rewrite fold_runs_indices by assumption. now rewrite length_seq. }
  assert (Hafter : after = world_after epochs bs runs w0).
  { unfold after. rewrite train_model_accepted by assumption.
    fold splits w0. now rewrite fold_loop_runs. }
  rewrite Hafter. clear Hafter after Hlen. subst runs.
  generalize 0%nat as fold. generalize w0 as w1. clear w0.
  induction Hrange as [|[train_idx val_idx] sp Hs _ IH]; intros w1 fold;
    [constructor|].
  cbn [fold_runs]. rewrite fold_setup_ok by assumption.
  set (r := {| run_fold := fold; run_world := w1;
               run_X_train := take [] X train_idx;
               run_y_train := column_stack (take 0 y train_idx)
                                           (take 0 tp train_idx);
               run_X_val := take [] X val_idx;
               run_y_val := column_stack (take 0 y val_idx)
                                         (take 0 tp val_idx);
               run_init := _ |}).
  rewrite world_after_cons. constructor; [|apply IH].
  intros v Hv.
  rewrite fold_runs_frame.
  2:{ intros f Hf H. apply checkpoint_path_inj in H. cbn [run_fold r] in H.
      lia. }
  destruct (checkpoint_matches_best (run_fold r) bs (run_X_train r)
              (run_y_train r) (run_X_val r) (run_y_val r) (run_init r)
              epochs eq_refl) as [[Hinf _] | (m & v' & Hbest & Hfs & Hval)].
  - exfalso.
    rewrite (best_is_minimum _ _ _ _ _ _ (run_init r) epochs eq_refl)
      in Hinf.
    unfold run_val_losses in Hv. congruence.
  - rewrite (best_is_minimum _ _ _ _ _ _ (run_init r) epochs eq_refl)
      in Hbest.
    unfold run_val_losses in Hv. rewrite Hv in Hbest.
    injection Hbest as <-.
    exists m. split; [exact Hfs | exact Hval].
Qed.

(** X16.  With [epochs = 0] a call of [train_model] with teacher
    predictions that scikit-learn and the loaders accept returns [inf], the
    best loss of a fold being never updated; and with [epochs = 0] no call,
    accepted or not, saves a checkpoint or changes a file. *)
Theorem train_model_without_epochs :
  forall (X : matrix) (y teacher_preds : list R)
         (n_splits batch_size : nat) (w : world),
    KFold_contract ->
    (2 <= n_splits)%nat -> (n_splits <= length X)%nat ->
    (length X <= length y)%nat -> (length X <= length teacher_preds)%nat ->
    (1 <= batch_size)%nat ->
    fst (train_model X y (Some teacher_preds) n_splits 0 batch_size w)
    = Ok PInf
    /\ forall X' y' teacher_preds' n_splits' batch_size' w',
         w_fs (snd (train_model X' y' teacher_preds' n_splits' 0
                                batch_size' w'))
         = w_fs w'.
Proof.
  intros X y tp k bs w HK H2 Hk Hy Htp Hb. split.
  - destruct w as [g fs].
    destruct (train_model_writes X y (Some tp) k 0 bs g)
      as (res & g' & ws & Hrun & _ & _ & Hok).
    destruct (Hok tp eq_refl HK H2 Hk Hy Htp Hb) as (_ & Hinf & _).
    rewrite Hrun. cbn [fst]. now apply Hinf.
  - intros X' y' tp' k' bs' [g fs].
    destruct (train_model_writes X' y' tp' k' 0 bs' g)
      as (res & g' & ws & Hrun & _ & Hnone & _).
    rewrite Hrun, (Hnone eq_refl). reflexivity.
Qed.

(** X17.  Without teacher predictions ([teacher_preds = None]) a call of
    [train_model] that the k-fold partition accepts, with a label for every
    row, raises TypeError in its first fold at [teacher_preds[train_idx]],
    before any loader or model is built, for every number of epochs and
    every batch size, and changes no file. *)
Theorem train_model_without_teacher :
  forall (X : matrix) (y : list R) (n_splits epochs batch_size : nat)
         (w : world),
    KFold_contract ->
    (2 <= n_splits)%nat -> (n_splits <= length X)%nat ->
    (length X <= length y)%nat ->
    fst (train_model X y None n_splits epochs batch_size w)
    = Raise (TypeError "'NoneType' object is not subscriptable")
    /\ w_fs (snd (train_model X y None n_splits epochs batch_size w))
       = w_fs w.
Proof.
  intros X y k epochs bs w HK H2 Hk Hy.
  rewrite train_model_None by assumption. split; reflexivity.
Qed.

Lemma getitem_raises {A} (d : A) (a : list A) idx e :
  getitem d a idx = Raise e -> e = IndexError.
Proof.
  unfold getitem. destruct (forallb _ idx); [discriminate|].
  now intros [= <-].
Qed.

Lemma getitem_Ok_inv {A} (d : A) (a : list A) idx l :
  getitem d a idx = Ok l -> Forall (fun i => (i < length a)%nat) idx.
Proof.
  unfold getitem. destruct (forallb _ idx) eqn:E; [|discriminate].
  intros _. rewrite forallb_forall in E. apply Forall_forall.
  intros i Hi. now apply Nat.ltb_lt, E.
Qed.

(** With indices within the rows, a label or a teacher prediction that is
    missing for an index of the split raises IndexError. *)
Lemma fold_setup_short X y tp train_idx val_idx batch_size w :
  split_in_range (length X) (train_idx, val_idx) ->
  Exists (fun i => (length y <= i)%nat \/ (length tp <= i)%nat)
         (train_idx ++ val_idx) ->
  fold_setup X y (Some tp) train_idx val_idx batch_size w = Raise IndexError.
Proof.
  intros [Ht Hv] Hbad. cbn [fst snd] in Ht, Hv.
  unfold fold_setup, index_teacher.
  rewrite (getitem_ok [] X train_idx Ht), (getitem_ok [] X val_idx Hv).
  cbn [bind].
  destruct (getitem 0 y train_idx) eqn:E1;
    [|apply getitem_raises in E1; now subst].
  cbn [bind]. destruct (getitem 0 tp train_idx) eqn:E2;
    [|apply getitem_raises in E2; now subst].
  cbn [bind]. destruct (getitem 0 y val_idx) eqn:E3;
    [|apply getitem_raises in E3; now subst].
  cbn [bind]. destruct (getitem 0 tp val_idx) eqn:E4;
    [|apply getitem_raises in E4; now subst].
  exfalso.
  apply getitem_Ok_inv in E1, E2, E3, E4.
  rewrite Forall_forall in E1, E2, E3, E4.
  apply Exists_exists in Hbad. destruct Hbad as (i & Hi & Hle).
  apply in_app_or in Hi.
  destruct Hi as [Hi | Hi];
    [specialize (E1 i Hi); specialize (E2 i Hi)
    |specialize (E3 i Hi); specialize (E4 i Hi)]; lia.
Qed.

(** X23.  The calls that [train_model] refuses, each before any checkpoint
    is written.  Fewer than two folds raise ValueError when the k-fold
    partition is built, and more folds than rows when it is asked for its
    splits, both before the generators are touched.  In a call that the
    partition accepts, a label or a teacher prediction missing for an index
    of the first split raises IndexError, and otherwise a batch size of 0
    raises ValueError when the first loader is built. *)
Theorem train_model_refuses_bad_arguments :
  forall (X : matrix) (y teacher_preds : list R)
         (n_splits epochs batch_size : nat) (w : world),
    ((n_splits < 2)%nat ->
     exists msg,
       train_model X y (Some teacher_preds) n_splits epochs batch_size w
       = (Raise (ValueError msg), w))
    /\ ((2 <= n_splits)%nat -> (length X < n_splits)%nat ->
        exists msg,
          train_model X y (Some teacher_preds) n_splits epochs batch_size w
          = (Raise (ValueError msg), w))
    /\ (KFold_contract ->
        (2 <= n_splits)%nat -> (n_splits <= length X)%nat ->
        let first := hd ([], []) (fst (KFold_split n_splits (length X)
                                                   (w_rng w))) in
        (Exists (fun i => (length y <= i)%nat
                          \/ (length teacher_preds <= i)%nat)
                (fst first ++ snd first) ->
         fst (train_model X y (Some teacher_preds) n_splits epochs
                          batch_size w)
         = Raise IndexError
         /\ w_fs (snd (train_model X y (Some teacher_preds) n_splits epochs
                                   batch_size w))
            = w_fs w)
        /\ ((length X <= length y)%nat ->
            (length X <= length teacher_preds)%nat ->
            (exists msg,
                fst (train_model X y (Some teacher_preds) n_splits epochs
                                 0 w)
                = Raise (ValueError msg))
            /\ w_fs (snd (train_model X y (Some teacher_preds) n_splits
                                      epochs 0 w))
               = w_fs w)).
Proof.
  intros X y tp k epochs bs w.
  split; [intros; eexists; now apply train_model_too_few|].
  split; [intros; eexists; now apply train_model_too_many|].
  intros HK H2 Hk first.
  destruct (KFold_contract_in_range k (length X) (w_rng w) HK H2 Hk)
    as (Hlen & Hrange & _).
  subst first. rewrite !train_model_accepted by assumption.
  destruct (fst (KFold_split k (length X) (w_rng w)))
    as [|[train_idx val_idx] splits]; [simpl in Hlen; lia|].
  inversion Hrange as [|? ? Hs _]; subst. cbn [hd fst snd fold_loop].
  split.
  - intros Hbad. rewrite fold_setup_short by assumption.
    split; reflexivity.
  - intros Hy Htp. unfold fold_setup, index_teacher.
    destruct Hs as [Ht Hv]. cbn [fst snd] in Ht, Hv.
    rewrite (getitem_ok [] X train_idx Ht), (getitem_ok [] X val_idx Hv).
    rewrite (getitem_ok 0 y train_idx), (getitem_ok 0 y val_idx)
      by (eapply Forall_lt_le; eassumption).
    rewrite (getitem_ok 0 tp train_idx), (getitem_ok 0 tp val_idx)
      by (eapply Forall_lt_le; eassumption).
    split; [eexists|]; reflexivity.
Qed.

Lemma bind_keywords_unknown kwargs name v o :
  In (name, v) kwargs ->
  name <> "n_splits"%string -> name <> "epochs"%string ->
  name <> "batch_size"%string ->
  exists msg, bind_keywords kwargs o = Raise (TypeError msg).
Proof.
  intros Hin H1 H2 H3. revert o.
  induction kwargs as [|[k u] kwargs IH]; intros o; [contradiction|].
  cbn [bind_keywords].
  destruct Hin as [Heq | Hin].
  - injection Heq as -> ->.
    apply String.eqb_neq in H1, H2, H3. rewrite H1, H2, H3.
    unfold unexpected_keyword. eauto.
  - destruct (String.eqb k "n_splits");
      [destruct u; [apply IH, Hin | eauto]|].
    destruct (String.eqb k "epochs");
      [destruct u; [apply IH, Hin | eauto]|].
    destruct (String.eqb k "batch_size");
      [destruct u; [apply IH, Hin | eauto]|].
    unfold unexpected_keyword. eauto.
Qed.

(** X18.  A call of [train_model] with a keyword that is none of
    [n_splits], [epochs] and [batch_size] raises TypeError wherever the
    keyword stands among the others, and runs nothing: the generators and
    the files are as before. *)
Theorem unknown_keyword_raises_TypeError :
  forall (X : matrix) (y : list R) (teacher_preds : option (list R))
         (kwargs : list (string * kwarg_value)) (name : string)
         (v : kwarg_value) (w : world),
    In (name, v) kwargs ->
    name <> "n_splits"%string -> name <> "epochs"%string ->
    name <> "batch_size"%string ->
    exists msg,
      call_train_model X y teacher_preds kwargs w = (Raise (TypeError msg), w).
Proof.
  intros X y tp kwargs name v w Hin H1 H2 H3.
  destruct (bind_keywords_unknown kwargs name v default_options Hin H1 H2 H3)
    as [msg Hmsg].
  exists msg. unfold call_train_model. now rewrite Hmsg.
Qed.

End MoreTrainingProofs.

Lemma checkpoints_hold_the_best_models_witness :
  length (@fold_runs test_backend [[1]; [2]] [0; 1] [0.25; 0.75] 1 1 0
            (fst (@KFold_split test_backend 2 2 0%nat))
            (@Build_world test_backend
               (snd (@KFold_split test_backend 2 2 0%nat)) empty_fs))
  = 2%nat.
Proof.
  assert (H2 : (2 <= 2)%nat) by lia.
  assert (H1 : (1 <= 1)%nat) by lia.
  destruct (@checkpoints_hold_the_best_models
              test_backend [[1]; [2]] [0; 1] [0.25; 0.75] 2 1 1
              (@Build_world test_backend 0%nat empty_fs)
              test_backend_KFold H2 H2 H2 H2 H1) as [H _].
  exact H.
Defined.

Lemma train_model_without_epochs_witness :
  fst (@train_model test_backend [[1]; [2]] [0; 1] (Some [0.25; 0.75]) 2 0 1
                    (@Build_world test_backend 0%nat empty_fs))
  = Ok PInf.
Proof.
  assert (H2 : (2 <= 2)%nat) by lia.
  assert (H1 : (1 <= 1)%nat) by lia.
  destruct (@train_model_without_epochs
              test_backend [[1]; [2]] [0; 1] [0.25; 0.75] 2 1
              (@Build_world test_backend 0%nat empty_fs)
              test_backend_KFold H2 H2 H2 H2 H1) as [H _].
  exact H.
Defined.

Lemma train_model_without_teacher_witness :
  fst (@train_model test_backend [[1]; [2]] [0; 1] None 2 3 1
                    (@Build_world test_backend 0%nat empty_fs))
  = Raise (TypeError "'NoneType' object is not subscriptable").
Proof.
  assert (H2 : (2 <= 2)%nat) by lia.
  destruct (@train_model_without_teacher
              test_backend [[1]; [2]] [0; 1] 2 3 1
              (@Build_world test_backend 0%nat empty_fs)
              test_backend_KFold H2 H2 H2) as [H _].
  exact H.
Defined.

Lemma folds_keep_separate_checkpoints_witness :
  checkpoint_path 1 <> checkpoint_path 10.
Proof.
  assert (H : 1%nat <> 10%nat) by lia.
  destruct (@folds_keep_separate_checkpoints test_backend 1 10 H) as [Hp _].
  exact Hp.
Defined.

Lemma unknown_keyword_raises_TypeError_witness :
  exists msg,
    @call_train_model test_backend [[1]; [2]] [0; 1] (Some [0.25; 0.75])
                      [("criterion"%string,
                        KwCriterion criterion_focal_loss);
                       ("epochs"%string, KwInt 3)]
                      (@Build_world test_backend 0%nat empty_fs)
    = (Raise (TypeError msg), @Build_world test_backend 0%nat empty_fs).
Proof.
  apply (@unknown_keyword_raises_TypeError
           test_backend [[1]; [2]] [0; 1] (Some [0.25; 0.75])
           [("criterion"%string, KwCriterion criterion_focal_loss);
            ("epochs"%string, KwInt 3)]
           "criterion"%string (KwCriterion criterion_focal_loss)).
  - left. reflexivity.
  - discriminate.
  - discriminate.
  - discriminate.
Defined.

(** ** Inference and clean-up: errors and batch size *)

(** X19.  The predictions do not depend on the batch size: for batch sizes
    of at least 1 the inference stage gives the same submission, or raises
    the same exception, whatever the batch size is. *)
Theorem inference_independent_of_batch_size :
  forall (fs : filesystem) (input_shape n_splits b1 b2 : nat)
         (ids : list nat) (X_test : matrix),
    (1 <= b1)%nat -> (1 <= b2)%nat ->
    inference fs input_shape n_splits b1 ids X_test
    = inference fs input_shape n_splits b2 ids X_test.
Proof.
  intros fs d k b1 b2 ids X_test H1 H2. unfold inference.
  assert (H : forall folds test_preds,
             predict_folds fs d b1 X_test folds test_preds
             = predict_folds fs d b2 X_test folds test_preds).
  { induction folds as [|f folds IH]; intros test_preds; [reflexivity|].
    cbn [predict_folds].
    assert (Hf : predict_fold fs d b1 X_test f
                 = predict_fold fs d b2 X_test f).
    { rewrite !predict_fold_cases.
      destruct b1; [lia|]. destruct b2; [lia|]. reflexivity. }
    rewrite Hf. destruct (predict_fold fs d b2 X_test f); [|reflexivity].
    cbn [bind]. apply IH. }
  now rewrite H.
Qed.

Lemma inference_independent_of_batch_size_witness :
  inference (fs_write empty_fs (checkpoint_path 0) (zero_model 1))
            1 1 1 [7%nat; 8%nat] [[0.5]; [2]]
  = inference (fs_write empty_fs (checkpoint_path 0) (zero_model 1))
              1 1 1024 [7%nat; 8%nat] [[0.5]; [2]].
Proof. apply inference_independent_of_batch_size; lia. Defined.

(** The loop over the folds stops at the first fold that raises. *)
Lemma predict_folds_first_failure fs input_shape batch_size X_test e :
  (1 <= batch_size)%nat -> X_test <> [] ->
  Forall (fun x => length x = input_shape) X_test ->
  forall folds f later test_preds,
    (forall g, In g folds ->
               exists m, fs (checkpoint_path g) = Some m
                         /\ model_shape m input_shape) ->
    predict_fold fs input_shape batch_size X_test f = Raise e ->
    predict_folds fs input_shape batch_size X_test (folds ++ f :: later)
                  test_preds
    = Raise e.
Proof.
  intros Hb Hne Hw. induction folds as [|g folds IH];
    intros f later test_preds Hall Hf.
  - cbn [app predict_folds]. now rewrite Hf.
  - cbn [app predict_folds].
    destruct (Hall g (or_introl eq_refl)) as (m & Hm & Hshape).
    rewrite (predict_fold_ok fs input_shape batch_size X_test g m)
      by assumption.
    cbn [bind]. apply IH; auto. intros; apply Hall; now right.
Qed.

Lemma seq_split_at (f k : nat) :
  (f < k)%nat -> seq 0 k = seq 0 f ++ f :: seq (S f) (k - S f).
Proof.
  intros Hf. change (f :: seq (S f) (k - S f)) with (seq f (S (k - S f))).
  rewrite <- seq_app. f_equal. lia.
Qed.

(** X20.  The inference stage needs every checkpoint, with the shapes of
    the model, and a test set with rows.  When the checkpoints of the folds
    below [f] exist with these shapes and the test set has rows of the width
    of the model, a missing checkpoint of the fold [f] raises
    FileNotFoundError for its file, and a checkpoint of [f] with other
    shapes raises RuntimeError when it is loaded; and when the test set has
    no row the stage raises ValueError at [np.concatenate] in the first
    fold. *)
Theorem inference_raises_without_checkpoint_or_rows :
  forall (fs : filesystem) (input_shape n_splits batch_size f : nat)
         (ids : list nat) (X_test : matrix),
    (1 <= batch_size)%nat -> (f < n_splits)%nat ->
    (forall g, (g < f)%nat ->
               exists m, fs (checkpoint_path g) = Some m
                         /\ model_shape m input_shape) ->
    X_test <> [] ->
    Forall (fun x => length x = input_shape) X_test ->
    (fs (checkpoint_path f) = None ->
     inference fs input_shape n_splits batch_size ids X_test
     = Raise (FileNotFoundError (checkpoint_path f)))
    /\ (forall m, fs (checkpoint_path f) = Some m ->
                  ~ model_shape m input_shape ->
                  inference fs input_shape n_splits batch_size ids X_test
                  = Raise RuntimeError)
    /\ (forall m, fs (checkpoint_path 0) = Some m ->
                  model_shape m input_shape ->
                  inference fs input_shape n_splits batch_size ids []
                  = Raise (ValueError
                             "need at least one array to concatenate")).
Proof.
  intros fs d k bs f ids X_test Hb Hf Hall Hne Hw.
  assert (Hstop : forall e,
             predict_fold fs d bs X_test f = Raise e ->
             inference fs d k bs ids X_test = Raise e).
  { intros e He. unfold inference. rewrite (seq_split_at f k Hf).
    rewrite (predict_folds_first_failure fs d bs X_test e); auto.
    intros g Hg. apply in_seq in Hg. apply Hall. lia. }
  split; [|split].
  - intros Hnone. apply Hstop. now rewrite predict_fold_cases, Hnone.
  - intros m Hm Hshape. apply Hstop. rewrite predict_fold_cases, Hm.
    destruct (has_model_shape m d) eqn:E; [|reflexivity].
    apply has_model_shape_spec in E. contradiction.
  - intros m Hm Hshape. unfold inference.
    destruct k as [|k]; [lia|]. cbn [seq predict_folds].
    rewrite predict_fold_cases, Hm.
    apply has_model_shape_spec in Hshape. rewrite Hshape.
    destruct bs; [lia|]. reflexivity.
Qed.

Lemma inference_raises_without_checkpoint_or_rows_witness :
  inference (fs_write empty_fs (checkpoint_path 0) (zero_model 1))
            1 2 1 [7%nat] [[0.5]]
  = Raise (FileNotFoundError (checkpoint_path 1)).
Proof.
  assert (Hb : (1 <= 1)%nat) by lia.
  assert (Hf : (1 < 2)%nat) by lia.
  assert (Hall : forall g, (g < 1)%nat ->
             exists m,
               fs_write empty_fs (checkpoint_path 0) (zero_model 1)
                        (checkpoint_path g) = Some m
               /\ model_shape m 1).
  { intros g Hg. assert (g = 0%nat) as -> by lia.
    exists (zero_model 1). split; [reflexivity | apply zero_model_shape]. }
  assert (Hne : [[0.5]] <> ([] : matrix)) by discriminate.
  assert (Hw : Forall (fun x : list R => length x = 1%nat) [[0.5]])
    by (repeat constructor).
  destruct (inference_raises_without_checkpoint_or_rows
              (fs_write empty_fs (checkpoint_path 0) (zero_model 1))
              1 2 1 1 [7%nat] [[0.5]] Hb Hf Hall Hne Hw) as [H _].
  apply H. reflexivity.
Defined.

(** *** Clean-up *)

Lemma cleanup_loop_removes fs folds :
  NoDup folds ->
  (forall f, In f folds -> fs (checkpoint_path f) <> None) ->
  exists fs',
    cleanup_loop fs folds = (fs', None)
    /\ (forall f, In f folds -> fs' (checkpoint_path f) = None)
    /\ (forall p, (forall f, In f folds -> p <> checkpoint_path f) ->
                  fs' p = fs p).
Proof.
  intros Hnd. revert fs. induction Hnd as [|f folds Hnotin Hnd IH];
    intros fs Hall.
  - exists fs. repeat split; auto. intros f [].
  - cbn [cleanup_loop]. unfold os_remove.
    destruct (fs (checkpoint_path f)) as [m|] eqn:Hf.
    2:{ exfalso. now apply (Hall f (or_introl eq_refl)). }
    destruct (IH (fs_remove fs (checkpoint_path f))) as (fs' & Heq & Hgone & Hkeep).
    { intros g Hg. unfold fs_remove.
      destruct (String.eqb (checkpoint_path g) (checkpoint_path f)) eqn:E.
      - apply String.eqb_eq, checkpoint_path_inj in E. subst. contradiction.
      - apply Hall. now right. }
    exists fs'. split; [exact Heq|]. split.
    + intros g [<- | Hg]; [|now apply Hgone].
      rewrite Hkeep.
      * unfold fs_remove. now rewrite String.eqb_refl.
      * intros g Hg H. apply checkpoint_path_inj in H. now subst.
    + intros p Hp. rewrite Hkeep by (intros; apply Hp; now right).
      unfold fs_remove.
      destruct (String.eqb p (checkpoint_path f)) eqn:E; [|reflexivity].
      apply String.eqb_eq in E. exfalso.
      exact (Hp f (or_introl eq_refl) E).
Qed.

(** X21.  When the checkpoint of every fold exists, the clean-up loop ends
    without an exception, removes these checkpoints and leaves every other
    file as it was; afterwards the inference stage and a second clean-up
    both raise FileNotFoundError for the checkpoint of fold 0. *)
Theorem cleanup_removes_the_checkpoints :
  forall (fs : filesystem) (n_splits : nat),
    (forall f, (f < n_splits)%nat -> fs (checkpoint_path f) <> None) ->
    let fs' := fst (cleanup fs n_splits) in
    snd (cleanup fs n_splits) = None
    /\ (forall f, (f < n_splits)%nat -> fs' (checkpoint_path f) = None)
    /\ (forall p, (forall f, (f < n_splits)%nat -> p <> checkpoint_path f) ->
                  fs' p = fs p)
    /\ ((1 <= n_splits)%nat ->
        cleanup fs' n_splits
        = (fs', Some (FileNotFoundError (checkpoint_path 0)))
        /\ forall input_shape batch_size ids X_test,
             inference fs' input_shape n_splits batch_size ids X_test
             = Raise (FileNotFoundError (checkpoint_path 0))).
Proof.
  intros fs k Hall fs'. unfold cleanup in *.
  destruct (cleanup_loop_removes fs (seq 0 k) (seq_NoDup k 0))
    as (fs1 & Heq & Hgone & Hkeep).
  { intros f Hf. apply in_seq in Hf. apply Hall. lia. }
  subst fs'. rewrite Heq. cbn [fst snd].
  split; [reflexivity|]. split; [|split].
  - intros f Hf. apply Hgone, in_seq. lia.
  - intros p Hp. apply Hkeep. intros f Hf. apply in_seq in Hf.
    apply Hp. lia.
  - intros Hk. assert (H0 : fs1 (checkpoint_path 0) = None)
      by (apply Hgone, in_seq; lia).
    destruct k as [|k]; [lia|]. split.
    + cbn [seq cleanup_loop]. unfold os_remove. now rewrite H0.
    + intros d bs ids X_test. unfold inference. cbn [seq predict_folds].
      unfold predict_fold, fs_load. now rewrite H0.
Qed.

Lemma cleanup_removes_the_checkpoints_witness :
  snd (cleanup (fs_write empty_fs (checkpoint_path 0) (zero_model 1)) 1)
  = None.
Proof.
  apply (cleanup_removes_the_checkpoints
           (fs_write empty_fs (checkpoint_path 0) (zero_model 1)) 1).
  intros f Hf. assert (f = 0%nat) as -> by lia. discriminate.
Defined.

(** X22.  When a checkpoint is missing, the clean-up loop raises
    FileNotFoundError at the first fold whose file is not there, having
    removed the checkpoints of the folds before it and none of the folds
    after it. *)
Theorem cleanup_stops_at_missing_checkpoint :
  forall (fs : filesystem) (n_splits f : nat),
    (f < n_splits)%nat ->
    (forall g, (g < f)%nat -> fs (checkpoint_path g) <> None) ->
    fs (checkpoint_path f) = None ->
    let fs' := fst (cleanup fs n_splits) in
    snd (cleanup fs n_splits) = Some (FileNotFoundError (checkpoint_path f))
    /\ (forall g, (g < f)%nat -> fs' (checkpoint_path g) = None)
    /\ (forall g, (f < g)%nat -> fs' (checkpoint_path g)
                                 = fs (checkpoint_path g)).
Proof.
  intros fs k f Hf Hall Hnone fs'. unfold cleanup in *.
  assert (Hsplit : seq 0 k = seq 0 f ++ f :: seq (S f) (k - S f)).
  { change (f :: seq (S f) (k - S f)) with (seq f (S (k - S f))).
    rewrite <- seq_app. f_equal. lia. }
  destruct (cleanup_loop_removes fs (seq 0 f) (seq_NoDup f 0))
    as (fs1 & Heq & Hgone & Hkeep).
  { intros g Hg. apply in_seq in Hg. apply Hall. lia. }
  assert (Hloop : forall l1 l2 fs0 fs2,
             cleanup_loop fs0 l1 = (fs2, None) ->
             cleanup_loop fs0 (l1 ++ l2) = cleanup_loop fs2 l2).
  { induction l1 as [|a l1 IH]; intros l2 fs0 fs2 H.
    - cbn in H. injection H as <-. reflexivity.
    - cbn [app cleanup_loop] in *.
      destruct (os_remove fs0 (checkpoint_path a)); [|discriminate].
      now apply IH. }
  assert (Hf1 : fs1 (checkpoint_path f) = None).
  { rewrite Hkeep; [exact Hnone|].
    intros g Hg H. apply in_seq in Hg. apply checkpoint_path_inj in H. lia. }
  subst fs'. rewrite Hsplit, (Hloop _ _ _ _ Heq).
  cbn [cleanup_loop]. unfold os_remove. rewrite Hf1. cbn [fst snd].
  split; [reflexivity|]. split.
  - intros g Hg. apply Hgone, in_seq. lia.
  - intros g Hg. apply Hkeep. intros h Hh H. apply in_seq in Hh.
    apply checkpoint_path_inj in H. lia.
Qed.

Lemma cleanup_stops_at_missing_checkpoint_witness :
  snd (cleanup (fs_write empty_fs (checkpoint_path 0) (zero_model 1)) 2)
  = Some (FileNotFoundError (checkpoint_path 1)).
Proof.
  apply (cleanup_stops_at_missing_checkpoint
           (fs_write empty_fs (checkpoint_path 0) (zero_model 1)) 2 1).
  - lia.
  - intros g Hg. assert (g = 0%nat) as -> by lia. discriminate.
  - reflexivity.
Defined.
